(** * deepdive: the calibration node and the light-data driver

    A shallow embedding of
    - [ros/src/deepdive_calibration.cc]: [TransformCost], [Mean], [Solve],
      [LightCallback], [TriggerCallback], [TimerCallback];
    - [src/deepdive_data_light.c]: [convert_float], [decode_packet], [swaps],
      [swapl], [ootx_feed], [handle_acode], [handle_measurements],
      [handle_sync], [handle_sweep], [deepdive_data_light].

    Conventions.
    - A C++ [double] is a real number ([R]); rounding error is out of scope.
      A C [float] that is only stored is held as its bits.
    - A [std::map] is the list of its entries in key order ([StdMap]).
    - Fixed-width integers are [Z] with the conversions written out.
    - A C array is the list of its elements; in [Machine] an access outside
      them ends the call ([Outside]), as does a loop that does not stop
      ([Loops]).
    - Library calls whose result the sources do not determine (OpenCV's
      [solvePnP], the Ceres solver, ROS time conversion, zlib's [crc32]) are
      the fields of [Calibration.External] or parameters; constants of
      headers that are not among the sources are parameters.

    The model comes first, then its properties. *)

From Stdlib Require Import Reals Lra Lia ZArith NArith QArith DecimalString Sorted String List Bool.
Import ListNotations.

Set Implicit Arguments.

(** * The model *)

(** ** Arrays *)

(** [upd i x l]: the array [l] after [l[i] = x]; callers check the bound. *)
Fixpoint upd {A : Type} (i : nat) (x : A) (l : list A) : list A :=
  match l, i with
  | [], _ => []
  | _ :: l', O => x :: l'
  | y :: l', S i' => y :: upd i' x l'
  end.

(** ** [std::map] *)

Class Key (K : Type) := {
  key_eqb : K -> K -> bool;
  key_ltb : K -> K -> bool;
  key_eqb_eq : forall a b, key_eqb a b = true <-> a = b
}.

#[export] Instance string_Key : Key string :=
  {| key_eqb := String.eqb; key_ltb := String.ltb; key_eqb_eq := String.eqb_eq |}.

#[export] Instance N_Key : Key N :=
  {| key_eqb := N.eqb; key_ltb := N.ltb; key_eqb_eq := N.eqb_eq |}.

Module StdMap.
Section Map.
Context {K V : Type} `{Key K}.

(** A map is the list of its entries in iteration order. *)

(** [m.find(k)] *)
Fixpoint find (k : K) (m : list (K * V)) : option V :=
  match m with
  | [] => None
  | (k', v) :: m' => if key_eqb k k' then Some v else find k m'
  end.

(** Assignment through a reference to the mapped value of a present key. *)
Fixpoint update (k : K) (f : V -> V) (m : list (K * V)) : list (K * V) :=
  match m with
  | [] => []
  | (k', v) :: m' =>
      if key_eqb k k' then (k', f v) :: m' else (k', v) :: update k f m'
  end.

(** Insertion of an absent key, before the first larger key. *)
Fixpoint insert_new (k : K) (v : V) (m : list (K * V)) : list (K * V) :=
  match m with
  | [] => [(k, v)]
  | (k', v') :: m' =>
      if key_ltb k k' then (k, v) :: (k', v') :: m'
      else (k', v') :: insert_new k v m'
  end.

(** [f(m[k])] on the reference [m[k]]: [operator[]] value-initialises an
    absent entry to [d] first. *)
Definition modify (d : V) (k : K) (f : V -> V) (m : list (K * V))
  : list (K * V) :=
  match find k m with
  | Some _ => update k f m
  | None => insert_new k (f d) m
  end.

(** The value read through [m[k]]. *)
Definition get (d : V) (k : K) (m : list (K * V)) : V :=
  match find k m with Some v => v | None => d end.

Definition keys (m : list (K * V)) : list K := map fst m.
End Map.
End StdMap.

(** ** Ceres: rotation.h

    [TransformCost] calls three functions of Ceres' [rotation.h]; they are
    written here for [T = double], quaternions as (w, x, y, z). *)

Module Ceres.
Open Scope R_scope.

Definition quat := (R * R * R * R)%type.
Definition vec3 := (R * R * R)%type.

(** [atan2(y, x)] of the C library, away from signed zeros. *)
Definition atan2 (y x : R) : R :=
  if Rlt_dec 0 x then atan (y / x)
  else if Rlt_dec x 0 then
    (if Rle_dec 0 y then atan (y / x) + PI else atan (y / x) - PI)
  else if Rlt_dec 0 y then PI / 2
  else if Rlt_dec y 0 then - (PI / 2)
  else 0.

(** [ceres::AngleAxisToQuaternion] *)
Definition AngleAxisToQuaternion (angle_axis : vec3) : quat :=
  let '(a0, a1, a2) := angle_axis in
  let theta_squared := a0 * a0 + a1 * a1 + a2 * a2 in
  if Rlt_dec 0 theta_squared then
    let theta := sqrt theta_squared in
    let half_theta := theta * 0.5 in
    let k := sin half_theta / theta in
    (cos half_theta, a0 * k, a1 * k, a2 * k)
  else
    let k := 0.5 in
    (1, a0 * k, a1 * k, a2 * k).

(** [ceres::QuaternionProduct] *)
Definition QuaternionProduct (z w : quat) : quat :=
  let '(z0, z1, z2, z3) := z in
  let '(w0, w1, w2, w3) := w in
  (z0 * w0 - z1 * w1 - z2 * w2 - z3 * w3,
   z0 * w1 + z1 * w0 + z2 * w3 - z3 * w2,
   z0 * w2 - z1 * w3 + z2 * w0 + z3 * w1,
   z0 * w3 + z1 * w2 - z2 * w1 + z3 * w0).

(** [ceres::QuaternionToAngleAxis] *)
Definition QuaternionToAngleAxis (quaternion : quat) : vec3 :=
  let '(q0, q1, q2, q3) := quaternion in
  let sin_squared_theta := q1 * q1 + q2 * q2 + q3 * q3 in
  if Rlt_dec 0 sin_squared_theta then
    let sin_theta := sqrt sin_squared_theta in
    let cos_theta := q0 in
    let two_theta :=
      2 * (if Rlt_dec cos_theta 0 then atan2 (- sin_theta) (- cos_theta)
           else atan2 sin_theta cos_theta) in
    let k := two_theta / sin_theta in
    (q1 * k, q2 * k, q3 * k)
  else
    let k := 2 in
    (q1 * k, q2 * k, q3 * k).

(** The identity rotation, the squared norm, and the negation of the
    vector part that [TransformCost] writes out by hand. *)
Definition QuaternionIdentity : quat := (1, 0, 0, 0).

Definition SquaredNorm (q : quat) : R :=
  let '(q0, q1, q2, q3) := q in q0 * q0 + q1 * q1 + q2 * q2 + q3 * q3.

Definition Conjugate (q : quat) : quat :=
  let '(q0, q1, q2, q3) := q in (q0, - q1, - q2, - q3).

(** The inverse of a quaternion, for the rotation inverse the
    specification speaks of. *)
Definition QuaternionInverse (q : quat) : quat :=
  let '(q0, q1, q2, q3) := q in
  let n := SquaredNorm q in
  (q0 / n, - q1 / n, - q2 / n, - q3 / n).

End Ceres.

(** ** deepdive_calibration.cc *)

Module Calibration.
Import Ceres.
Open Scope R_scope.

(** *** Values *)

(** Element [i] of a [double] array. *)
Definition el (v : list R) (i : nat) : R := nth i v 0.

(** [x > y] and [x < y] on doubles. *)
Definition Rgtb (x y : R) : bool := if Rlt_dec y x then true else false.
Definition Rltb (x y : R) : bool := if Rlt_dec x y then true else false.

(** [round] of the C library: to the nearest integer, halves away from
    zero. *)
Definition round (x : R) : R :=
  if Rle_dec 0 x then IZR (Int_part (x + 0.5))
  else - IZR (Int_part (- x + 0.5)).

(** A value of type [int], and the conversion to a 64-bit [size_t] that a
    comparison of the two applies to it. *)
Definition is_int (i : Z) : Prop := (- 2 ^ 31 <= i < 2 ^ 31)%Z.
Definition size_t_of_int (i : Z) : Z := (i mod 2 ^ 64)%Z.

(** Iteration over a container whose entries the body assigns through the
    iterator. *)
Fixpoint for_each {A S : Type} (body : A -> S -> A * S) (l : list A) (s : S)
  : list A * S :=
  match l with
  | [] => ([], s)
  | x :: l' =>
      let '(x', s1) := body x s in
      let '(l'', s2) := for_each body l' s1 in
      (x' :: l'', s2)
  end.

(** *** Data ([deepdive.hh] and the [deepdive_ros] messages are not among
    the sources: the fields are the ones this file uses) *)

Inductive Param :=
| PARAM_PHASE | PARAM_TILT | PARAM_GIB_PHASE | PARAM_GIB_MAG | PARAM_CURVE.

Record Lighthouse := {
  vTl : list R;
  params : nat -> Param -> R;
  lh_ready : bool
}.

Record Tracker := {
  sensors : list R;
  vTt : list (list R);
  bTh : list R;
  tr_ready : bool
}.

Record Pulse := {
  sensor : N;
  angle : R;
  duration : R
}.

Record Light := {
  frame_id : string;
  lighthouse : string;
  axis : N;
  pulses : list Pulse
}.

Record Measurement := { light : Light }.

Definition LighthouseMap := list (string * Lighthouse).
Definition TrackerMap := list (string * Tracker).

Definition set_vTl (v : list R) (lh : Lighthouse) : Lighthouse :=
  {| vTl := v; params := params lh; lh_ready := lh_ready lh |}.

Definition clear_vTt (tr : Tracker) : Tracker :=
  {| sensors := sensors tr; vTt := []; bTh := bTh tr; tr_ready := tr_ready tr |}.

(** What the node sends out, in order: log lines, transforms, the
    calibration file, paths, and restarts of the offline timer. Lines
    written with [ROS_INFO_STREAM] carry formatted numbers and are not
    recorded. *)
Inductive Event :=
| ROS_WARN (msg : string)
| ROS_INFO (msg : string)
| SendTransforms (lighthouses : LighthouseMap) (trackers : TrackerMap)
| WriteConfigCall (calfile : string) (lighthouses : LighthouseMap)
    (trackers : TrackerMap)
| PublishPath (lserial tserial : string)
| TimerRestart.

(** The globals [main] reads from the parameter server, those that
    [Solve] and the callbacks use. *)
Record Config := {
  calfile_ : string;
  correct_ : bool;
  thresh_count_ : Z;
  thresh_angle_ : R;
  thresh_duration_ : R;
  res_ : R;
  visualize_ : bool
}.

(** One parameter block of the least-squares problem is the [vTl] array of
    a lighthouse, named by the position of the lighthouse in
    [lighthouses_]; the two poses of a residual block are held constant. *)
Record ResidualBlock := {
  rb_transform : nat;
  rb_master_pose : list R;
  rb_slave_pose : list R
}.

(** The trigger service's response. *)
Record Response := {
  success : bool;
  message : string
}.

(** *** [TransformCost] *)

Definition rotation_of (T : list R) : vec3 := (el T 3, el T 4, el T 5).

Definition TransformCost (mTs mTt sTt : list R) : list R :=
  let mRt := AngleAxisToQuaternion (rotation_of mTt) in
  let mRs := AngleAxisToQuaternion (rotation_of mTs) in
  let sRt := AngleAxisToQuaternion (rotation_of sTt) in
  let mRt_inv := QuaternionProduct mRs sRt in
  let mRt_inv := Conjugate mRt_inv in
  let q := QuaternionProduct mRt mRt_inv in
  let '(r3, r4, r5) := QuaternionToAngleAxis q in
  [ el mTt 0 - (el mTs 0 + el sTt 0);
    el mTt 1 - (el mTs 1 + el sTt 1);
    el mTt 2 - (el mTs 2 + el sTt 2);
    r3; r4; r5 ].

(** The rotational residual in the specification's words: the axis-angle
    of slaveToMaster composed with masterPose composed with the inverse of
    slavePose. *)
Definition spec_rotation_residual (mTs mTt sTt : list R) : vec3 :=
  let mRt := AngleAxisToQuaternion (rotation_of mTt) in
  let mRs := AngleAxisToQuaternion (rotation_of mTs) in
  let sRt := AngleAxisToQuaternion (rotation_of sTt) in
  QuaternionToAngleAxis
    (QuaternionProduct (QuaternionProduct mRs mRt) (QuaternionInverse sRt)).

(** *** [Mean]: [None] is the [false] return, which leaves [d] alone. *)

Definition Mean (v : list R) : option R :=
  match v with
  | [] => None
  | _ => Some (fold_left Rplus v 0 / INR (length v))
  end.

(** *** The angle correction of [Solve], in place on [angles[2]] *)

Definition correct_axis (lh : Lighthouse) (angles : list R) (a : nat) : list R :=
  let angles := upd a (el angles a - params lh a PARAM_PHASE) angles in
  let angles :=
    upd a (el angles a - params lh a PARAM_TILT * el angles (1 - a)) angles in
  let angles :=
    upd a (el angles a
           - params lh a PARAM_CURVE * el angles (1 - a) * el angles (1 - a))
      angles in
  upd a (el angles a
         - params lh a PARAM_GIB_MAG
           * cos (el angles (1 - a) + params lh a PARAM_GIB_PHASE))
    angles.

Definition correct_angles (lh : Lighthouse) (angles : list R) : list R :=
  fold_left (correct_axis lh) [0%nat; 1%nat] angles.

(** The same correction in the specification's words: on each axis the
    cross terms are taken at the other axis's bundled mean. *)
Definition spec_corrected (lh : Lighthouse) (m : list R) (a : nat) : R :=
  el m a - params lh a PARAM_PHASE
  - params lh a PARAM_TILT * el m (1 - a)
  - params lh a PARAM_CURVE * el m (1 - a) * el m (1 - a)
  - params lh a PARAM_GIB_MAG * cos (el m (1 - a) + params lh a PARAM_GIB_PHASE).

(** *** What the file takes from outside *)

(** [ros::Time] values convert to and from seconds; [deepdive.hh] fixes the
    number of sensors of a tracker; OpenCV's [solvePnP] gives a rotation
    vector and a translation for object points, image points and the focal
    length of the camera matrix, or fails; [cv::Rodrigues] followed by
    [Eigen::AngleAxisd] gives the angle and the axis of a rotation vector;
    [ceres::Solve] takes the residual blocks and the current [vTl] arrays
    of [lighthouses_] and gives [IsSolutionUsable] and the arrays it
    leaves. *)
Record External (Time : Type) := {
  toSec : Time -> R;
  fromSec : R -> Time;
  NUM_SENSORS : nat;
  solvePnP : list vec3 -> list (R * R) -> R -> option (vec3 * vec3);
  AngleAxisd : vec3 -> R * vec3;
  ceres_Solve : list ResidualBlock -> list (list R) -> bool * list (list R)
}.

(** *** The node *)

Section Node.

Context {Time : Type} {Time_Key : Key Time}.
Variable ext : External Time.

Definition MeasurementMap := list (Time * Measurement).

Record Node := {
  trackers_ : TrackerMap;
  lighthouses_ : LighthouseMap;
  measurements_ : MeasurementMap;
  recording_ : bool;
  out_ : list Event
}.

Definition emit (e : Event) (st : Node) : Node :=
  {| trackers_ := trackers_ st; lighthouses_ := lighthouses_ st;
     measurements_ := measurements_ st; recording_ := recording_ st;
     out_ := out_ st ++ [e] |}.

Definition set_measurements (ms : MeasurementMap) (st : Node) : Node :=
  {| trackers_ := trackers_ st; lighthouses_ := lighthouses_ st;
     measurements_ := ms; recording_ := recording_ st; out_ := out_ st |}.

Definition set_recording (b : bool) (st : Node) : Node :=
  {| trackers_ := trackers_ st; lighthouses_ := lighthouses_ st;
     measurements_ := measurements_ st; recording_ := b; out_ := out_ st |}.

Definition set_trackers (ts : TrackerMap) (st : Node) : Node :=
  {| trackers_ := ts; lighthouses_ := lighthouses_ st;
     measurements_ := measurements_ st; recording_ := recording_ st;
     out_ := out_ st |}.

Definition set_lighthouses (ls : LighthouseMap) (st : Node) : Node :=
  {| trackers_ := trackers_ st; lighthouses_ := ls;
     measurements_ := measurements_ st; recording_ := recording_ st;
     out_ := out_ st |}.

(** **** Bundling *)

Definition Bundle := list (Time * list (N * list (N * list R))).
Definition BundleMap := list (string * list (string * Bundle)).

(** [ros::Time(round(t.toSec() / res_) * res_)] *)
Definition bin_time (res : R) (t : Time) : Time :=
  fromSec ext (round (toSec ext t / res) * res).

(** [bundle[tserial][lserial][t][sensor][a].push_back(x)] *)
Definition push_back (tserial lserial : string) (t : Time) (s a : N) (x : R)
    (bundle : BundleMap) : BundleMap :=
  StdMap.modify [] tserial
    (StdMap.modify [] lserial
       (StdMap.modify [] t
          (StdMap.modify [] s
             (StdMap.modify [] a (fun v => v ++ [x]))))) bundle.

(** The vector read as [bundle[tserial][lserial][t][s][a]]. Reading an
    absent key through [operator[]] leaves an empty vector behind, which
    reads the same as no entry. *)
Definition samples (bundle : BundleMap) (tserial lserial : string) (t : Time)
    (s a : N) : list R :=
  StdMap.get [] a (StdMap.get [] s (StdMap.get [] t
    (StdMap.get [] lserial (StdMap.get [] tserial bundle)))).

(** The entry at the five keys, when there is one. *)
Definition bin (bundle : BundleMap) (tserial lserial : string) (t : Time)
    (s a : N) : option (list R) :=
  match StdMap.find tserial bundle with
  | None => None
  | Some m1 =>
      match StdMap.find lserial m1 with
      | None => None
      | Some m2 =>
          match StdMap.find t m2 with
          | None => None
          | Some m3 =>
              match StdMap.find s m3 with
              | None => None
              | Some m4 => StdMap.find a m4
              end
          end
      end
  end.

Definition bundle_measurement (res : R) (bundle : BundleMap)
    (mt : Time * Measurement) : BundleMap :=
  let tserial := frame_id (light (snd mt)) in
  let lserial := lighthouse (light (snd mt)) in
  let a := axis (light (snd mt)) in
  let t := bin_time res (fst mt) in
  fold_left (fun b pt => push_back tserial lserial t (sensor pt) a (angle pt) b)
    (pulses (light (snd mt))) bundle.

Definition bundle_measurements (res : R) (ms : MeasurementMap) : BundleMap :=
  fold_left (bundle_measurement res) ms [].

(** **** Pose of a tracker in a lighthouse frame, per epoch *)

Definition PoseMap := list (string * list (Time * list (string * list R))).

(** The principal distance [z] of the synthetic image plane. *)
Definition principal_distance : R :=
  let fov := 2.0944 in
  let w := 1.0 in
  w / (2.0 * tan (fov / 2.0)).

(** The body of the loop over sensors: the object and image point of
    sensor [s], unless a mean is missing. *)
Definition correspondence (cfg : Config) (bundle : BundleMap)
    (lt : string * Lighthouse) (tt : string * Tracker) (bt : Time) (s : nat)
  : option (vec3 * (R * R)) :=
  match Mean (samples bundle (fst tt) (fst lt) bt (N.of_nat s) 0%N) with
  | None => None
  | Some angles0 =>
      match Mean (samples bundle (fst tt) (fst lt) bt (N.of_nat s) 1%N) with
      | None => None
      | Some angles1 =>
          let z := principal_distance in
          let angles := [angles0; angles1] in
          let angles :=
            if correct_ cfg then correct_angles (snd lt) angles else angles in
          Some ((el (sensors (snd tt)) (s * 6 + 0),
                 el (sensors (snd tt)) (s * 6 + 1),
                 el (sensors (snd tt)) (s * 6 + 2)),
                (z * tan (el angles 0), z * tan (el angles 1)))
      end
  end.

Definition correspondences (cfg : Config) (bundle : BundleMap)
    (lt : string * Lighthouse) (tt : string * Tracker) (bt : Time)
  : list (vec3 * (R * R)) :=
  fold_left
    (fun acc s =>
       match correspondence cfg bundle lt tt bt s with
       | Some c => acc ++ [c]
       | None => acc
       end)
    (seq 0 (NUM_SENSORS ext)) [].

(** The pose stored for one epoch, when one is. *)
Definition epoch_pose (cfg : Config) (bundle : BundleMap)
    (lt : string * Lighthouse) (tt : string * Tracker) (bt : Time)
  : option (list R) :=
  let corr := correspondences cfg bundle lt tt bt in
  if (3 <? length corr)%nat then
    match solvePnP ext (map fst corr) (map snd corr) principal_distance with
    | Some (R_, (T0, T1, T2)) =>
        let '(aa_angle, (axis0, axis1, axis2)) := AngleAxisd ext R_ in
        Some [T0; T1; T2; aa_angle * axis0; aa_angle * axis1; aa_angle * axis2]
    | None => None
    end
  else None.

(** [poses[tserial][t][lserial][0..5] = pose] *)
Definition set_pose (tserial : string) (t : Time) (lserial : string)
    (pose : list R) (poses : PoseMap) : PoseMap :=
  StdMap.modify [] tserial
    (StdMap.modify [] t
       (StdMap.modify (repeat 0 6) lserial (fun _ => pose))) poses.

Definition bootstrap_epoch (cfg : Config) (bundle : BundleMap)
    (lt : string * Lighthouse) (tt : string * Tracker)
    (acc : PoseMap * nat) (bt : Time) : PoseMap * nat :=
  match epoch_pose cfg bundle lt tt bt with
  | Some pose => (set_pose (fst tt) bt (fst lt) pose (fst acc), S (snd acc))
  | None => acc
  end.

Definition bootstrap_tracker (cfg : Config) (bundle : BundleMap)
    (lt : string * Lighthouse) (tt : string * Tracker) (acc : PoseMap * nat)
  : (string * Tracker) * (PoseMap * nat) :=
  let tt := (fst tt, clear_vTt (snd tt)) in
  (tt,
   fold_left (bootstrap_epoch cfg bundle lt tt)
     (StdMap.keys (StdMap.get [] (fst lt) (StdMap.get [] (fst tt) bundle)))
     acc).

Definition bootstrap_lighthouse (cfg : Config) (bundle : BundleMap)
    (acc : TrackerMap * (PoseMap * nat)) (lt : string * Lighthouse)
  : TrackerMap * (PoseMap * nat) :=
  for_each (bootstrap_tracker cfg bundle lt) (fst acc) (snd acc).

Definition bootstrap (cfg : Config) (bundle : BundleMap)
    (lighthouses : LighthouseMap) (trackers : TrackerMap)
  : TrackerMap * (PoseMap * nat) :=
  fold_left (bootstrap_lighthouse cfg bundle) lighthouses (trackers, ([], 0%nat)).

(** **** The least-squares problem *)

(** [for (size_t i = 0; i < 6; i++) lt->second.vTl[0] = 0;] *)
Definition master_reset (lh : Lighthouse) : Lighthouse :=
  set_vTl (fold_left (fun v (i : nat) => upd 0 0 v) (seq 0 6) (vTl lh)) lh.

(** The residual blocks of slave [lserial] at position [i]. *)
Definition residual_blocks (poses : PoseMap) (trackers : TrackerMap)
    (lm : string) (i : nat) (lserial : string) : list ResidualBlock :=
  flat_map
    (fun tt : string * Tracker =>
       flat_map
         (fun pt : Time * list (string * list R) =>
            match StdMap.find lserial (snd pt), StdMap.find lm (snd pt) with
            | Some slave, Some master =>
                [ {| rb_transform := i; rb_master_pose := master;
                     rb_slave_pose := slave |} ]
            | _, _ => []
            end)
         (StdMap.get [] (fst tt) poses))
    trackers.

(** The loop over lighthouses: the first is the master, every other a
    slave with its position. *)
Definition build_problem (poses : PoseMap) (trackers : TrackerMap)
    (lighthouses : LighthouseMap) : LighthouseMap * list ResidualBlock :=
  match lighthouses with
  | [] => ([], [])
  | (lm, master) :: slaves =>
      ((lm, master_reset master) :: slaves,
       flat_map
         (fun il : nat * (string * Lighthouse) =>
            residual_blocks poses trackers lm (fst il) (fst (snd il)))
         (combine (seq 1 (length slaves)) slaves))
  end.

(** The arrays the solver may write: those of the parameter blocks added
    to the problem. *)
Definition in_problem (problem : list ResidualBlock) (i : nat) : bool :=
  existsb (fun rb => Nat.eqb (rb_transform rb) i) problem.

Definition write_back (problem : list ResidualBlock) (solved : list (list R))
    (lighthouses : LighthouseMap) : LighthouseMap :=
  map
    (fun il : nat * (string * Lighthouse) =>
       if in_problem problem (fst il)
       then (fst (snd il), set_vTl (nth (fst il) solved (vTl (snd (snd il)))) (snd (snd il)))
       else snd il)
    (combine (seq 0 (length lighthouses)) lighthouses).

(** **** [Solve] *)

(** One path is published per lighthouse and tracker. The lines that fill
    its message name [tt], [it] and [msg], which are not in scope there;
    the message is not recorded. *)
Definition publish_paths (lighthouses : LighthouseMap) (trackers : TrackerMap)
  : list Event :=
  flat_map
    (fun lt : string * Lighthouse =>
       map (fun jt : string * Tracker => PublishPath (fst lt) (fst jt)) trackers)
    lighthouses.

Definition Solve (cfg : Config) (st : Node) : bool * Node :=
  match measurements_ st with
  | [] =>
      (false,
       emit (ROS_WARN "Insufficient measurements received, so cannot solve problem.") st)
  | _ :: _ =>
      let st := emit (ROS_INFO "Bundling measurements into larger discrete time units.") st in
      let bundle := bundle_measurements (res_ cfg) (measurements_ st) in
      let st := emit (ROS_INFO "Using P3P to estimate pose sequence in every lighthouse frame.") st in
      let '(trackers, (poses, count)) :=
        bootstrap cfg bundle (lighthouses_ st) (trackers_ st) in
      let st := set_trackers trackers st in
      let st := emit (ROS_INFO "Estimating master -> slave lighthouse transforms.") st in
      let '(lighthouses, problem) :=
        build_problem poses (trackers_ st) (lighthouses_ st) in
      let '(usable, solved) :=
        ceres_Solve ext problem (map (fun l => vTl (snd l)) lighthouses) in
      let st := set_lighthouses (write_back problem solved lighthouses) st in
      let st :=
        if usable then emit (ROS_INFO "- Solution found") st
        else emit (ROS_INFO "- Solution not found") st in
      let st := emit (SendTransforms (lighthouses_ st) (trackers_ st)) st in
      let st := emit (WriteConfigCall (calfile_ cfg) (lighthouses_ st) (trackers_ st)) st in
      let st :=
        if visualize_ cfg
        then fold_left (fun st e => emit e st)
               (publish_paths (lighthouses_ st) (trackers_ st)) st
        else st in
      (true, st)
  end.

(** **** [LightCallback] *)

Definition rejected (cfg : Config) (p : Pulse) : bool :=
  Rgtb (angle p) (thresh_angle_ cfg / 57.2958)
  || Rltb (duration p) (thresh_duration_ cfg / 1e6).

(** [pulses.erase(it)] with [it] at index [i]. *)
Fixpoint erase {A : Type} (i : nat) (v : list A) : list A :=
  match v, i with
  | [], _ => []
  | _ :: v', O => v'
  | x :: v', S i' => x :: erase i' v'
  end.

(** The loop [while (it-- > begin)] entered with [it] at index [it]: the
    body sees index [it - 1], and [erase] hands that index back. *)
Fixpoint erase_loop (cfg : Config) (it : nat) (v : list Pulse) (deleted : nat)
  : list Pulse * nat :=
  match it with
  | O => (v, deleted)
  | S it' =>
      match nth_error v it' with
      | Some p =>
          if rejected cfg p then erase_loop cfg it' (erase it' v) (S deleted)
          else erase_loop cfg it' v deleted
      | None => erase_loop cfg it' v deleted
      end
  end.

Definition known_and_ready (msg : Light) (st : Node) : bool :=
  match StdMap.find (frame_id msg) (trackers_ st),
        StdMap.find (lighthouse msg) (lighthouses_ st) with
  | Some tr, Some lh => tr_ready tr && lh_ready lh
  | _, _ => false
  end.

Definition set_pulses (v : list Pulse) (msg : Light) : Light :=
  {| frame_id := frame_id msg; lighthouse := lighthouse msg;
     axis := axis msg; pulses := v |}.

Definition default_Measurement : Measurement :=
  {| light := {| frame_id := EmptyString; lighthouse := EmptyString;
                 axis := 0%N; pulses := [] |} |}.

(** [now] is the value of [ros::Time::now()] at the last line. *)
Definition LightCallback (cfg : Config) (now : Time) (msg : Light) (st : Node)
  : Node :=
  let st := emit TimerRestart st in
  if negb (recording_ st) || negb (known_and_ready msg st) then st
  else
    let '(v, deleted) := erase_loop cfg (length (pulses msg)) (pulses msg) 0 in
    let data := set_pulses v msg in
    if (Z.of_nat (length (pulses data)) <? size_t_of_int (thresh_count_ cfg))%Z
    then st
    else
      set_measurements
        (StdMap.modify default_Measurement now
           (fun _ => {| light := data |}) (measurements_ st)) st.

(** **** [TriggerCallback] and [TimerCallback] *)

Definition TriggerCallback (cfg : Config) (res : Response) (st : Node)
  : bool * Response * Node :=
  let res :=
    if negb (recording_ st)
    then {| success := true; message := "Recording started." |}
    else res in
  let '(res, st') :=
    if recording_ st then
      let '(ok, st1) := Solve cfg st in
      let res :=
        if ok
        then {| success := ok; message := "Recording stopped. Solution found." |}
        else {| success := ok; message := "Recording stopped. Solution not found." |} in
      (res, set_measurements [] st1)
    else (res, st) in
  (true, res, set_recording (negb (recording_ st')) st').

Definition TimerCallback (cfg : Config) (st : Node) : Node :=
  snd (TriggerCallback cfg {| success := false; message := EmptyString |} st).

(** **** Notions the properties below are stated with *)

(** What [Solve] leaves in [lighthouses_] on a non-empty store. *)
Definition lighthouses_after_Solve (cfg : Config) (st : Node) : LighthouseMap :=
  let bundle := bundle_measurements (res_ cfg) (measurements_ st) in
  let '(trackers, (poses, count)) :=
    bootstrap cfg bundle (lighthouses_ st) (trackers_ st) in
  let '(lighthouses, problem) := build_problem poses trackers (lighthouses_ st) in
  let '(usable, solved) :=
    ceres_Solve ext problem (map (fun l => vTl (snd l)) lighthouses) in
  write_back problem solved lighthouses.

(** The pulses of an observation that go to the bin at the five keys. *)
Definition falls_in (res : R) (tserial lserial : string) (t : Time) (s a : N)
    (mt : Time * Measurement) (pt : Pulse) : bool :=
  key_eqb tserial (frame_id (light (snd mt)))
  && key_eqb lserial (lighthouse (light (snd mt)))
  && key_eqb t (bin_time res (fst mt))
  && key_eqb s (sensor pt)
  && key_eqb a (axis (light (snd mt))).

(** Their angles over the whole store, in store order. *)
Definition collected (res : R) (ms : MeasurementMap) (tserial lserial : string)
    (t : Time) (s a : N) : list R :=
  flat_map
    (fun mt =>
       map angle
         (filter (falls_in res tserial lserial t s a mt) (pulses (light (snd mt)))))
    ms.

(** The sum of a list of doubles. *)
Definition Rsum (v : list R) : R := fold_right Rplus 0 v.

(** A bin after more samples arrive: none leaves it as it was. *)
Definition extend (o : option (list R)) (l : list R) : option (list R) :=
  match l with
  | [] => o
  | _ :: _ => Some (match o with Some v => v | None => [] end ++ l)
  end.

(** The pose stored as [poses[tserial][t][lserial]], when there is one. *)
Definition pose_at (poses : PoseMap) (tserial : string) (t : Time)
    (lserial : string) : option (list R) :=
  match StdMap.find tserial poses with
  | None => None
  | Some m1 =>
      match StdMap.find t m1 with
      | None => None
      | Some m2 => StdMap.find lserial m2
      end
  end.

(** The epochs the loop over [bundle[tserial][lserial]] visits. *)
Definition epochs (bundle : BundleMap) (tserial lserial : string) : list Time :=
  StdMap.keys (StdMap.get [] lserial (StdMap.get [] tserial bundle)).

(** Whether the bundle holds a sample of sensor [s] on axis [a] at a
    (tracker, lighthouse, time bin): the sensor then has a mean angle on
    that axis. *)
Definition has_mean (bundle : BundleMap) (tserial lserial : string) (t : Time)
    (s : nat) (a : N) : bool :=
  match bin bundle tserial lserial t (N.of_nat s) a with
  | Some (_ :: _) => true
  | _ => false
  end.

(** The sensors with a mean angle on axis 0 and on axis 1, in index
    order. *)
Definition seen_on_both_axes (bundle : BundleMap) (tserial lserial : string)
    (t : Time) : list nat :=
  filter (fun s => has_mean bundle tserial lserial t s 0
                   && has_mean bundle tserial lserial t s 1)
         (seq 0 (NUM_SENSORS ext)).

(** An entry of [poses] that some iteration of the three loops stored. *)
Definition produced (cfg : Config) (bundle : BundleMap)
    (lighthouses : LighthouseMap) (trackers : TrackerMap)
    (tserial : string) (t : Time) (lserial : string) (pose : list R) : Prop :=
  exists lh tr,
    In (lserial, lh) lighthouses /\ In (tserial, tr) trackers /\
    In t (epochs bundle tserial lserial) /\
    epoch_pose cfg bundle (lserial, lh) (tserial, clear_vTt tr) t = Some pose.

Definition all_produced (cfg : Config) (bundle : BundleMap)
    (lighthouses : LighthouseMap) (trackers : TrackerMap) (poses : PoseMap)
  : Prop :=
  forall tserial t lserial pose,
    pose_at poses tserial t lserial = Some pose ->
    produced cfg bundle lighthouses trackers tserial t lserial pose.

(** The trackers the loops meet are those of [trackers_], cleared or not. *)
Definition from_trackers (trackers : TrackerMap) (l : TrackerMap) : Prop :=
  forall tt, In tt l ->
    exists tr, In (fst tt, tr) trackers /\ clear_vTt (snd tt) = clear_vTt tr.

(** And each tracker of [trackers_] is met, cleared or not. *)
Definition covers (trackers : TrackerMap) (l : TrackerMap) : Prop :=
  forall ts tr, In (ts, tr) trackers ->
    exists tr', In (ts, tr') l /\ clear_vTt tr' = clear_vTt tr.

End Node.

Arguments Node : clear implicits.
Arguments MeasurementMap : clear implicits.
Arguments Bundle : clear implicits.
Arguments BundleMap : clear implicits.
Arguments PoseMap : clear implicits.

(** *** Examples *)

(** Time in whole nanoseconds. *)
Definition ns_toSec (t : N) : R := IZR (Z.of_N t) / 1e9.
Definition ns_fromSec (x : R) : N := Z.to_N (Int_part (x * 1e9 + 0.5)).

Definition PnP_fails (obj : list vec3) (img : list (R * R)) (f : R)
  : option (vec3 * vec3) := None.
Definition PnP_succeeds (obj : list vec3) (img : list (R * R)) (f : R)
  : option (vec3 * vec3) := Some ((0, 0, 0), (1, 2, 3)).
Definition AngleAxisd_x (rvec : vec3) : R * vec3 := (0, (1, 0, 0)).
Definition solver_unusable (problem : list ResidualBlock) (v : list (list R))
  : bool * list (list R) := (false, v).

(** Four sensors; a PnP that fails, or one that succeeds; a solver that
    reports an unusable solution. *)
Definition example_ext (pnp : list vec3 -> list (R * R) -> R -> option (vec3 * vec3))
  : External N :=
  {| toSec := ns_toSec; fromSec := ns_fromSec; NUM_SENSORS := 4;
     solvePnP := pnp; AngleAxisd := AngleAxisd_x;
     ceres_Solve := solver_unusable |}.

Definition example_cfg : Config :=
  {| calfile_ := "deepdive.tf2"; correct_ := false; thresh_count_ := 4;
     thresh_angle_ := 60.0; thresh_duration_ := 1.0; res_ := 0.1;
     visualize_ := true |}.

(** The same configuration with a negative minimum count. *)
Definition negative_count_cfg : Config :=
  {| calfile_ := "deepdive.tf2"; correct_ := false; thresh_count_ := -1;
     thresh_angle_ := 60.0; thresh_duration_ := 1.0; res_ := 0.1;
     visualize_ := true |}.

Definition example_tracker : Tracker :=
  {| sensors := repeat 0 24; vTt := []; bTh := repeat 0 6; tr_ready := true |}.

Definition example_lighthouse : Lighthouse :=
  {| vTl := [1; 2; 3; 4; 5; 6]; params := fun _ _ => 0; lh_ready := true |}.

(** One ready tracker, two ready lighthouses, an empty store. *)
Definition example_recording : Node N :=
  {| trackers_ := [("T"%string, example_tracker)];
     lighthouses_ := [("A"%string, example_lighthouse);
                      ("B"%string, example_lighthouse)];
     measurements_ := [];
     recording_ := true;
     out_ := [] |}.

Definition example_pulse (s : N) : Pulse :=
  {| sensor := s; angle := 0.5; duration := 1e-5 |}.

(** Four pulses of tracker T under lighthouse A, all within the
    thresholds. *)
Definition example_light : Light :=
  {| frame_id := "T"; lighthouse := "A"; axis := 0%N;
     pulses := [example_pulse 0; example_pulse 1; example_pulse 2;
                example_pulse 3] |}.

(** Sensors 0 to 3 of tracker T seen on both axes by lighthouse A in the
    epoch at 5 ns. *)
Definition example_bundle : BundleMap N :=
  let both := [(0%N, [0.1]); (1%N, [0.2])] in
  [("T"%string,
    [("A"%string,
      [(5%N, [(0%N, both); (1%N, both); (2%N, both); (3%N, both)])])])].

(** A lighthouse with phase 1 on axis 0, tilt 1 on axis 1, and every other
    correction parameter 0. *)
Definition lighthouse_phase0_tilt1 : Lighthouse :=
  {| vTl := [0; 0; 0; 0; 0; 0];
     params := fun a p =>
       match a, p with
       | O, PARAM_PHASE => 1
       | S O, PARAM_TILT => 1
       | _, _ => 0
       end;
     lh_ready := true |}.

End Calibration.

(** ** deepdive_data_light.c *)

Module DataLight.
Section Lightcap.
(** [deepdive.h] is not among the sources: the two array bounds it
    defines are parameters. *)
Variable MAX_NUM_SENSORS : Z.
Variable MAX_NUM_LIGHTHOUSES : nat.

(** [lcd->per_sweep]: the fields the sources name. *)
Record per_sweep_data := {
  recent_sync_time : Z;
  activeLighthouse : Z;
  activeSweepStartTime : Z;
  activeAcode : Z;
  lh_start_time : list Z;
  lh_max_pulse_length : list Z;
  lh_acode : list Z;
  current_lh : Z
}.

(** [lcd->sweep]: two arrays of [MAX_NUM_SENSORS] elements
    ([handle_measurements] reads both at every [i < MAX_NUM_SENSORS]). *)
Record sweep_data := {
  sweep_len : list Z;
  sweep_time : list Z
}.

Record lightcap_data := {
  per_sweep : per_sweep_data;
  sweep : sweep_data
}.

(** What a call leaves behind: the new lightcap data, or an access
    outside an array at the given index. *)
Inductive outcome :=
| Done (lcd : lightcap_data)
| OutOfBounds (index : Z).

(** The body of the loop over lighthouses in [handle_sweep]. *)
Definition select_active (ps : per_sweep_data) (i : nat) : per_sweep_data :=
  let acode := nth i (lh_acode ps) 0%Z in
  if ((0 <=? acode) && (Z.land (Z.shiftr acode 2) 1 =? 0))%Z then
    {| recent_sync_time := recent_sync_time ps;
       activeLighthouse := Z.of_nat i;
       activeSweepStartTime := nth i (lh_start_time ps) 0%Z;
       activeAcode := acode;
       lh_start_time := lh_start_time ps;
       lh_max_pulse_length := lh_max_pulse_length ps;
       lh_acode := lh_acode ps;
       current_lh := current_lh ps |}
  else ps.

Definition reset_active (ps : per_sweep_data) : per_sweep_data :=
  {| recent_sync_time := recent_sync_time ps;
     activeLighthouse := (-1)%Z;
     activeSweepStartTime := 0%Z;
     activeAcode := 0%Z;
     lh_start_time := lh_start_time ps;
     lh_max_pulse_length := lh_max_pulse_length ps;
     lh_acode := lh_acode ps;
     current_lh := current_lh ps |}.

(** [handle_sweep] *)
Definition handle_sweep (lcd : lightcap_data) (timecode sensor length : Z)
  : outcome :=
  let ps := fold_left select_active (seq 0 MAX_NUM_LIGHTHOUSES)
              (reset_active (per_sweep lcd)) in
  if (activeLighthouse ps <? 0)%Z then
    Done {| per_sweep := ps; sweep := sweep lcd |}
  else
    match nth_error (sweep_len (sweep lcd)) (Z.to_nat sensor) with
    | None => OutOfBounds sensor
    | Some len =>
        if (len <? length)%Z then
          Done {| per_sweep := ps;
                  sweep := {| sweep_len :=
                                upd (Z.to_nat sensor) length (sweep_len (sweep lcd));
                              sweep_time :=
                                upd (Z.to_nat sensor) timecode (sweep_time (sweep lcd)) |} |}
        else Done {| per_sweep := ps; sweep := sweep lcd |}
    end.

(** [handle_sync] and what it calls never index by [sensor]; it is left to
    the caller. The functions work on [tracker->lcd]. *)
Variable handle_sync : lightcap_data -> Z -> Z -> Z -> outcome.

(** [deepdive_data_light]; [sensor] and [length] are [uint16_t]. *)
Definition deepdive_data_light (lcd : lightcap_data)
    (timecode sensor length : Z) : outcome :=
  if (sensor >? MAX_NUM_SENSORS)%Z then Done lcd
  else if (length >? 6750)%Z then Done lcd
  else if (length >? 2750)%Z then handle_sync lcd timecode sensor length
  else handle_sweep lcd timecode sensor length.

(** The entry guard alone. *)
Definition accepted (sensor length : Z) : bool :=
  negb (sensor >? MAX_NUM_SENSORS)%Z && negb (length >? 6750)%Z.

End Lightcap.

(** A tracker between sweeps with lighthouse 0 active on axis 0, for a
    header that sets [MAX_NUM_SENSORS] to 32 and [MAX_NUM_LIGHTHOUSES] to 2. *)
Definition idle_lcd : lightcap_data :=
  {| per_sweep :=
       {| recent_sync_time := 0; activeLighthouse := -1;
          activeSweepStartTime := 0; activeAcode := 0;
          lh_start_time := [1000; 0]; lh_max_pulse_length := [3000; 0];
          lh_acode := [0; -1]; current_lh := 0 |}%Z;
     sweep := {| sweep_len := repeat 0%Z 32; sweep_time := repeat 0%Z 32 |} |}.

End DataLight.

(** ** deepdive_data_light.c: integers, arrays and what a call can end in *)

Module Machine.
Local Open Scope Z_scope.

(** Conversions to the fixed-width types, two's complement. *)
Definition uint8_t (x : Z) : Z := x mod 2 ^ 8.
Definition uint16_t (x : Z) : Z := x mod 2 ^ 16.
Definition uint32_t (x : Z) : Z := x mod 2 ^ 32.
Definition int8_t (x : Z) : Z := (x + 2 ^ 7) mod 2 ^ 8 - 2 ^ 7.
Definition int32_t (x : Z) : Z := (x + 2 ^ 31) mod 2 ^ 32 - 2 ^ 31.

(** The arrays a call indexes. *)
Inductive Array :=
| sweep_arrays        (* lcd->sweep.sweep_len, sweep_time *)
| per_sweep_arrays    (* lcd->per_sweep.lh_start_time, lh_max_pulse_length, lh_acode *)
| ootx_array          (* tracker->ootx *)
| data_array          (* ctx->data *)
| lighthouses_array.  (* tracker->driver->lighthouses *)

(** A call returns, or accesses an array outside its elements, or never
    leaves a loop. *)
Inductive M (A : Type) : Type :=
| Returns (a : A)
| Outside (array : Array) (index : Z)
| Loops.
Arguments Outside {A} array index.
Arguments Loops {A}.

Definition bind {A B : Type} (m : M A) (k : A -> M B) : M B :=
  match m with
  | Returns a => k a
  | Outside array index => Outside array index
  | Loops => Loops
  end.

(** [l[i]] *)
Definition load {A : Type} (array : Array) (l : list A) (i : Z) : M A :=
  if i <? 0 then Outside array i
  else match nth_error l (Z.to_nat i) with
       | Some x => Returns x
       | None => Outside array i
       end.

(** [l[i] = x] *)
Definition store {A : Type} (array : Array) (l : list A) (i : Z) (x : A)
  : M (list A) :=
  if i <? 0 then Outside array i
  else if (Z.to_nat i <? List.length l)%nat then Returns (upd (Z.to_nat i) x l)
  else Outside array i.

(** [memset(l, 0, sizeof l)] *)
Definition memset (l : list Z) : list Z := map (fun _ => 0) l.

(** The loop [for (i = 0; i < n; ++i) l[i] = x]. *)
Fixpoint fill (array : Array) (l : list Z) (x : Z) (i : Z) (n : nat) : M (list Z) :=
  match n with
  | O => Returns l
  | S n' => bind (store array l i x) (fun l' => fill array l' x (i + 1) n')
  end.

(** A little-endian host reads an integer at a byte pointer. A byte past
    the end of [data] reads as 0: callers pass the buffer of a context,
    whose size is a constant of a header that is not among the sources. *)
Definition uint8_at (data : list Z) (off : nat) : Z := nth off data 0.
Definition uint16_at (data : list Z) (off : nat) : Z :=
  uint8_at data off + 2 ^ 8 * uint8_at data (off + 1).
Definition uint32_at (data : list Z) (off : nat) : Z :=
  uint16_at data off + 2 ^ 16 * uint16_at data (off + 2).

End Machine.

Declare Scope M_scope.
Delimit Scope M_scope with M.
Notation "x <- m ;; k" := (Machine.bind m (fun x => k))
  (at level 61, m at next level, right associativity) : M_scope.

(** ** deepdive_data_light.c: the OOTX decoder of one lighthouse *)

Module Ootx.
Import Machine.
Local Open Scope Z_scope.
Local Open Scope M_scope.

(** *** [convert_float] *)

(** The loop of the denormalised branch, [x] a [uint16_t] and [e] a
    [uint8_t]; [None] is a loop still running after [fuel] rounds. *)
Fixpoint normalise (fuel : nat) (x e : Z) : option (Z * Z) :=
  if Z.land x 0x0400 =? 0 then
    match fuel with
    | O => None
    | S fuel' => normalise fuel' (uint16_t (Z.shiftl x 1)) (uint8_t (e + 1))
    end
  else Some (x, e).

(** [convert_float]: the result is the value of [fnum.i], the bits of the
    [float] returned. After sixteen shifts a [uint16_t] is zero and stays so:
    a loop that has not stopped by then never does. *)
Definition convert_float (data : list Z) : M Z :=
  let x := uint16_at data 0 in
  let i := uint32_t (Z.shiftl (Z.land x 0x8000) 16) in
  if Z.land x 0x7FFF =? 0 then Returns i
  else if Z.land x 0x7c00 =? 0 then
    match normalise 16 (uint16_t (Z.shiftl (Z.land x 0x3ff) 1)) 0 with
    | None => Loops
    | Some (x, e) =>
        let i := Z.lor i (uint32_t (Z.shiftl (uint32_t (112 - e)) 23)) in
        let i := Z.lor i (uint32_t (Z.shiftl (uint32_t (Z.land x 0x3ff)) 13)) in
        Returns i
    end
  else if Z.land x 0x7c00 =? 0x7c00 then
    Returns (Z.lor i (Z.lor 0x7f800000
                        (uint32_t (Z.shiftl (uint32_t (Z.land x 0x3ff)) 13))))
  else
    Returns (Z.lor i (uint32_t (Z.shiftl (uint32_t (Z.land x 0x7fff) + 0x1c000) 13))).

(** *** [swaps] and [swapl] *)

Definition swaps (val : Z) : Z :=
  Z.lor (Z.land (Z.shiftl val 8) 0xff00)
        (Z.land (Z.shiftr val 8) 0x00ff).

Definition swapl (val : Z) : Z :=
  Z.lor (Z.lor (Z.lor (Z.land (Z.shiftr val 24) 0x000000ff)
                      (Z.land (Z.shiftl val 8) 0x00ff0000))
               (Z.land (Z.shiftr val 8) 0x0000ff00))
        (Z.land (Z.shiftl val 24) 0xff000000).

(** *** The decoder context

    [OOTX] is declared in [deepdive.h], which is not among the sources: the
    fields are the ones [ootx_feed] and [decode_packet] name. The counters
    are not wrapped: the properties below keep [syn] within 16, [pos]
    within the buffer and [preamble] below 256. *)

Inductive State := PREAMBLE | LENGTH | PAYLOAD | CHECKSUM.

Record OOTX := {
  state : State;
  data : list Z;               (* uint8_t data[MAX_PACKET_LEN] *)
  length : Z;
  pad : Z;
  pos : Z;
  syn : Z;
  crc : Z;
  preamble : Z;
  lighthouse : option nat      (* the element of driver->lighthouses pointed at *)
}.

Definition set_state (x : State) (c : OOTX) : OOTX :=
  {| state := x; data := data c; length := length c; pad := pad c; pos := pos c;
     syn := syn c; crc := crc c; preamble := preamble c; lighthouse := lighthouse c |}.
Definition set_data (x : list Z) (c : OOTX) : OOTX :=
  {| state := state c; data := x; length := length c; pad := pad c; pos := pos c;
     syn := syn c; crc := crc c; preamble := preamble c; lighthouse := lighthouse c |}.
Definition set_length (x : Z) (c : OOTX) : OOTX :=
  {| state := state c; data := data c; length := x; pad := pad c; pos := pos c;
     syn := syn c; crc := crc c; preamble := preamble c; lighthouse := lighthouse c |}.
Definition set_pad (x : Z) (c : OOTX) : OOTX :=
  {| state := state c; data := data c; length := length c; pad := x; pos := pos c;
     syn := syn c; crc := crc c; preamble := preamble c; lighthouse := lighthouse c |}.
Definition set_pos (x : Z) (c : OOTX) : OOTX :=
  {| state := state c; data := data c; length := length c; pad := pad c; pos := x;
     syn := syn c; crc := crc c; preamble := preamble c; lighthouse := lighthouse c |}.
Definition set_syn (x : Z) (c : OOTX) : OOTX :=
  {| state := state c; data := data c; length := length c; pad := pad c; pos := pos c;
     syn := x; crc := crc c; preamble := preamble c; lighthouse := lighthouse c |}.
Definition set_crc (x : Z) (c : OOTX) : OOTX :=
  {| state := state c; data := data c; length := length c; pad := pad c; pos := pos c;
     syn := syn c; crc := x; preamble := preamble c; lighthouse := lighthouse c |}.
Definition set_preamble (x : Z) (c : OOTX) : OOTX :=
  {| state := state c; data := data c; length := length c; pad := pad c; pos := pos c;
     syn := syn c; crc := crc c; preamble := x; lighthouse := lighthouse c |}.
Definition set_lighthouse (x : option nat) (c : OOTX) : OOTX :=
  {| state := state c; data := data c; length := length c; pad := pad c; pos := pos c;
     syn := syn c; crc := crc c; preamble := preamble c; lighthouse := x |}.

Section Decoder.
(** Constants of [deepdive.h]. *)
Variable PREAMBLE_LENGTH : Z.
Variable MAX_PACKET_LEN : nat.
(** zlib: [crc32 buf] is [crc32(crc32(0L, Z_NULL, 0), buf, len)] for the
    [len] bytes [buf]. *)
Variable crc32 : list Z -> Z.

(** The state machine of [ootx_feed] on the context
    [ctx = &tracker->ootx[lh]]: everything but the call of [decode_packet],
    in place of which the buffer it is to be called with is returned. The
    function itself is [Tracking.ootx_feed], which makes the call.
    [decode_packet] runs before the context returns to [PREAMBLE]; it reads
    the context's [data] and writes its [lighthouse], neither of which the
    return to [PREAMBLE] touches. *)
Definition feed (ctx : OOTX) (bit : bool) : M (OOTX * option (list Z)) :=
  if bit && (PREAMBLE_LENGTH <=? preamble ctx) then
    let ctx := set_state LENGTH ctx in
    let ctx := set_length 0 ctx in
    let ctx := set_pos 0 ctx in
    let ctx := set_syn 0 ctx in
    let ctx := set_preamble 0 ctx in
    Returns (ctx, None)
  else
    let ctx := set_preamble (if bit then 0 else preamble ctx + 1) ctx in
    match state ctx with
    | PREAMBLE => Returns (ctx, None)
    | LENGTH =>
        if syn ctx =? 16 then
          let ctx := set_length (swaps (length ctx)) ctx in
          let ctx := set_pad (Z.rem (length ctx) 2) ctx in
          let ctx := set_state PREAMBLE ctx in
          if length ctx + pad ctx <=? Z.of_nat MAX_PACKET_LEN then
            let ctx := set_state PAYLOAD ctx in
            let ctx := set_pos 0 (set_syn 0 ctx) in
            let ctx := set_data (memset (data ctx)) ctx in
            Returns (ctx, None)
          else Returns (ctx, None)
        else
          let ctx := set_length
                       (Z.lor (length ctx) (Z.shiftl (Z.b2z bit) (15 - syn ctx))) ctx in
          let ctx := set_syn (syn ctx + 1) ctx in
          Returns (ctx, None)
    | PAYLOAD =>
        let at_byte := (syn ctx =? 8) || (syn ctx =? 16) in
        let ctx := if at_byte then set_pos (pos ctx + 1) ctx else ctx in
        if at_byte && (pos ctx =? length ctx + pad ctx) then
          let ctx := set_state CHECKSUM ctx in
          let ctx := set_pos 0 (set_syn 0 ctx) in
          let ctx := set_crc 0 ctx in
          Returns (ctx, None)
        else if syn ctx =? 16 then
          Returns (set_syn 0 ctx, None)
        else
          byte <- load data_array (data ctx) (pos ctx) ;;
          d <- store data_array (data ctx) (pos ctx)
                 (Z.lor byte (Z.shiftl (Z.b2z bit) (7 - Z.rem (syn ctx) 8))) ;;
          let ctx := set_data d ctx in
          let ctx := set_syn (syn ctx + 1) ctx in
          Returns (ctx, None)
    | CHECKSUM =>
        let at_byte := (syn ctx =? 8) || (syn ctx =? 16) in
        let ctx := if at_byte then set_pos (pos ctx + 1) ctx else ctx in
        if at_byte && (pos ctx =? 4) then
          let crc := crc32 (firstn (Z.to_nat (length ctx)) (data ctx)) in
          let packet := if crc =? swapl (Ootx.crc ctx) then Some (data ctx) else None in
          let ctx := set_state PREAMBLE ctx in
          let ctx := set_syn 0 (set_pos 0 ctx) in
          let ctx := set_preamble 0 ctx in
          let ctx := set_length 0 ctx in
          Returns (ctx, packet)
        else if syn ctx =? 16 then
          Returns (set_syn 0 ctx, None)
        else
          let ctx := set_crc
                       (Z.lor (Ootx.crc ctx)
                          (Z.shiftl (Z.b2z bit)
                             (31 - (pos ctx * 8 + Z.rem (syn ctx) 8)))) ctx in
          let ctx := set_syn (syn ctx + 1) ctx in
          Returns (ctx, None)
    end.

(** [ootx_feed] once for each bit of a stream, oldest first: the context
    at the end and the buffers [decode_packet] was called with. *)
Fixpoint feed_all (ctx : OOTX) (bits : list bool) : M (OOTX * list (list Z)) :=
  match bits with
  | [] => Returns (ctx, [])
  | bit :: bits' =>
      r <- feed ctx bit ;;
      r' <- feed_all (fst r) bits' ;;
      Returns (fst r', match snd r with
                       | Some packet => packet :: snd r'
                       | None => snd r'
                       end)
  end.

End Decoder.

(** *** Notions the properties below are stated with *)

(** An IEEE 754 binary interchange datum of [ebits] exponent bits and
    [mbits] fraction bits. *)
Inductive ieee :=
| Finite (negative : bool) (magnitude : Q)
| Infinity (negative : bool)
| NaN.

Definition ieee_of (ebits mbits : Z) (bits : Z) : ieee :=
  let fraction := bits mod 2 ^ mbits in
  let exponent := (bits / 2 ^ mbits) mod 2 ^ ebits in
  let negative := Z.odd (bits / 2 ^ (mbits + ebits)) in
  let bias := 2 ^ (ebits - 1) - 1 in
  if exponent =? 2 ^ ebits - 1 then
    if fraction =? 0 then Infinity negative else NaN
  else if exponent =? 0 then
    Finite negative (inject_Z fraction * Qpower 2 (1 - bias - mbits))
  else
    Finite negative (inject_Z (2 ^ mbits + fraction) * Qpower 2 (exponent - bias - mbits)).

Definition binary16 : Z -> ieee := ieee_of 5 10.
Definition binary32 : Z -> ieee := ieee_of 8 23.

(** The same datum: the same class and sign, and the same magnitude. *)
Definition same_datum (a b : ieee) : Prop :=
  match a, b with
  | Finite s q, Finite s' q' => s = s' /\ Qeq q q'
  | Infinity s, Infinity s' => s = s'
  | NaN, NaN => True
  | _, _ => False
  end.

(** The bytes of an integer, least significant first. *)
Definition byte (i : Z) (x : Z) : Z := (x / 2 ^ (8 * i)) mod 2 ^ 8.
Definition bytes16 (x : Z) : list Z := [byte 0 x; byte 1 x].
Definition bytes32 (x : Z) : list Z := [byte 0 x; byte 1 x; byte 2 x; byte 3 x].

(** The bits of a byte as the lighthouse sends them, most significant
    first. *)
Definition bits8 (b : Z) : list bool :=
  map (Z.testbit b) [7; 6; 5; 4; 3; 2; 1; 0].

(** A byte sequence on the wire: sixteen data bits, then a sync bit that is
    one. *)
Fixpoint words (bytes : list Z) : list bool :=
  match bytes with
  | a :: b :: rest => bits8 a ++ bits8 b ++ [true] ++ words rest
  | _ => []
  end.

(** Bits shifted into a register from bit [top] downwards. *)
Fixpoint shift_in (w top : Z) (bits : list bool) : Z :=
  match bits with
  | [] => w
  | b :: bits' => shift_in (Z.lor w (Z.shiftl (Z.b2z b) top)) (top - 1) bits'
  end.

(** The run of zeros that ends a stream entered with a run of [p]. *)
Fixpoint zeros (p : Z) (bits : list bool) : Z :=
  match bits with
  | [] => p
  | b :: bits' => zeros (if b then 0 else p + 1) bits'
  end.

(** A frame after its preamble: the payload length, the payload padded to
    an even number of bytes, and a checksum, each least significant byte
    first. *)
Definition padded (payload : list Z) (padding : Z) : list Z :=
  if Nat.even (List.length payload) then payload else payload ++ [padding].
Definition frame (payload : list Z) (padding : Z) (checksum : Z) : list bool :=
  words (bytes16 (Z.of_nat (List.length payload))
         ++ padded payload padding ++ bytes32 checksum).

(** The buffer of [MAX_PACKET_LEN] bytes once the padded payload is stored
    at its start. *)
Definition stored (MAX_PACKET_LEN : nat) (payload : list Z) (padding : Z) : list Z :=
  padded payload padding
  ++ repeat 0 (MAX_PACKET_LEN - List.length (padded payload padding)).

(** A context between two bits of a stream whose frames declare payloads
    that are not empty: the buffer has its [MAX_PACKET_LEN] bytes; [syn]
    counts the bits of a word of sixteen; in a payload, [pos] is at the
    first or the second byte of a word that lies within the declared,
    padded length, which fits the buffer; in a checksum, [pos] is at one of
    its four bytes, and the length to be summed fits the buffer. *)
Definition in_frame (MAX_PACKET_LEN : nat) (ctx : OOTX) : Prop :=
  List.length (data ctx) = MAX_PACKET_LEN /\
  match state ctx with
  | PREAMBLE => True
  | LENGTH => 0 <= syn ctx <= 16
  | PAYLOAD =>
      0 <= syn ctx <= 16 /\
      0 <= length ctx /\ 0 <= pad ctx /\
      Z.even (length ctx + pad ctx) = true /\
      exists word,
        0 <= word /\
        pos ctx = 2 * word + (if syn ctx <=? 8 then 0 else 1) /\
        2 * word + 2 <= length ctx + pad ctx <= Z.of_nat MAX_PACKET_LEN
  | CHECKSUM =>
      0 <= syn ctx <= 16 /\
      0 <= length ctx <= Z.of_nat MAX_PACKET_LEN /\
      exists word,
        0 <= word <= 1 /\
        pos ctx = 2 * word + (if syn ctx <=? 8 then 0 else 1)
  end.

(** [p] holds at every [x] from [x0] on, [n] values long. *)
Fixpoint all_from (p : Z -> bool) (n : nat) (x : Z) : bool :=
  match n with
  | O => true
  | S n' => p x && all_from p n' (x + 1)
  end.

Definition same_datum_b (a b : ieee) : bool :=
  match a, b with
  | Finite s q, Finite s' q' => Bool.eqb s s' && Qeq_bool q q'
  | Infinity s, Infinity s' => Bool.eqb s s'
  | NaN, NaN => true
  | _, _ => false
  end.

(** What [convert_float] is to do with the half-precision datum [x]. *)
Definition converted (x : Z) : bool :=
  match convert_float (bytes16 x) with
  | Returns bits =>
      (0 <=? bits) && (bits <? 2 ^ 32) && same_datum_b (binary16 x) (binary32 bits)
  | _ => false
  end.

(** *** Examples *)

(** A stand-in for zlib's [crc32]. *)
Definition sum32 (buf : list Z) : Z := uint32_t (fold_left Z.add buf 0).

(** A context that waits for a preamble, for a header that sets
    [MAX_PACKET_LEN] to 4. *)
Definition waiting : OOTX :=
  {| state := PREAMBLE; data := [0; 0; 0; 0]; length := 0; pad := 0; pos := 0;
     syn := 0; crc := 0; preamble := 0; lighthouse := None |}.

(** A context in the payload of a frame that declared three bytes, for the
    same header: the first byte is stored, and three bits of the second. *)
Definition mid_payload : OOTX :=
  {| state := PAYLOAD; data := [0x12; 0x20; 0; 0]; length := 3; pad := 1; pos := 1;
     syn := 11; crc := 0; preamble := 0; lighthouse := None |}.

End Ootx.

(** ** deepdive_data_light.c: a tracker *)

Module Tracking.
Import Machine Ootx DataLight.
Local Open Scope Z_scope.
Local Open Scope M_scope.

(** *** Data ([deepdive.h] is not among the sources: the fields are the
    ones the functions name) *)

(** [lh->motors[i]]; a [float] is held as its bits. *)
Record Motor := {
  phase : Z;
  tilt : Z;
  gibphase : Z;
  gibmag : Z;
  curve : Z
}.

(** [struct Lighthouse] *)
Record Lighthouse := {
  serial : string;
  fw_version : Z;
  motors : Motor * Motor;
  sys_unlock_count : Z;
  hw_version : Z;
  accel : Z * Z * Z;
  mode_current : Z;
  sys_faults : Z;
  timestamp : Z
}.

Inductive Axis := MOTOR_AXIS0 | MOTOR_AXIS1.

(** What leaves the driver: the lines printed and the callbacks called.
    A lighthouse pointer is the index of the element of
    [driver->lighthouses] pointed at. *)
Inductive Call :=
| printf (line : string)
| lighthouse_fn (lh : nat)
| lig_fn (lh : nat) (motor : Axis) (st : Z) (num_sensors : Z)
         (sensors sweeptimes angles lengths : list Z).

(** [struct Driver]; a callback is set or [NULL]. *)
Record Driver := {
  lighthouses : list Lighthouse;
  has_lighthouse_fn : bool;
  has_lig_fn : bool
}.

(** [struct Tracker], with the driver it points at and the calls made so
    far, latest first. [acode_offset] is [lcd->global.acode_offset]. *)
Record Tracker := {
  lcd : lightcap_data;
  acode_offset : R;
  ootx : list OOTX;
  driver : Driver;
  calls : list Call
}.

Definition set_lcd (x : lightcap_data) (t : Tracker) : Tracker :=
  {| lcd := x; acode_offset := acode_offset t; ootx := ootx t;
     driver := driver t; calls := calls t |}.
Definition set_acode_offset (x : R) (t : Tracker) : Tracker :=
  {| lcd := lcd t; acode_offset := x; ootx := ootx t;
     driver := driver t; calls := calls t |}.
Definition set_ootx (x : list OOTX) (t : Tracker) : Tracker :=
  {| lcd := lcd t; acode_offset := acode_offset t; ootx := x;
     driver := driver t; calls := calls t |}.
Definition set_lighthouses (x : list Lighthouse) (t : Tracker) : Tracker :=
  {| lcd := lcd t; acode_offset := acode_offset t; ootx := ootx t;
     driver := {| lighthouses := x;
                  has_lighthouse_fn := has_lighthouse_fn (driver t);
                  has_lig_fn := has_lig_fn (driver t) |};
     calls := calls t |}.
Definition call (c : Call) (t : Tracker) : Tracker :=
  {| lcd := lcd t; acode_offset := acode_offset t; ootx := ootx t;
     driver := driver t; calls := c :: calls t |}.

Definition set_per_sweep (x : per_sweep_data) (l : lightcap_data) : lightcap_data :=
  {| per_sweep := x; sweep := sweep l |}.

Section Tracker.
(** Constants of [deepdive.h]. *)
Variable MAX_NUM_SENSORS : Z.
Variable MAX_NUM_LIGHTHOUSES : nat.
Variable PREAMBLE_LENGTH : Z.
Variable MAX_PACKET_LEN : nat.
Variable crc32 : list Z -> Z.

(** *** [decode_packet] *)

(** [sprintf(serial, "%u", n)]; the buffer is taken to be long enough. *)
Definition sprintf_u (n : Z) : string :=
  NilZero.string_of_uint (N.to_uint (Z.to_N n)).

(** The search loop from [idx] on, over the elements from [idx] on: the
    values of [idx] and [available] after it. Both are [uint8_t] in the
    source and are counted here without wrap-around, which is the source's
    behaviour as long as [MAX_NUM_LIGHTHOUSES] is below 256. *)
Fixpoint search (serial : string) (ls : list Lighthouse) (idx available : nat)
  : nat * nat :=
  match ls with
  | [] => (idx, available)
  | l :: ls' =>
      let available :=
        if (timestamp l =? 0) && (available =? MAX_NUM_LIGHTHOUSES)%nat
        then idx else available in
      if String.eqb (Tracking.serial l) serial then (idx, available)
      else search serial ls' (S idx) available
  end.

(** [decode_packet]; [id] is a [uint8_t]. *)
Definition decode_packet (t : Tracker) (id : Z) (data : list Z) (tc : Z)
  : M Tracker :=
  let serial := sprintf_u (uint32_at data 0x02) in
  let (idx, available) :=
    search serial (lighthouses (driver t)) 0 MAX_NUM_LIGHTHOUSES in
  if (MAX_NUM_LIGHTHOUSES <=? idx)%nat && (available =? MAX_NUM_LIGHTHOUSES)%nat then
    let t := call (printf "We appear to have seen more than MAX_NUM_LIGHTHOUSES") t in
    let t := call (printf "We are therefore going to disregard this OOTX data :(") t in
    Returns t
  else
    let idx := if (MAX_NUM_LIGHTHOUSES <=? idx)%nat then available else idx in
    phase0 <- convert_float (skipn 0x06 data) ;;
    phase1 <- convert_float (skipn 0x08 data) ;;
    tilt0 <- convert_float (skipn 0x0a data) ;;
    tilt1 <- convert_float (skipn 0x0c data) ;;
    curve0 <- convert_float (skipn 0x10 data) ;;
    curve1 <- convert_float (skipn 0x12 data) ;;
    gibphase0 <- convert_float (skipn 0x17 data) ;;
    gibphase1 <- convert_float (skipn 0x19 data) ;;
    gibmag0 <- convert_float (skipn 0x1b data) ;;
    gibmag1 <- convert_float (skipn 0x1d data) ;;
    let lh :=
      {| serial := serial;
         fw_version := uint16_at data 0x00;
         motors := ({| phase := phase0; tilt := tilt0; gibphase := gibphase0;
                       gibmag := gibmag0; curve := curve0 |},
                    {| phase := phase1; tilt := tilt1; gibphase := gibphase1;
                       gibmag := gibmag1; curve := curve1 |});
         sys_unlock_count := uint8_at data 0x0e;
         hw_version := uint8_at data 0x0f;
         accel := (int8_t (uint8_at data 0x14), int8_t (uint8_at data 0x15),
                   int8_t (uint8_at data 0x16));
         mode_current := int8_t (uint8_at data 0x1f);
         sys_faults := int8_t (uint8_at data 0x20);
         timestamp := tc |} in
    ls <- store lighthouses_array (lighthouses (driver t)) (Z.of_nat idx) lh ;;
    let t := set_lighthouses ls t in
    ctx <- load ootx_array (ootx t) id ;;
    o <- store ootx_array (ootx t) id (set_lighthouse (Some idx) ctx) ;;
    let t := set_ootx o t in
    if has_lighthouse_fn (driver t) then Returns (call (lighthouse_fn idx) t)
    else Returns t.

(** *** [ootx_feed]; [lh] is a [uint8_t]. The context is stored before
    [decode_packet] is called, which then sets its [lighthouse]. *)
Definition ootx_feed (t : Tracker) (lh : Z) (bit : bool) (tc : Z) : M Tracker :=
  if Z.of_nat MAX_NUM_LIGHTHOUSES <=? lh then Returns t
  else
    ctx <- load ootx_array (ootx t) lh ;;
    r <- feed PREAMBLE_LENGTH MAX_PACKET_LEN crc32 ctx bit ;;
    o <- store ootx_array (ootx t) lh (fst r) ;;
    let t := set_ootx o t in
    match snd r with
    | Some data => decode_packet t lh data tc
    | None => Returns t
    end.

(** [ootx_feed] for lighthouse [lh] once for each bit of a stream, oldest
    first, each with the timecode it is fed with. *)
Fixpoint ootx_feeds (t : Tracker) (lh : Z) (stream : list (bool * Z)) : M Tracker :=
  match stream with
  | [] => Returns t
  | (bit, tc) :: stream' =>
      t <- ootx_feed t lh bit tc ;;
      ootx_feeds t lh stream'
  end.

(** *** [handle_acode]: the tracker left behind and the value returned *)
Definition handle_acode (t : Tracker) (length : Z) : Tracker * Z :=
  let old_offset := acode_offset t in
  let new_offset := IZR (Z.rem (length + 250) 500 - 250) in
  (set_acode_offset (old_offset * 0.9 + new_offset * 0.1)%R t,
   uint8_t (Z.quot (length - 2750) 500)).

(** *** [handle_measurements]

    [longest_pulse], [timestamp_of_longest_pulse], [allZero] and [counts]
    are written and never read for a result; [counts] is indexed by [i]
    below [MAX_NUM_SENSORS] and by [activeAcode & 1]. The arrays handed to
    [lig_fn] are given by their first [num_sensors] elements; [num_sensors]
    is a [uint16_t] counted here without wrap-around, which is the source's
    behaviour as long as [MAX_NUM_SENSORS] is below 65536. *)
Definition hit (l : lightcap_data) : list nat :=
  filter (fun i => negb (nth i (sweep_len (sweep l)) 0 =? 0))
         (seq 0 (Z.to_nat MAX_NUM_SENSORS)).

Definition handle_measurements (t : Tracker) : M Tracker :=
  let l := lcd t in
  let st := uint32_t (activeSweepStartTime (per_sweep l)) in
  let lh := uint8_t (activeLighthouse (per_sweep l)) in
  let ax := uint8_t (Z.land (activeAcode (per_sweep l)) 1) in
  let motor := if ax =? 0 then MOTOR_AXIS0 else MOTOR_AXIS1 in
  let sensors := map (fun i => uint16_t (Z.of_nat i)) (hit l) in
  let sweeptimes := map (fun i => uint32_t (nth i (sweep_time (sweep l)) 0)) (hit l) in
  let angles :=
    map (fun i => uint32_t (nth i (sweep_time (sweep l)) 0
                            - activeSweepStartTime (per_sweep l)
                            + Z.quot (nth i (sweep_len (sweep l)) 0) 2)) (hit l) in
  let lengths := map (fun i => uint16_t (nth i (sweep_len (sweep l)) 0)) (hit l) in
  let num_sensors := Z.of_nat (List.length (hit l)) in
  t <- (if 0 <? num_sensors then
          ctx <- load ootx_array (ootx t) lh ;;
          match lighthouse ctx with
          | Some p =>
              if has_lig_fn (driver t) then
                Returns (call (lig_fn p motor st num_sensors
                                 sensors sweeptimes angles lengths) t)
              else Returns t
          | None => Returns t
          end
        else Returns t) ;;
  Returns (set_lcd {| per_sweep := per_sweep l;
                      sweep := {| sweep_len := memset (sweep_len (sweep l));
                                  sweep_time := memset (sweep_time (sweep l)) |} |} t).

(** *** [handle_sync]; [timecode] is a [uint32_t], [length] a [uint16_t].
    A time stored from an unsigned sum is held as the [uint32_t]. *)
Definition handle_sync (t : Tracker) (timecode sensor length : Z) : M Tracker :=
  let (t, acode) := handle_acode t length in
  t <- handle_measurements t ;;
  let ps := per_sweep (lcd t) in
  let time_since_last_sync := int32_t (timecode - recent_sync_time ps) in
  ps <- (if time_since_last_sync <? 2400 then
           let ps := {| recent_sync_time := timecode;
                        activeLighthouse := activeLighthouse ps;
                        activeSweepStartTime := activeSweepStartTime ps;
                        activeAcode := activeAcode ps;
                        lh_start_time := lh_start_time ps;
                        lh_max_pulse_length := lh_max_pulse_length ps;
                        lh_acode := lh_acode ps;
                        current_lh := current_lh ps |} in
           longest <- load per_sweep_arrays (lh_max_pulse_length ps) (current_lh ps) ;;
           if longest <? length then
             lengths <- store per_sweep_arrays (lh_max_pulse_length ps) (current_lh ps)
                          length ;;
             times <- store per_sweep_arrays (lh_start_time ps) (current_lh ps)
                        (uint32_t (timecode + length)) ;;
             acodes <- store per_sweep_arrays (lh_acode ps) (current_lh ps) acode ;;
             Returns {| recent_sync_time := recent_sync_time ps;
                        activeLighthouse := activeLighthouse ps;
                        activeSweepStartTime := activeSweepStartTime ps;
                        activeAcode := activeAcode ps;
                        lh_start_time := times;
                        lh_max_pulse_length := lengths;
                        lh_acode := acodes;
                        current_lh := current_lh ps |}
           else Returns ps
         else if time_since_last_sync <? 24000 then
           times <- store per_sweep_arrays (lh_start_time ps) 1 timecode ;;
           lengths <- store per_sweep_arrays (lh_max_pulse_length ps) 1
                        (length + length) ;;
           acodes <- store per_sweep_arrays (lh_acode ps) 1 acode ;;
           Returns {| recent_sync_time := timecode;
                      activeLighthouse := -1;
                      activeSweepStartTime := activeSweepStartTime ps;
                      activeAcode := activeAcode ps;
                      lh_start_time := times;
                      lh_max_pulse_length := lengths;
                      lh_acode := acodes;
                      current_lh := 1 |}
         else if 370000 <? time_since_last_sync then
           acodes <- fill per_sweep_arrays (memset (lh_acode ps)) (-1) 0
                       MAX_NUM_LIGHTHOUSES ;;
           times <- store per_sweep_arrays (memset (lh_start_time ps)) 0
                      (uint32_t (timecode + length)) ;;
           lengths <- store per_sweep_arrays (memset (lh_max_pulse_length ps)) 0
                        length ;;
           acodes <- store per_sweep_arrays acodes 0 acode ;;
           Returns {| recent_sync_time := timecode;
                      activeLighthouse := -1;
                      activeSweepStartTime := 0;
                      activeAcode := 0;
                      lh_start_time := times;
                      lh_max_pulse_length := lengths;
                      lh_acode := acodes;
                      current_lh := 0 |}
         else Returns ps) ;;
  let t := set_lcd (set_per_sweep ps (lcd t)) t in
  if current_lh ps <? Z.of_nat MAX_NUM_LIGHTHOUSES then
    ootx_feed t (uint8_t (current_lh ps)) (negb (Z.land acode 0x2 =? 0)) timecode
  else Returns t.

(** *** [deepdive_data_light] on the tracker; [handle_sweep] is the one of
    [DataLight]. *)
Definition deepdive_data_light (t : Tracker) (timecode sensor length : Z)
  : M Tracker :=
  if sensor >? MAX_NUM_SENSORS then Returns t
  else if length >? 6750 then Returns t
  else if length >? 2750 then handle_sync t timecode sensor length
  else
    match handle_sweep MAX_NUM_LIGHTHOUSES (lcd t) timecode sensor length with
    | Done l => Returns (set_lcd l t)
    | OutOfBounds index => Outside sweep_arrays index
    end.

(** The light data of a stream of reports [(timecode, sensor, length)],
    oldest first. *)
Fixpoint deepdive_data_lights (t : Tracker) (reports : list (Z * Z * Z))
  : M Tracker :=
  match reports with
  | [] => Returns t
  | (timecode, sensor, length) :: reports' =>
      t <- deepdive_data_light t timecode sensor length ;;
      deepdive_data_lights t reports'
  end.

End Tracker.

(** *** Notions the properties below are stated with *)

(** The index of the first element of [l] that satisfies [p]. *)
Fixpoint first_index {A : Type} (p : A -> bool) (l : list A) : option nat :=
  match l with
  | [] => None
  | x :: l' => if p x then Some O else option_map S (first_index p l')
  end.

(** The element of [driver->lighthouses] for a serial number: the first
    that bears it, or else the first without a timestamp. *)
Definition slot_for (serial : string) (ls : list Lighthouse) : option nat :=
  match first_index (fun l => String.eqb (Tracking.serial l) serial) ls with
  | Some i => Some i
  | None => first_index (fun l => timestamp l =? 0) ls
  end.

(** The lighthouse [handle_sweep] would select. *)
Definition selected (MAX_NUM_LIGHTHOUSES : nat) (ps : per_sweep_data) : Z :=
  activeLighthouse
    (fold_left select_active (seq 0 MAX_NUM_LIGHTHOUSES) (reset_active ps)).

(** A context whose buffer holds bytes and whose [syn] has counted up from
    zero. *)
Definition holds_bytes (ctx : OOTX) : Prop :=
  Forall (fun b => 0 <= b < 2 ^ 8) (data ctx) /\ 0 <= syn ctx.

(** A tracker between two reports: the arrays have the elements their
    bounds name; [current_lh] is 0 or 1; and as long as a sensor is marked
    as hit, [activeLighthouse] is the lighthouse [handle_sweep] selected
    for it, which does not change before the next sync pulse. *)
Definition consistent (MAX_NUM_SENSORS : Z) (MAX_NUM_LIGHTHOUSES : nat) (t : Tracker)
  : Prop :=
  List.length (sweep_len (sweep (lcd t))) = Z.to_nat MAX_NUM_SENSORS /\
  List.length (sweep_time (sweep (lcd t))) = Z.to_nat MAX_NUM_SENSORS /\
  List.length (lh_start_time (per_sweep (lcd t))) = MAX_NUM_LIGHTHOUSES /\
  List.length (lh_max_pulse_length (per_sweep (lcd t))) = MAX_NUM_LIGHTHOUSES /\
  List.length (lh_acode (per_sweep (lcd t))) = MAX_NUM_LIGHTHOUSES /\
  0 <= current_lh (per_sweep (lcd t)) <= 1 /\
  (hit MAX_NUM_SENSORS (lcd t) <> [] ->
   activeLighthouse (per_sweep (lcd t))
   = selected MAX_NUM_LIGHTHOUSES (per_sweep (lcd t)) /\
   0 <= selected MAX_NUM_LIGHTHOUSES (per_sweep (lcd t))) /\
  List.length (ootx t) = MAX_NUM_LIGHTHOUSES /\
  List.length (lighthouses (driver t)) = MAX_NUM_LIGHTHOUSES /\
  Forall holds_bytes (ootx t).

(** A report whose sensor index is not the one the entry guard lets through
    by mistake. *)
Definition indexes_a_sensor (MAX_NUM_SENSORS : Z) (report : Z * Z * Z) : Prop :=
  0 <= snd (fst report) /\ snd (fst report) <> MAX_NUM_SENSORS.

(** *** Examples *)

Definition blank : Lighthouse :=
  {| serial := EmptyString; fw_version := 0;
     motors := ({| phase := 0; tilt := 0; gibphase := 0; gibmag := 0; curve := 0 |},
                {| phase := 0; tilt := 0; gibphase := 0; gibmag := 0; curve := 0 |});
     sys_unlock_count := 0; hw_version := 0; accel := (0, 0, 0);
     mode_current := 0; sys_faults := 0; timestamp := 0 |}.

(** A tracker of 32 sensors that knows no lighthouse yet, for a header that
    sets [MAX_NUM_LIGHTHOUSES] to 2 and [MAX_PACKET_LEN] to 4. *)
Definition new_tracker : Tracker :=
  {| lcd := idle_lcd; acode_offset := 0; ootx := [waiting; waiting];
     driver := {| lighthouses := [blank; blank];
                  has_lighthouse_fn := true; has_lig_fn := true |};
     calls := [] |}.

(** A tracker that knows no lighthouse yet and waits for a preamble from
    both, for a header that sets [MAX_NUM_LIGHTHOUSES] to 2 and
    [MAX_PACKET_LEN] to 34. *)
Definition listening : OOTX :=
  {| state := PREAMBLE; data := repeat 0 34; length := 0; pad := 0; pos := 0;
     syn := 0; crc := 0; preamble := 0; lighthouse := None |}.

Definition listening_tracker : Tracker :=
  {| lcd := idle_lcd; acode_offset := 0; ootx := [listening; listening];
     driver := {| lighthouses := [blank; blank];
                  has_lighthouse_fn := true; has_lig_fn := true |};
     calls := [] |}.

(** The 33 bytes of a configuration packet of the lighthouse with serial
    number 42 and firmware version 1. *)
Definition packet_of_42 : list Z := [1; 0; 42; 0; 0; 0] ++ repeat 0 27.

(** [new_tracker] in a sweep of lighthouse 0 on axis 1 that started at
    1000: the OOTX of lighthouse 0 is decoded, and sensors 3 and 7 were
    hit, for 100 ticks at 5000 and for 81 ticks at 5200. *)
Definition swept_tracker : Tracker :=
  {| lcd :=
       {| per_sweep :=
            {| recent_sync_time := 0; activeLighthouse := 0;
               activeSweepStartTime := 1000; activeAcode := 1;
               lh_start_time := [1000; 0]; lh_max_pulse_length := [3000; 0];
               lh_acode := [1; -1]; current_lh := 0 |};
          sweep := {| sweep_len := upd 7 81 (upd 3 100 (repeat 0 32));
                      sweep_time := upd 7 5200 (upd 3 5000 (repeat 0 32)) |} |};
     acode_offset := 0;
     ootx := [set_lighthouse (Some 0%nat) waiting; waiting];
     driver := {| lighthouses := [blank; blank];
                  has_lighthouse_fn := true; has_lig_fn := true |};
     calls := [] |}.

End Tracking.
(** * Properties *)

(** ** Keys and maps *)

Lemma key_eqb_refl {K} `{Key K} (k : K) : key_eqb k k = true.
Proof. apply key_eqb_eq; reflexivity. Qed.

Lemma key_eqb_neq {K} `{Key K} (a b : K) : a <> b -> key_eqb a b = false.
Proof.
  intro Hne; destruct (key_eqb a b) eqn:E; [|reflexivity].
  apply key_eqb_eq in E; contradiction.
Qed.

Ltac key_cases k' k :=
  let E := fresh "E" in
  destruct (key_eqb k' k) eqn:E;
  [ apply key_eqb_eq in E; subst k'
  | assert (k' <> k) by (intro; subst k'; rewrite key_eqb_refl in E; discriminate) ].

Ltac split_finds :=
  repeat match goal with
         | |- context [match StdMap.find ?k ?m with _ => _ end] =>
             destruct (StdMap.find k m)
         end;
  reflexivity.

Module StdMapFacts.
Import StdMap.
Section Facts.
Context {K V : Type} `{Key K}.

Lemma find_update_same k f (m : list (K * V)) :
  find k (update k f m) = option_map f (find k m).
Proof.
  induction m as [|[k' v] m IH]; simpl; [reflexivity|].
  destruct (key_eqb k k') eqn:E; simpl; rewrite E; auto.
Qed.

Lemma find_update_other k k' f (m : list (K * V)) :
  k' <> k -> find k' (update k f m) = find k' m.
Proof.
  intro Hne; induction m as [|[k2 v] m IH]; simpl; [reflexivity|].
  destruct (key_eqb k k2) eqn:E; simpl.
  - apply key_eqb_eq in E; subst k2.
    rewrite (key_eqb_neq Hne); reflexivity.
  - destruct (key_eqb k' k2); auto.
Qed.

Lemma find_insert_new_same k v (m : list (K * V)) :
  find k m = None -> find k (insert_new k v m) = Some v.
Proof.
  induction m as [|[k' v'] m IH]; simpl; intro Hf.
  - rewrite key_eqb_refl; reflexivity.
  - destruct (key_eqb k k') eqn:E; [discriminate|].
    destruct (key_ltb k k'); simpl.
    + rewrite key_eqb_refl; reflexivity.
    + rewrite E; auto.
Qed.

Lemma find_insert_new_other k k' v (m : list (K * V)) :
  k' <> k -> find k' (insert_new k v m) = find k' m.
Proof.
  intro Hne; induction m as [|[k2 v2] m IH]; simpl.
  - rewrite (key_eqb_neq Hne); reflexivity.
  - destruct (key_ltb k k2); simpl.
    + rewrite (key_eqb_neq Hne); reflexivity.
    + destruct (key_eqb k' k2); auto.
Qed.

Lemma find_modify_same d k f (m : list (K * V)) :
  find k (modify d k f m) = Some (f (get d k m)).
Proof.
  unfold modify, get; destruct (find k m) eqn:E.
  - rewrite find_update_same, E; reflexivity.
  - apply find_insert_new_same; assumption.
Qed.

Lemma find_modify_other d k k' f (m : list (K * V)) :
  k' <> k -> find k' (modify d k f m) = find k' m.
Proof.
  intro Hne; unfold modify; destruct (find k m).
  - apply find_update_other; assumption.
  - apply find_insert_new_other; assumption.
Qed.

Lemma get_modify_same d k f (m : list (K * V)) :
  get d k (modify d k f m) = f (get d k m).
Proof. unfold get at 1; rewrite find_modify_same; reflexivity. Qed.

Lemma get_modify_other d k k' f (m : list (K * V)) :
  k' <> k -> get d k' (modify d k f m) = get d k' m.
Proof. intro Hne; unfold get; rewrite find_modify_other by assumption; reflexivity. Qed.

Lemma find_In k v (m : list (K * V)) : find k m = Some v -> In (k, v) m.
Proof.
  induction m as [|[k' v'] m IH]; simpl; [discriminate|].
  destruct (key_eqb k k') eqn:E.
  - apply key_eqb_eq in E; subst; intros [= ->]; auto.
  - auto.
Qed.

End Facts.
End StdMapFacts.

(** ** Rotations *)

Module CeresFacts.
Import Ceres.

Lemma quat_eq (a0 a1 a2 a3 b0 b1 b2 b3 : R) :
  a0 = b0 -> a1 = b1 -> a2 = b2 -> a3 = b3 ->
  (a0, a1, a2, a3) = (b0, b1, b2, b3).
Proof. intros; subst; reflexivity. Qed.

Lemma vec3_eq (a0 a1 a2 b0 b1 b2 : R) :
  a0 = b0 -> a1 = b1 -> a2 = b2 -> (a0, a1, a2) = (b0, b1, b2).
Proof. intros; subst; reflexivity. Qed.

Lemma SquaredNorm_product (z w : quat) :
  SquaredNorm (QuaternionProduct z w) = SquaredNorm z * SquaredNorm w.
Proof.
  destruct z as [[[z0 z1] z2] z3], w as [[[w0 w1] w2] w3]; simpl; ring.
Qed.

Lemma product_conjugate (q : quat) :
  QuaternionProduct q (Conjugate q) = (SquaredNorm q, 0, 0, 0).
Proof. destruct q as [[[q0 q1] q2] q3]; simpl; apply quat_eq; ring. Qed.

Lemma conjugate_product (q : quat) :
  QuaternionProduct (Conjugate q) q = (SquaredNorm q, 0, 0, 0).
Proof. destruct q as [[[q0 q1] q2] q3]; simpl; apply quat_eq; ring. Qed.

(** Every quaternion [AngleAxisToQuaternion] returns has norm one. *)
Lemma AngleAxisToQuaternion_unit (a : vec3) :
  SquaredNorm (AngleAxisToQuaternion a) = 1.
Proof.
  destruct a as [[a0 a1] a2]; unfold AngleAxisToQuaternion.
  set (t2 := a0 * a0 + a1 * a1 + a2 * a2).
  destruct (Rlt_dec 0 t2) as [Hpos|Hnpos]; cbv zeta; unfold SquaredNorm.
  - assert (Hs : sqrt t2 * sqrt t2 = t2) by (apply sqrt_sqrt; lra).
    assert (Hs0 : sqrt t2 <> 0).
    { intro E; rewrite E in Hs; lra. }
    pose proof (sin2_cos2 (sqrt t2 * 0.5)) as Hsc; unfold Rsqr in Hsc.
    set (s := sin (sqrt t2 * 0.5)) in *; set (c := cos (sqrt t2 * 0.5)) in *.
    replace (c * c + a0 * (s / sqrt t2) * (a0 * (s / sqrt t2))
             + a1 * (s / sqrt t2) * (a1 * (s / sqrt t2))
             + a2 * (s / sqrt t2) * (a2 * (s / sqrt t2)))
      with (c * c + t2 * (s * s) / (sqrt t2 * sqrt t2))
      by (unfold t2; field; assumption).
    rewrite Hs; replace (t2 * (s * s) / t2) with (s * s) by (field; lra); lra.
  - assert (H0 : a0 = 0) by (unfold t2 in Hnpos; nra).
    assert (H1 : a1 = 0) by (unfold t2 in Hnpos; nra).
    assert (H2 : a2 = 0) by (unfold t2 in Hnpos; nra).
    subst; ring.
Qed.

(** On unit quaternions, negating the vector part gives the inverse. *)
Lemma unit_inverse (q : quat) :
  SquaredNorm q = 1 -> QuaternionInverse q = Conjugate q.
Proof.
  destruct q as [[[q0 q1] q2] q3]; unfold QuaternionInverse, Conjugate.
  intros ->; apply quat_eq; field.
Qed.

End CeresFacts.

(** ** The calibration node *)

Module CalibrationFacts.
Import Ceres CeresFacts Calibration.

Section NodeFacts.
Context {Time : Type} {Time_Key : Key Time}.
Variable ext : External Time.

(** **** Facts about [Solve] *)

Lemma fold_emit_fields (es : list Event) (st : Node Time) :
  let st' := fold_left (fun st e => emit e st) es st in
  trackers_ st' = trackers_ st /\ lighthouses_ st' = lighthouses_ st /\
  measurements_ st' = measurements_ st /\ recording_ st' = recording_ st /\
  out_ st' = out_ st ++ es.
Proof.
  revert st; induction es as [|e es IH]; intro st; simpl.
  - rewrite app_nil_r; auto.
  - destruct (IH (emit e st)) as (Ht & Hl & Hm & Hr & Ho).
    rewrite Ht, Hl, Hm, Hr, Ho; simpl.
    rewrite <- app_assoc; auto.
Qed.

(** The residual blocks name slaves only: position 0, the master, is never
    a parameter block of the problem. *)
Lemma build_problem_slaves_only (poses : PoseMap Time) trackers lighthouses rb :
  In rb (snd (build_problem poses trackers lighthouses)) ->
  (1 <= rb_transform rb <= length lighthouses - 1)%nat.
Proof.
  destruct lighthouses as [|[lm master] slaves]; simpl; [tauto|].
  rewrite in_flat_map; intros [[i [ls lh]] [Hin Hrb]].
  apply in_combine_l in Hin; apply in_seq in Hin.
  unfold residual_blocks in Hrb; simpl in Hrb.
  apply in_flat_map in Hrb; destruct Hrb as [tt [_ Hrb]].
  apply in_flat_map in Hrb; destruct Hrb as [pt [_ Hrb]].
  destruct (StdMap.find ls (snd pt)); [|contradiction].
  destruct (StdMap.find lm (snd pt)); [|contradiction].
  destruct Hrb as [<-|[]]; simpl; lia.
Qed.

Lemma master_not_in_problem (poses : PoseMap Time) trackers lighthouses :
  in_problem (snd (build_problem poses trackers lighthouses)) 0 = false.
Proof.
  unfold in_problem; destruct (existsb _ _) eqn:E; [|reflexivity].
  apply existsb_exists in E; destruct E as [rb [Hin Heq]].
  apply build_problem_slaves_only in Hin.
  apply Nat.eqb_eq in Heq; lia.
Qed.

Lemma master_reset_vTl (lh : Lighthouse) :
  vTl (master_reset lh) = upd 0 0 (vTl lh).
Proof.
  unfold master_reset; simpl.
  destruct (vTl lh) as [|x v]; reflexivity.
Qed.

Lemma Solve_nonempty cfg st m ms :
  measurements_ st = m :: ms ->
  fst (Solve ext cfg st) = true /\
  lighthouses_ (snd (Solve ext cfg st)) = lighthouses_after_Solve ext cfg st /\
  measurements_ (snd (Solve ext cfg st)) = measurements_ st /\
  recording_ (snd (Solve ext cfg st)) = recording_ st /\
  exists es, out_ (snd (Solve ext cfg st))
             = out_ st ++ ROS_INFO "Bundling measurements into larger discrete time units." :: es.
Proof.
  intro E; unfold Solve, lighthouses_after_Solve; rewrite E; cbn zeta.
  cbn [measurements_ emit trackers_ lighthouses_ set_trackers set_lighthouses].
  rewrite E.
  destruct (bootstrap ext _ _ _ _) as [trackers [poses count]].
  destruct (build_problem _ _ _) as [lighthouses problem].
  destruct (ceres_Solve ext _ _) as [usable solved].
  match goal with
  | |- context [fold_left ?f ?es ?s] =>
      generalize (fold_emit_fields es s); cbv zeta;
      intros (Ht & Hl & Hm & Hr & Ho)
  end.
  destruct usable, (visualize_ cfg); cbn -[fold_left publish_paths] in *;
    repeat split; auto; try congruence;
    try (rewrite Ho; cbn; repeat rewrite <- app_assoc; cbn; eexists; reflexivity);
    try (repeat rewrite <- app_assoc; cbn; eexists; reflexivity).
Qed.

Lemma Solve_empty cfg st :
  measurements_ st = [] ->
  Solve ext cfg st
  = (false,
     emit (ROS_WARN "Insufficient measurements received, so cannot solve problem.") st).
Proof. intro E; unfold Solve; rewrite E; reflexivity. Qed.

(** Every call of [Solve] leaves a line in the log. *)
Lemma Solve_logs cfg st :
  exists e es, out_ (snd (Solve ext cfg st)) = out_ st ++ e :: es.
Proof.
  destruct (measurements_ st) as [|m ms] eqn:E.
  - rewrite (Solve_empty cfg st E); simpl; eauto.
  - destruct (Solve_nonempty cfg st E) as (_ & _ & _ & _ & es & Hes); eauto.
Qed.

(** C8: on an empty Measurement Store [Solve] returns [false] at once, its
    only trace is the warning that too few measurements were received, and
    the lighthouses, the trackers, the store and the recording flag are as
    before: nothing is sent, published or written. *)
Theorem C8_empty_store_fails_without_effects (cfg : Config) (st : Node Time) :
  measurements_ st = [] ->
  fst (Solve ext cfg st) = false /\
  lighthouses_ (snd (Solve ext cfg st)) = lighthouses_ st /\
  trackers_ (snd (Solve ext cfg st)) = trackers_ st /\
  measurements_ (snd (Solve ext cfg st)) = [] /\
  recording_ (snd (Solve ext cfg st)) = recording_ st /\
  out_ (snd (Solve ext cfg st))
  = out_ st
    ++ [ROS_WARN "Insufficient measurements received, so cannot solve problem."].
Proof.
  intro E; rewrite (Solve_empty cfg st E); simpl.
  repeat split; auto.
Qed.

(** C9: a trigger flips [recording_]. Arriving while recording it runs
    [Solve] on the state as it is, copies its result into the response and
    empties the store whatever that result; arriving while idle it changes
    nothing but the flag, and the log shows no call of [Solve]. The timer
    does what a trigger does. *)
Theorem C9_trigger_toggles_and_solves_on_stop (cfg : Config) (res : Response)
    (st : Node Time) :
  let res' := snd (fst (TriggerCallback ext cfg res st)) in
  let st' := snd (TriggerCallback ext cfg res st) in
  fst (fst (TriggerCallback ext cfg res st)) = true /\
  recording_ st' = negb (recording_ st) /\
  (if recording_ st then
     st' = set_recording false (set_measurements [] (snd (Solve ext cfg st))) /\
     measurements_ st' = [] /\
     success res' = fst (Solve ext cfg st) /\
     (exists e es, out_ st' = out_ st ++ e :: es)
   else
     st' = set_recording true st /\
     measurements_ st' = measurements_ st /\
     out_ st' = out_ st /\
     res' = {| success := true; message := "Recording started." |}) /\
  TimerCallback ext cfg st = st'.
Proof.
  unfold TimerCallback, TriggerCallback.
  destruct (recording_ st) eqn:Hrec; cbn [negb].
  - pose proof (Solve_logs cfg st) as Hlog.
    assert (Hr : recording_ (snd (Solve ext cfg st)) = true).
    { destruct (measurements_ st) as [|m ms] eqn:E.
      - rewrite (Solve_empty cfg st E); exact Hrec.
      - destruct (Solve_nonempty cfg st E) as (_ & _ & _ & -> & _); exact Hrec. }
    destruct (Solve ext cfg st) as [ok st1]; cbn [fst snd] in *.
    destruct ok; cbn; rewrite Hr; cbn; repeat split; auto.
  - cbn; rewrite Hrec; cbn; repeat split; auto.
Qed.

(** C1: on a non-empty store the reset loop of [Solve] assigns component
    0 of the master's transform (the first of [lighthouses_]) six times, so
    the master enters the optimisation and leaves [Solve] with components 1
    to 5 as they were. The master is no parameter block of the problem, and
    the solver does not write it. *)
Theorem C1_master_reset_clears_first_component_only
    (cfg : Config) (st : Node Time) (m : Time * Measurement)
    (ms : MeasurementMap Time) (lm : string) (x0 x1 x2 x3 x4 x5 : R)
    (p : nat -> Param -> R) (r : bool) (slaves : LighthouseMap) :
  let master := {| vTl := [x0; x1; x2; x3; x4; x5]; params := p; lh_ready := r |} in
  let reset := (lm, set_vTl [0; x1; x2; x3; x4; x5] master) in
  let st0 :=
    set_lighthouses ((lm, master) :: slaves) (set_measurements (m :: ms) st) in
  (forall (poses : PoseMap Time) (trackers : TrackerMap),
      fst (build_problem poses trackers ((lm, master) :: slaves)) = reset :: slaves /\
      in_problem (snd (build_problem poses trackers ((lm, master) :: slaves))) 0
      = false) /\
  fst (Solve ext cfg st0) = true /\
  exists rest, lighthouses_ (snd (Solve ext cfg st0)) = reset :: rest.
Proof.
  intros master reset st0; split.
  - intros poses trackers; split; [reflexivity|apply master_not_in_problem].
  - destruct (@Solve_nonempty cfg st0 m ms eq_refl) as (Hok & Hl & _).
    split; [exact Hok|]; rewrite Hl.
    unfold lighthouses_after_Solve; cbn [lighthouses_ st0 set_lighthouses].
    destruct (bootstrap ext _ _ _ _) as [trackers [poses count]].
    pose proof (master_not_in_problem poses trackers ((lm, master) :: slaves)) as H0.
    cbn [build_problem snd] in H0 |- *.
    destruct (ceres_Solve ext _ _) as [usable solved].
    unfold write_back; cbn [length seq combine map fst snd]; rewrite H0.
    eexists; reflexivity.
Qed.

(** **** Facts about the bundler *)

Lemma extend_extend o l1 l2 : extend (extend o l1) l2 = extend o (l1 ++ l2).
Proof.
  destruct l1 as [|x l1]; [reflexivity|].
  destruct l2 as [|y l2]; simpl.
  - rewrite app_nil_r; reflexivity.
  - rewrite <- app_assoc; reflexivity.
Qed.

Lemma find_get {K V : Type} `{Key K} {K' : Type} `{Key K'}
    (k : K) (k' : K') (m : list (K * list (K' * V))) :
  StdMap.find k' (StdMap.get [] k m)
  = match StdMap.find k m with Some m1 => StdMap.find k' m1 | None => None end.
Proof. unfold StdMap.get; destruct (StdMap.find k m); reflexivity. Qed.

Lemma samples_bin bundle tserial lserial t s a :
  samples bundle tserial lserial t s a
  = match bin bundle tserial lserial t s a with Some v => v | None => [] end.
Proof.
  unfold samples, bin, StdMap.get, BundleMap, Bundle in *.
  destruct (StdMap.find tserial bundle) as [m1|]; [|reflexivity].
  destruct (StdMap.find lserial m1) as [m2|]; [|reflexivity].
  destruct (StdMap.find t m2) as [m3|]; [|reflexivity].
  destruct (StdMap.find s m3) as [m4|]; reflexivity.
Qed.

Lemma bin_push_back ts ls t s a x bundle ts' ls' t' s' a' :
  bin (push_back ts ls t s a x bundle) ts' ls' t' s' a'
  = if key_eqb ts' ts && key_eqb ls' ls && key_eqb t' t
       && key_eqb s' s && key_eqb a' a
    then Some (samples bundle ts ls t s a ++ [x])
    else bin bundle ts' ls' t' s' a'.
Proof.
  unfold bin, push_back, samples, BundleMap, Bundle in *.
  key_cases ts' ts; cbn [andb];
    [rewrite StdMapFacts.find_modify_same
    |rewrite StdMapFacts.find_modify_other by assumption; reflexivity].
  key_cases ls' ls; cbn [andb];
    [rewrite StdMapFacts.find_modify_same
    |rewrite StdMapFacts.find_modify_other, find_get by assumption; split_finds].
  key_cases t' t; cbn [andb];
    [rewrite StdMapFacts.find_modify_same
    |rewrite StdMapFacts.find_modify_other, !find_get by assumption; split_finds].
  key_cases s' s; cbn [andb];
    [rewrite StdMapFacts.find_modify_same
    |rewrite StdMapFacts.find_modify_other, !find_get by assumption; split_finds].
  key_cases a' a; cbn [andb];
    [rewrite StdMapFacts.find_modify_same; reflexivity
    |rewrite StdMapFacts.find_modify_other, !find_get by assumption; split_finds].
Qed.

Lemma bin_bundle_measurement res bundle mt ts ls t s a :
  bin (bundle_measurement ext res bundle mt) ts ls t s a
  = extend (bin bundle ts ls t s a)
      (map angle (filter (falls_in ext res ts ls t s a mt) (pulses (light (snd mt))))).
Proof.
  unfold bundle_measurement.
  revert bundle; induction (pulses (light (snd mt))) as [|pt v IH]; intro bundle.
  - reflexivity.
  - cbn [fold_left filter]; rewrite IH, bin_push_back.
    unfold falls_in at 2.
    set (hit := key_eqb ts _ && _ && _ && _ && _).
    replace (key_eqb ts (frame_id (light (snd mt)))
             && key_eqb ls (lighthouse (light (snd mt)))
             && key_eqb t (bin_time ext res (fst mt))
             && key_eqb s (sensor pt)
             && key_eqb a (axis (light (snd mt)))) with hit
      by (unfold hit; reflexivity).
    destruct hit eqn:Hhit; [|reflexivity].
    unfold hit in Hhit.
    repeat (apply andb_prop in Hhit; destruct Hhit as [Hhit ?]).
    repeat match goal with
           | H : key_eqb _ _ = true |- _ => apply key_eqb_eq in H
           end; subst.
    rewrite samples_bin.
    change (map angle (pt :: ?l)) with ([angle pt] ++ map angle l).
    rewrite <- extend_extend; reflexivity.
Qed.

Lemma bin_fold_bundle res ms bundle ts ls t s a :
  bin (fold_left (bundle_measurement ext res) ms bundle) ts ls t s a
  = extend (bin bundle ts ls t s a) (collected ext res ms ts ls t s a).
Proof.
  revert bundle; induction ms as [|mt ms IH]; intro bundle.
  - reflexivity.
  - cbn [fold_left]; rewrite IH, bin_bundle_measurement, extend_extend.
    reflexivity.
Qed.

(** Each bin of the bundle holds the angles that fall in it, and only a
    bin some angle falls in is there. *)
Lemma bin_bundle_measurements res ms ts ls t s a :
  bin (bundle_measurements ext res ms) ts ls t s a
  = match collected ext res ms ts ls t s a with [] => None | v => Some v end.
Proof.
  unfold bundle_measurements; rewrite bin_fold_bundle.
  destruct (collected ext res ms ts ls t s a); reflexivity.
Qed.

Lemma fold_left_Rplus (v : list R) (acc : R) :
  fold_left Rplus v acc = acc + Rsum v.
Proof.
  revert acc; induction v as [|x v IH]; intro acc; simpl.
  - lra.
  - rewrite IH; unfold Rsum; lra.
Qed.

Lemma Mean_Rsum (v : list R) :
  Mean v = match v with [] => None | _ => Some (Rsum v / INR (length v)) end.
Proof.
  destruct v as [|x v]; [reflexivity|].
  unfold Mean; rewrite fold_left_Rplus, Rplus_0_l; reflexivity.
Qed.

(** [round] returns an integer at most one half away. *)
Lemma round_nearest (x : R) :
  exists k : Z, round x = IZR k /\ Rabs (IZR k - x) <= / 2.
Proof.
  unfold round; destruct (Rle_dec 0 x) as [Hx|Hx].
  - exists (Int_part (x + 0.5)); split; [reflexivity|].
    destruct (base_Int_part (x + 0.5)) as [Hlo Hhi].
    apply Rabs_le; lra.
  - exists (- Int_part (- x + 0.5))%Z; split; [rewrite opp_IZR; reflexivity|].
    destruct (base_Int_part (- x + 0.5)) as [Hlo Hhi].
    rewrite opp_IZR; apply Rabs_le; lra.
Qed.

Lemma bin_time_nearest (res : R) (t : Time) :
  0 < res ->
  exists k : Z,
    bin_time ext res t = fromSec ext (IZR k * res) /\
    Rabs (IZR k * res - toSec ext t) <= res / 2.
Proof.
  intro Hres; unfold bin_time.
  destruct (round_nearest (toSec ext t / res)) as [k [Hk Hd]].
  exists k; rewrite Hk; split; [reflexivity|].
  replace (IZR k * res - toSec ext t) with ((IZR k - toSec ext t / res) * res)
    by (field; lra).
  rewrite Rabs_mult, (Rabs_pos_eq res) by lra.
  apply Rle_trans with (/ 2 * res); [|lra].
  apply Rmult_le_compat_r; lra.
Qed.

Lemma collected_In res ms (mt : Time * Measurement) (pt : Pulse) :
  In mt ms -> In pt (pulses (light (snd mt))) ->
  In (angle pt)
    (collected ext res ms (frame_id (light (snd mt))) (lighthouse (light (snd mt)))
       (bin_time ext res (fst mt)) (sensor pt) (axis (light (snd mt)))).
Proof.
  intros Hmt Hpt; unfold collected.
  apply in_flat_map; exists mt; split; [assumption|].
  apply in_map, filter_In; split; [assumption|].
  unfold falls_in; rewrite !key_eqb_refl; reflexivity.
Qed.

(** C6: for a resolution [res > 0] the bundler files the pulses of an
    observation stamped [t] under the time [round(t/res) * res], an integer
    multiple of [res] at most [res/2] away from [t]: the angle of each
    pulse is among the samples at (tracker, lighthouse, that time, sensor,
    axis). The bin at five keys holds exactly the angles of the pulses
    with those keys, in store order; its value is their sum divided by
    their number; and where no angle falls the bundle has no entry and
    [Mean] gives no value. *)
Theorem C6_bundler_bins_nearest_multiple_and_means
    (res : R) (ms : MeasurementMap Time) :
  0 < res ->
  (forall t : Time, exists k : Z,
      bin_time ext res t = fromSec ext (IZR k * res) /\
      Rabs (IZR k * res - toSec ext t) <= res / 2) /\
  (forall mt pt,
      In mt ms -> In pt (pulses (light (snd mt))) ->
      In (angle pt)
        (samples (bundle_measurements ext res ms)
           (frame_id (light (snd mt))) (lighthouse (light (snd mt)))
           (bin_time ext res (fst mt)) (sensor pt) (axis (light (snd mt))))) /\
  (forall tserial lserial t s a,
      let v := collected ext res ms tserial lserial t s a in
      bin (bundle_measurements ext res ms) tserial lserial t s a
      = match v with [] => None | _ => Some v end /\
      Mean (samples (bundle_measurements ext res ms) tserial lserial t s a)
      = match v with [] => None | _ => Some (Rsum v / INR (length v)) end).
Proof.
  intro Hres; split; [|split].
  - intro t; apply bin_time_nearest; assumption.
  - intros mt pt Hmt Hpt.
    pose proof (collected_In res ms mt pt Hmt Hpt) as Hin.
    rewrite samples_bin, bin_bundle_measurements.
    destruct (collected ext res ms _ _ _ _ _); [contradiction|exact Hin].
  - intros tserial lserial t s a v; split.
    + unfold v; rewrite bin_bundle_measurements.
      destruct (collected ext res ms tserial lserial t s a); reflexivity.
    + unfold v; rewrite samples_bin, bin_bundle_measurements.
      destruct (collected ext res ms tserial lserial t s a);
        [reflexivity|apply Mean_Rsum].
Qed.

(** **** Facts about the per-epoch poses *)

Lemma pose_at_set_pose ts t ls pose poses ts' t' ls' :
  pose_at (set_pose ts t ls pose poses) ts' t' ls'
  = if key_eqb ts' ts && key_eqb t' t && key_eqb ls' ls
    then Some pose
    else pose_at poses ts' t' ls'.
Proof.
  unfold pose_at, set_pose, PoseMap in *.
  key_cases ts' ts; cbn [andb];
    [rewrite StdMapFacts.find_modify_same
    |rewrite StdMapFacts.find_modify_other by assumption; reflexivity].
  key_cases t' t; cbn [andb];
    [rewrite StdMapFacts.find_modify_same
    |rewrite StdMapFacts.find_modify_other, find_get by assumption; split_finds].
  key_cases ls' ls; cbn [andb];
    [rewrite StdMapFacts.find_modify_same; reflexivity
    |rewrite StdMapFacts.find_modify_other, !find_get by assumption; split_finds].
Qed.

Lemma epoch_pose_Some cfg bundle lt tt bt pose :
  epoch_pose ext cfg bundle lt tt bt = Some pose ->
  (4 <= length (correspondences ext cfg bundle lt tt bt))%nat /\
  solvePnP ext (map fst (correspondences ext cfg bundle lt tt bt))
           (map snd (correspondences ext cfg bundle lt tt bt)) principal_distance
  <> None.
Proof.
  unfold epoch_pose.
  destruct (3 <? length _)%nat eqn:E; [|discriminate].
  apply Nat.ltb_lt in E.
  destruct (solvePnP ext _ _ _); [|discriminate].
  intros _; split; [lia|discriminate].
Qed.

Section BootstrapFacts.
Variable cfg : Config.
Variable bundle : BundleMap Time.
Variable lighthouses : LighthouseMap.
Variable trackers : TrackerMap.

Local Abbreviation all_produced :=
  (Calibration.all_produced ext cfg bundle lighthouses trackers).
Local Abbreviation from_trackers := (Calibration.from_trackers trackers).

Lemma bootstrap_epochs_produced lh tr ls ts times acc :
  In (ls, lh) lighthouses -> In (ts, tr) trackers ->
  (forall t, In t times -> In t (epochs bundle ts ls)) ->
  all_produced (fst acc) ->
  all_produced
    (fst (fold_left (bootstrap_epoch ext cfg bundle (ls, lh) (ts, clear_vTt tr))
            times acc)).
Proof.
  intros Hlh Htr; revert acc; induction times as [|bt times IH];
    intros acc Hin Hacc; [exact Hacc|].
  cbn [fold_left]; apply IH; [intros; apply Hin; right; assumption|].
  unfold bootstrap_epoch.
  destruct (epoch_pose ext cfg bundle (ls, lh) (ts, clear_vTt tr) bt) as [pose|] eqn:E;
    [|exact Hacc].
  intros ts' t' ls' pose'; cbn [fst snd]; rewrite pose_at_set_pose.
  destruct (key_eqb ts' ts && key_eqb t' bt && key_eqb ls' ls) eqn:Hk;
    [|apply Hacc].
  repeat (apply andb_prop in Hk; destruct Hk as [Hk ?]).
  repeat match goal with
         | H : key_eqb _ _ = true |- _ => apply key_eqb_eq in H
         end; subst.
  intros [= <-]; exists lh, tr; repeat split; auto.
  apply Hin; left; reflexivity.
Qed.

Lemma bootstrap_trackers_produced lh ls l acc :
  In (ls, lh) lighthouses -> from_trackers l -> all_produced (fst acc) ->
  from_trackers (fst (for_each (bootstrap_tracker ext cfg bundle (ls, lh)) l acc)) /\
  all_produced
    (fst (snd (for_each (bootstrap_tracker ext cfg bundle (ls, lh)) l acc))).
Proof.
  intros Hlh; revert acc; induction l as [|[ts tr'] l IH]; intros acc Hl Hacc.
  - split; [intros tt []|exact Hacc].
  - cbn [for_each].
    destruct (Hl (ts, tr') (or_introl eq_refl)) as [tr [Htr Hclear]].
    cbn [fst snd] in Htr, Hclear.
    change (bootstrap_tracker ext cfg bundle (ls, lh) (ts, tr') acc)
      with ((ts, clear_vTt tr'),
            fold_left (bootstrap_epoch ext cfg bundle (ls, lh) (ts, clear_vTt tr'))
              (epochs bundle ts ls) acc).
    cbv beta iota; rewrite Hclear.
    set (acc1 := fold_left _ _ acc).
    assert (H1 : all_produced (fst acc1)).
    { apply bootstrap_epochs_produced; auto. }
    destruct (IH acc1 (fun tt H => Hl tt (or_intror H)) H1) as [Hf Hp].
    destruct (for_each _ l acc1) as [l'' s2]; cbn [fst snd] in *.
    split; [|exact Hp].
    intros tt [<-|Hin]; [|apply Hf; assumption].
    exists tr; split; [assumption|reflexivity].
Qed.

Lemma bootstrap_lighthouses_produced lhs acc :
  (forall lt, In lt lhs -> In lt lighthouses) ->
  from_trackers (fst acc) -> all_produced (fst (snd acc)) ->
  all_produced
    (fst (snd (fold_left (bootstrap_lighthouse ext cfg bundle) lhs acc))).
Proof.
  revert acc; induction lhs as [|[ls lh] lhs IH]; intros acc Hin Hf Hp;
    [exact Hp|].
  cbn [fold_left]; apply IH.
  - intros; apply Hin; right; assumption.
  - apply bootstrap_trackers_produced; auto.
    apply Hin; left; reflexivity.
  - apply bootstrap_trackers_produced; auto.
    apply Hin; left; reflexivity.
Qed.

Lemma bootstrap_produced :
  all_produced (fst (snd (bootstrap ext cfg bundle lighthouses trackers))).
Proof.
  unfold bootstrap; apply bootstrap_lighthouses_produced.
  - auto.
  - intros tt Hin; exists (snd tt); destruct tt; auto.
  - intros ts t ls pose; discriminate.
Qed.

End BootstrapFacts.

Lemma correspondence_has_mean cfg bundle lt tt bt s :
  match correspondence cfg bundle lt tt bt s with
  | Some _ => true
  | None => false
  end
  = has_mean bundle (fst tt) (fst lt) bt s 0 && has_mean bundle (fst tt) (fst lt) bt s 1.
Proof.
  unfold correspondence, has_mean. rewrite !samples_bin.
  destruct (bin bundle (fst tt) (fst lt) bt (N.of_nat s) 0) as [[|x0 v0]|];
    cbn [Mean andb]; try reflexivity;
    destruct (bin bundle (fst tt) (fst lt) bt (N.of_nat s) 1) as [[|x1 v1]|];
    reflexivity.
Qed.

Lemma fold_gathered {A : Type} (f : nat -> option A) (l : list nat) (acc : list A) :
  exists cs,
    fold_left (fun acc s => match f s with Some c => acc ++ [c] | None => acc end) l acc
    = acc ++ cs /\
    Forall2 (fun s c => f s = Some c)
            (filter (fun s => match f s with Some _ => true | None => false end) l) cs.
Proof.
  revert acc; induction l as [|s l IH]; intro acc.
  - exists []; split; [symmetry; apply app_nil_r|constructor].
  - cbn [fold_left filter]. destruct (f s) as [c|] eqn:E.
    + destruct (IH (acc ++ [c])) as (cs & -> & Hcs).
      exists (c :: cs); split; [rewrite <- app_assoc; reflexivity|].
      constructor; assumption.
    + apply IH.
Qed.

(** The correspondences gathered for an epoch are those of the sensors
    seen on both axes, one each, in sensor order. *)
Lemma correspondences_seen cfg bundle lt tt bt :
  Forall2 (fun s c => correspondence cfg bundle lt tt bt s = Some c)
          (seen_on_both_axes ext bundle (fst tt) (fst lt) bt)
          (correspondences ext cfg bundle lt tt bt).
Proof.
  unfold correspondences, seen_on_both_axes.
  destruct (fold_gathered (correspondence cfg bundle lt tt bt)
              (seq 0 (NUM_SENSORS ext)) []) as (cs & -> & Hcs).
  cbn [app].
  rewrite (filter_ext _ _ (fun s => eq_sym (correspondence_has_mean cfg bundle lt tt bt s))).
  exact Hcs.
Qed.

Lemma Forall2_same_length {A B : Type} (R : A -> B -> Prop) (l : list A) (l' : list B) :
  Forall2 R l l' -> length l = length l'.
Proof. induction 1; cbn [length]; congruence. Qed.

(** C7: a pose is stored for a (tracker, lighthouse, time bin) only when
    at least four sensors gave a correspondence and [solvePnP] succeeded,
    where the correspondences are those of the sensors for which the
    bundle holds a sample on axis 0 and a sample on axis 1, one for each
    such sensor. With three such sensors or fewer, and when [solvePnP]
    fails, the epoch leaves the poses and the count as they were, and the
    loops go on. *)
Theorem C7_pose_needs_four_correspondences_and_PnP
    (cfg : Config) (bundle : BundleMap Time) (lighthouses : LighthouseMap)
    (trackers : TrackerMap) :
  (forall tserial t lserial pose,
      pose_at (fst (snd (bootstrap ext cfg bundle lighthouses trackers)))
        tserial t lserial = Some pose ->
      exists lh tr,
        In (lserial, lh) lighthouses /\ In (tserial, tr) trackers /\
        In t (epochs bundle tserial lserial) /\
        let corr :=
          correspondences ext cfg bundle (lserial, lh) (tserial, clear_vTt tr) t in
        let seen := seen_on_both_axes ext bundle tserial lserial t in
        (4 <= length seen)%nat /\
        Forall2 (fun s c =>
                   correspondence cfg bundle (lserial, lh)
                     (tserial, clear_vTt tr) t s = Some c) seen corr /\
        (4 <= length corr)%nat /\
        solvePnP ext (map fst corr) (map snd corr) principal_distance <> None /\
        epoch_pose ext cfg bundle (lserial, lh) (tserial, clear_vTt tr) t = Some pose) /\
  (forall lt tt bt acc,
      let corr := correspondences ext cfg bundle lt tt bt in
      let seen := seen_on_both_axes ext bundle (fst tt) (fst lt) bt in
      length corr = length seen /\
      ((length seen <= 3)%nat ->
       epoch_pose ext cfg bundle lt tt bt = None /\
       bootstrap_epoch ext cfg bundle lt tt acc bt = acc) /\
      ((length corr <= 3)%nat ->
       epoch_pose ext cfg bundle lt tt bt = None /\
       bootstrap_epoch ext cfg bundle lt tt acc bt = acc) /\
      (solvePnP ext (map fst corr) (map snd corr) principal_distance = None ->
       epoch_pose ext cfg bundle lt tt bt = None /\
       bootstrap_epoch ext cfg bundle lt tt acc bt = acc)).
Proof.
  split.
  - intros tserial t lserial pose Hp.
    destruct (bootstrap_produced cfg bundle lighthouses trackers _ _ _ Hp)
      as (lh & tr & Hlh & Htr & Ht & He).
    exists lh, tr. split; [exact Hlh|]. split; [exact Htr|]. split; [exact Ht|].
    cbv zeta.
    assert (Hs := correspondences_seen cfg bundle (lserial, lh)
                    (tserial, clear_vTt tr) t). cbn [fst] in Hs.
    destruct (epoch_pose_Some _ _ _ _ _ He) as [Hfour Hpnp].
    rewrite (Forall2_same_length Hs).
    repeat split; assumption.
  - intros lt tt bt acc corr seen.
    assert (Hs := correspondences_seen cfg bundle lt tt bt).
    assert (Hl : length corr = length seen)
      by (symmetry; apply (Forall2_same_length Hs)).
    assert (Hfew : (length corr <= 3)%nat ->
                   epoch_pose ext cfg bundle lt tt bt = None /\
                   bootstrap_epoch ext cfg bundle lt tt acc bt = acc).
    { intro Hc.
      assert (E : epoch_pose ext cfg bundle lt tt bt = None).
      { unfold epoch_pose; fold corr.
        destruct (3 <? length corr)%nat eqn:E; [|reflexivity].
        apply Nat.ltb_lt in E; lia. }
      unfold bootstrap_epoch; rewrite E; auto. }
    split; [exact Hl|]. split; [intro Hc; apply Hfew; lia|]. split; [exact Hfew|].
    intro Hc.
    assert (E : epoch_pose ext cfg bundle lt tt bt = None).
    { unfold epoch_pose; fold corr; rewrite Hc.
      destruct (3 <? length corr)%nat; reflexivity. }
    unfold bootstrap_epoch; rewrite E; auto.
Qed.

(** **** Facts about [LightCallback] *)

Lemma firstn_snoc_nth {A : Type} (n : nat) (v : list A) (p : A) :
  nth_error v n = Some p ->
  firstn (S n) v = firstn n v ++ [p] /\ skipn n v = p :: skipn (S n) v.
Proof.
  revert v; induction n as [|n IH]; intros [|x v]; try discriminate.
  - intros [= ->]; split; reflexivity.
  - intro H; destruct (IH v H) as [H1 H2]; split.
    + change (x :: firstn (S n) v = x :: (firstn n v ++ [p])); rewrite H1; reflexivity.
    + exact H2.
Qed.

Lemma firstn_skipn_erase {A : Type} (n : nat) (v : list A) :
  firstn n (erase n v) = firstn n v /\ skipn n (erase n v) = skipn (S n) v.
Proof.
  revert v; induction n as [|n IH]; intros [|x v]; try (split; reflexivity).
  destruct (IH v) as [H1 H2]; split.
  - cbn [erase firstn]; rewrite H1; reflexivity.
  - exact H2.
Qed.

Lemma length_erase {A : Type} (n : nat) (v : list A) :
  (n < length v)%nat -> length (erase n v) = pred (length v).
Proof.
  revert v; induction n as [|n IH]; intros [|x v] Hlt; simpl in *; try lia.
  rewrite IH by lia; destruct v; simpl in *; lia.
Qed.

(** Each erasure shortens the vector by one and is counted. *)
Lemma erase_loop_count cfg (it : nat) (v : list Pulse) (deleted : nat) :
  (it <= length v)%nat ->
  (snd (erase_loop cfg it v deleted) + length (fst (erase_loop cfg it v deleted))
   = deleted + length v)%nat.
Proof.
  revert v deleted; induction it as [|it IH]; intros v deleted Hlen.
  - simpl; lia.
  - cbn [erase_loop].
    destruct (nth_error v it) as [p|] eqn:E;
      [|apply nth_error_None in E; lia].
    destruct (rejected cfg p).
    + assert (Hl : length (erase it v) = pred (length v))
        by (apply length_erase; lia).
      rewrite IH by lia; lia.
    + apply IH; lia.
Qed.

(** The erase loop leaves the pulses that are not rejected, in order. *)
Lemma erase_loop_filter cfg (it : nat) (v : list Pulse) (deleted : nat) :
  (it <= length v)%nat ->
  fst (erase_loop cfg it v deleted)
  = filter (fun p => negb (rejected cfg p)) (firstn it v) ++ skipn it v.
Proof.
  revert v deleted; induction it as [|it IH]; intros v deleted Hlen.
  - reflexivity.
  - cbn [erase_loop].
    destruct (nth_error v it) as [p|] eqn:E;
      [|apply nth_error_None in E; lia].
    destruct (firstn_snoc_nth it v E) as [Hf Hs].
    rewrite Hf, filter_app; cbn [filter].
    destruct (rejected cfg p) eqn:Hr; cbn [negb].
    + destruct (firstn_skipn_erase it v) as [Hf' Hs'].
      rewrite IH, Hf', Hs', app_nil_r; [reflexivity|].
      assert (length (erase it v) = length (firstn it (erase it v))
                                    + length (skipn it (erase it v)))%nat
        by (rewrite <- length_app, firstn_skipn; reflexivity).
      rewrite Hf', firstn_length_le in H by lia; lia.
    + rewrite IH, Hs, <- app_assoc by lia; reflexivity.
Qed.

(** X1: entered at the end of the vector, the loop of [LightCallback] visits
    every pulse once: what is left is the pulses that are not rejected, in
    their order, and [deleted] counts the others. *)
Theorem erase_loop_keeps_unrejected cfg (v : list Pulse) :
  fst (erase_loop cfg (length v) v 0) = filter (fun p => negb (rejected cfg p)) v /\
  (snd (erase_loop cfg (length v) v 0)
   + length (filter (fun p => negb (rejected cfg p)) v) = length v)%nat.
Proof.
  split.
  - rewrite erase_loop_filter, firstn_all, skipn_all, app_nil_r by lia.
    reflexivity.
  - pose proof (@erase_loop_count cfg (length v) v 0 (Nat.le_refl _)) as Hc.
    rewrite erase_loop_filter, firstn_all, skipn_all, app_nil_r in Hc by lia.
    lia.
Qed.

Lemma rejected_iff cfg p :
  rejected cfg p = true <->
  angle p > thresh_angle_ cfg / 57.2958 \/
  duration p < thresh_duration_ cfg / 1e6.
Proof.
  unfold rejected, Rgtb, Rltb.
  destruct (Rlt_dec _ (angle p)), (Rlt_dec (duration p) _); cbn;
    split; auto; try (intros [?|?]; auto; contradiction); discriminate.
Qed.

(** What [LightCallback] does once the guard is passed. *)
Lemma LightCallback_recording cfg now msg st :
  recording_ st = true -> known_and_ready msg st = true ->
  let survivors := filter (fun p => negb (rejected cfg p)) (pulses msg) in
  measurements_ (LightCallback cfg now msg st)
  = if (Z.of_nat (length survivors) <? size_t_of_int (thresh_count_ cfg))%Z
    then measurements_ st
    else StdMap.modify default_Measurement now
           (fun _ => {| light := set_pulses survivors msg |}) (measurements_ st).
Proof.
  intros Hrec Hready survivors; unfold LightCallback.
  change (recording_ (emit TimerRestart st)) with (recording_ st).
  change (known_and_ready msg (emit TimerRestart st)) with (known_and_ready msg st).
  rewrite Hrec, Hready; cbn [negb orb].
  pose proof (@erase_loop_filter cfg (length (pulses msg)) (pulses msg) 0
                (Nat.le_refl _)) as He.
  rewrite firstn_all, skipn_all, app_nil_r in He.
  destruct (erase_loop cfg _ _ 0) as [v deleted]; cbn [fst] in He; subst v.
  cbn [pulses set_pulses]; fold survivors.
  destruct (_ <? _)%Z; reflexivity.
Qed.

(** C5 (amended): while recording, for a known and ready tracker and
    lighthouse and a minimum count that is not negative, a pulse is dropped
    exactly when its angle is strictly above [thresh_angle_ / 57.2958] or
    its duration strictly below [thresh_duration_ / 1e6], so a pulse at the
    maximum angle with a sufficient duration stays; the observation, with
    the pulses that stay, is stored under the arrival time when at least
    [thresh_count_] of them stay, and the store is left alone otherwise. *)
Theorem C5_pulses_filtered_strictly_and_counted
    (cfg : Config) (now : Time) (msg : Light) (st : Node Time) :
  is_int (thresh_count_ cfg) -> (0 <= thresh_count_ cfg)%Z ->
  recording_ st = true -> known_and_ready msg st = true ->
  let survivors := filter (fun p => negb (rejected cfg p)) (pulses msg) in
  (forall p, In p survivors <->
             In p (pulses msg) /\
             ~ angle p > thresh_angle_ cfg / 57.2958 /\
             ~ duration p < thresh_duration_ cfg / 1e6) /\
  (forall p, In p (pulses msg) ->
             angle p = thresh_angle_ cfg / 57.2958 ->
             thresh_duration_ cfg / 1e6 <= duration p ->
             In p survivors) /\
  ((thresh_count_ cfg <= Z.of_nat (length survivors))%Z ->
   measurements_ (LightCallback cfg now msg st)
   = StdMap.modify default_Measurement now
       (fun _ => {| light := set_pulses survivors msg |}) (measurements_ st)) /\
  ((Z.of_nat (length survivors) < thresh_count_ cfg)%Z ->
   measurements_ (LightCallback cfg now msg st) = measurements_ st).
Proof.
  intros [Hlo Hhi] Hnn Hrec Hready survivors.
  assert (Hsurv : forall p, In p survivors <->
             In p (pulses msg) /\
             ~ angle p > thresh_angle_ cfg / 57.2958 /\
             ~ duration p < thresh_duration_ cfg / 1e6).
  { intro p; unfold survivors; rewrite filter_In, negb_true_iff.
    pose proof (rejected_iff cfg p) as Hrej; split.
    - intros [Hin Hf]; split; [assumption|]; rewrite Hf in Hrej.
      split; intro Hc;
        [assert (false = true) by (apply Hrej; left; exact Hc)
        |assert (false = true) by (apply Hrej; right; exact Hc)];
        discriminate.
    - intros [Hin [Ha Hd]]; split; [assumption|].
      destruct (rejected cfg p); [|reflexivity].
      destruct Hrej as [Hrej _]; destruct (Hrej eq_refl); contradiction. }
  assert (Hsz : size_t_of_int (thresh_count_ cfg) = thresh_count_ cfg).
  { unfold size_t_of_int; apply Z.mod_small; lia. }
  pose proof (LightCallback_recording cfg now msg st Hrec Hready) as Hcb.
  cbv zeta in Hcb; fold survivors in Hcb; rewrite Hsz in Hcb.
  split; [exact Hsurv|split; [|split]].
  - intros p Hin Ha Hd; apply Hsurv; repeat split; auto; lra.
  - intro Hc; rewrite Hcb.
    destruct (Z.ltb_spec (Z.of_nat (length survivors)) (thresh_count_ cfg));
      [lia|reflexivity].
  - intro Hc; rewrite Hcb.
    destruct (Z.ltb_spec (Z.of_nat (length survivors)) (thresh_count_ cfg));
      [reflexivity|lia].
Qed.

End NodeFacts.

(** *** [TransformCost] and the angle correction *)

Lemma AngleAxisToQuaternion_zero :
  AngleAxisToQuaternion (0, 0, 0) = QuaternionIdentity.
Proof.
  unfold AngleAxisToQuaternion, QuaternionIdentity.
  destruct (Rlt_dec 0 (0 * 0 + 0 * 0 + 0 * 0)) as [H|H]; [lra|].
  apply quat_eq; lra.
Qed.

Lemma AngleAxisToQuaternion_one_about_x :
  AngleAxisToQuaternion (1, 0, 0) = (cos (/ 2), sin (/ 2), 0, 0).
Proof.
  unfold AngleAxisToQuaternion.
  replace (1 * 1 + 0 * 0 + 0 * 0) with 1 by ring.
  destruct (Rlt_dec 0 1) as [H|H]; [|lra].
  cbv zeta; rewrite sqrt_1.
  replace (1 * 0.5) with (/ 2) by lra.
  apply quat_eq; field.
Qed.

Lemma half_in_first_quadrant : 0 < sin (/ 2) /\ 0 < cos (/ 2).
Proof.
  pose proof PI2_1 as Hpi; split.
  - apply sin_gt_0; lra.
  - apply cos_gt_0; lra.
Qed.

(** The axis-angle of a rotation by one radian about [x] or about [-x]. *)
Lemma QuaternionToAngleAxis_one_about_x (q1 : R) :
  q1 = sin (/ 2) \/ q1 = - sin (/ 2) ->
  QuaternionToAngleAxis (cos (/ 2), q1, 0, 0)
  = (q1 / sin (/ 2), 0, 0).
Proof.
  destruct half_in_first_quadrant as [Hs Hc]; intro Hq.
  unfold QuaternionToAngleAxis.
  assert (Hsq : q1 * q1 + 0 * 0 + 0 * 0 = (sin (/ 2))²).
  { unfold Rsqr; destruct Hq; subst q1; ring. }
  rewrite Hsq.
  destruct (Rlt_dec 0 (sin (/ 2))²) as [H|H];
    [|exfalso; apply H; apply Rsqr_pos_lt; lra].
  cbv zeta; rewrite sqrt_Rsqr by lra.
  destruct (Rlt_dec (cos (/ 2)) 0) as [H'|H']; [lra|].
  unfold atan2; destruct (Rlt_dec 0 (cos (/ 2))) as [H''|H'']; [|lra].
  change (sin (/ 2) / cos (/ 2)) with (tan (/ 2)).
  rewrite atan_tan by (pose proof PI2_1; lra).
  apply vec3_eq; field; lra.
Qed.

(** C3 (amended): the translational residual is, component by component,
    the master pose's translation minus the sum of the transform's and the
    slave pose's; the rotational residual is the axis-angle of the master
    pose's rotation composed with the inverse of (the transform's rotation
    composed with the slave pose's rotation). The negated vector part the
    code uses is that inverse. *)
Theorem C3_residual_of_master_pose_against_transformed_slave_pose
    (mTs mTt sTt : list R) :
  let mRt := AngleAxisToQuaternion (rotation_of mTt) in
  let mRs := AngleAxisToQuaternion (rotation_of mTs) in
  let sRt := AngleAxisToQuaternion (rotation_of sTt) in
  let composed := QuaternionProduct mRs sRt in
  QuaternionProduct composed (QuaternionInverse composed) = QuaternionIdentity /\
  QuaternionProduct (QuaternionInverse composed) composed = QuaternionIdentity /\
  TransformCost mTs mTt sTt
  = let '(r3, r4, r5) :=
      QuaternionToAngleAxis (QuaternionProduct mRt (QuaternionInverse composed)) in
    [ el mTt 0 - (el mTs 0 + el sTt 0);
      el mTt 1 - (el mTs 1 + el sTt 1);
      el mTt 2 - (el mTs 2 + el sTt 2);
      r3; r4; r5 ].
Proof.
  intros mRt mRs sRt composed.
  assert (Hunit : SquaredNorm composed = 1).
  { unfold composed, mRs, sRt.
    rewrite SquaredNorm_product, !AngleAxisToQuaternion_unit; ring. }
  rewrite (unit_inverse composed Hunit).
  rewrite product_conjugate, conjugate_product, Hunit.
  repeat split; reflexivity.
Qed.

(** C3, as stated, fails: with identity poses and a transform that turns
    one radian about [x], the code's rotational residual is one radian
    about [-x], and the stated composition is one radian about [x]. *)
Lemma C3_counterexample_stated_composition :
  let mTs := [0; 0; 0; 1; 0; 0] in
  let mTt := [0; 0; 0; 0; 0; 0] in
  let sTt := [0; 0; 0; 0; 0; 0] in
  (el (TransformCost mTs mTt sTt) 3, el (TransformCost mTs mTt sTt) 4,
   el (TransformCost mTs mTt sTt) 5) = (-1, 0, 0) /\
  spec_rotation_residual mTs mTt sTt = (1, 0, 0).
Proof.
  destruct half_in_first_quadrant as [Hs Hc].
  cbv zeta; unfold TransformCost, spec_rotation_residual, rotation_of, el.
  cbn [nth].
  rewrite AngleAxisToQuaternion_zero, AngleAxisToQuaternion_one_about_x.
  unfold QuaternionIdentity; split.
  - replace (QuaternionProduct (1, 0, 0, 0)
               (Conjugate (QuaternionProduct (cos (/ 2), sin (/ 2), 0, 0) (1, 0, 0, 0))))
      with (cos (/ 2), - sin (/ 2), 0, 0)
      by (cbn; apply quat_eq; ring).
    rewrite QuaternionToAngleAxis_one_about_x by (right; reflexivity).
    cbn [nth]; apply vec3_eq; try reflexivity; field; lra.
  - replace (QuaternionProduct
               (QuaternionProduct (cos (/ 2), sin (/ 2), 0, 0) (1, 0, 0, 0))
               (QuaternionInverse (1, 0, 0, 0)))
      with (cos (/ 2), sin (/ 2), 0, 0)
      by (cbn; apply quat_eq; field).
    rewrite QuaternionToAngleAxis_one_about_x by (left; reflexivity).
    apply vec3_eq; try reflexivity; field; lra.
Qed.



(** C4: the correction runs in place, axis 0 first. Axis 0 is corrected
    with the mean of axis 1, as stated; axis 1 is then corrected with the
    already corrected angle of axis 0, not with its mean. With means
    (1, 0), phase 1 on axis 0 and tilt 1 on axis 1 the code returns 0 on
    axis 1 where the stated formula gives -1. *)
Theorem C4_axis1_uses_corrected_axis0 :
  (forall (lh : Lighthouse) (m0 m1 : R),
      let c0 := spec_corrected lh [m0; m1] 0 in
      correct_angles lh [m0; m1]
      = [ c0;
          m1 - params lh 1 PARAM_PHASE
          - params lh 1 PARAM_TILT * c0
          - params lh 1 PARAM_CURVE * c0 * c0
          - params lh 1 PARAM_GIB_MAG * cos (c0 + params lh 1 PARAM_GIB_PHASE) ]) /\
  el (correct_angles lighthouse_phase0_tilt1 [1; 0]) 0
  = spec_corrected lighthouse_phase0_tilt1 [1; 0] 0 /\
  el (correct_angles lighthouse_phase0_tilt1 [1; 0]) 1 = 0 /\
  spec_corrected lighthouse_phase0_tilt1 [1; 0] 1 = -1.
Proof.
  split; [intros lh m0 m1 c0; reflexivity|].
  split; [reflexivity|].
  unfold spec_corrected, correct_angles, correct_axis, el; cbn; split; ring.
Qed.

(** *** [Solve] under a solver that reports an unusable solution *)

(** C2: on a non-empty store [Solve] returns [true] also when the solver
    reports that its solution is not usable; the log then says that no
    solution was found, and the trigger answers that one was. *)
Theorem C2_Solve_succeeds_on_unusable_solution
    (Time : Type) (Time_Key : Key Time) (ext : External Time)
    (leaves : list ResidualBlock -> list (list R) -> list (list R))
    (cfg : Config) (res : Response) (st : Node Time) (m : Time * Measurement)
    (ms : MeasurementMap Time) :
  let unusable :=
    {| toSec := toSec ext; fromSec := fromSec ext;
       NUM_SENSORS := NUM_SENSORS ext; solvePnP := solvePnP ext;
       AngleAxisd := AngleAxisd ext;
       ceres_Solve := fun problem v => (false, leaves problem v) |} in
  let st0 := set_recording true (set_measurements (m :: ms) st) in
  fst (Solve unusable cfg st0) = true /\
  In (ROS_INFO "- Solution not found") (out_ (snd (Solve unusable cfg st0))) /\
  snd (fst (TriggerCallback unusable cfg res st0))
  = {| success := true; message := "Recording stopped. Solution found." |}.
Proof.
  intros unusable st0.
  destruct (@Solve_nonempty Time Time_Key unusable cfg st0 m ms eq_refl)
    as (Hok & _).
  split; [exact Hok|split].
  - unfold Solve, st0; cbn [measurements_ set_recording set_measurements].
    cbv zeta.
    cbn [measurements_ emit trackers_ lighthouses_ set_trackers set_lighthouses].
    destruct (bootstrap _ _ _ _ _) as [trackers [poses count]].
    destruct (build_problem _ _ _) as [lighthouses problem].
    unfold unusable at 1; cbn [ceres_Solve].
    destruct (visualize_ cfg); cbn [snd].
    + match goal with
      | |- context [fold_left ?f ?es ?s] =>
          destruct (fold_emit_fields es s) as (_ & _ & _ & _ & ->)
      end.
      cbn [out_ emit]; rewrite !in_app_iff; cbn; tauto.
    + cbn [out_ emit]; rewrite !in_app_iff; cbn; tauto.
  - unfold TriggerCallback; cbn [recording_ st0 set_recording negb].
    fold st0.
    destruct (Solve unusable cfg st0) as [ok st1]; cbn [fst] in Hok; subst ok.
    reflexivity.
Qed.

(** *** The examples *)

Lemma example_pulse_kept (cfg : Config) (s : N) :
  thresh_angle_ cfg = 60.0 -> thresh_duration_ cfg = 1.0 ->
  rejected cfg (example_pulse s) = false.
Proof.
  intros Ha Hd; destruct (rejected cfg (example_pulse s)) eqn:E; [|reflexivity].
  apply rejected_iff in E; rewrite Ha, Hd in E; cbn in E.
  destruct E; lra.
Qed.

Lemma C7_witness_four_sensors :
  exists pose lh tr,
    pose_at
      (fst (snd (bootstrap (example_ext PnP_succeeds) example_cfg example_bundle
                   (lighthouses_ example_recording) (trackers_ example_recording))))
      "T" 5%N "A" = Some pose /\
    In ("A"%string, lh) (lighthouses_ example_recording) /\
    In ("T"%string, tr) (trackers_ example_recording) /\
    (4 <= length (seen_on_both_axes (example_ext PnP_succeeds) example_bundle
                    "T" "A" 5%N))%nat /\
    (4 <= length (correspondences (example_ext PnP_succeeds) example_cfg
                    example_bundle ("A"%string, lh)
                    ("T"%string, clear_vTt tr) 5%N))%nat.
Proof.
  assert (H : pose_at
      (fst (snd (bootstrap (example_ext PnP_succeeds) example_cfg example_bundle
                   (lighthouses_ example_recording) (trackers_ example_recording))))
      "T" 5%N "A" = Some [1; 2; 3; 0 * 1; 0 * 0; 0 * 0]) by reflexivity.
  destruct (proj1 (@C7_pose_needs_four_correspondences_and_PnP N N_Key
                     (example_ext PnP_succeeds) example_cfg example_bundle
                     (lighthouses_ example_recording)
                     (trackers_ example_recording)) _ _ _ _ H)
    as (lh & tr & Hlh & Htr & _ & Hseen & _ & Hfour & _).
  exists [1; 2; 3; 0 * 1; 0 * 0; 0 * 0], lh, tr.
  split; [exact H|split; [exact Hlh|split; [exact Htr|split; [exact Hseen|exact Hfour]]]].
Defined.

Lemma C8_witness_empty_store :
  measurements_ example_recording = [] /\
  fst (Solve (example_ext PnP_fails) example_cfg example_recording) = false.
Proof.
  split; [reflexivity|].
  apply (@C8_empty_store_fails_without_effects N N_Key (example_ext PnP_fails)
           example_cfg example_recording);
    reflexivity.
Defined.

Lemma C6_witness_resolution_tenth :
  0 < 0.1 /\
  exists k : Z,
    bin_time (example_ext PnP_fails) 0.1 1234567890%N
    = ns_fromSec (IZR k * 0.1) /\
    Rabs (IZR k * 0.1 - ns_toSec 1234567890%N) <= 0.1 / 2.
Proof.
  assert (H : 0 < 0.1) by lra.
  split; [exact H|].
  apply (@C6_bundler_bins_nearest_multiple_and_means N N_Key
           (example_ext PnP_fails) 0.1
           [(1234567890%N, {| light := example_light |})] H).
Defined.

Lemma C5_witness_four_pulses :
  is_int (thresh_count_ example_cfg) /\
  (0 <= thresh_count_ example_cfg)%Z /\
  recording_ example_recording = true /\
  known_and_ready example_light example_recording = true /\
  forall p, In p (pulses example_light) ->
            angle p = thresh_angle_ example_cfg / 57.2958 ->
            thresh_duration_ example_cfg / 1e6 <= duration p ->
            In p (filter (fun p => negb (rejected example_cfg p))
                    (pulses example_light)).
Proof.
  assert (Hi : is_int (thresh_count_ example_cfg)) by (unfold is_int; cbn; lia).
  assert (Hn : (0 <= thresh_count_ example_cfg)%Z) by (cbn; lia).
  repeat split; try exact (proj1 Hi); try exact (proj2 Hi); try exact Hn.
  apply (@C5_pulses_filtered_strictly_and_counted N N_Key example_cfg 7%N
           example_light example_recording Hi Hn eq_refl eq_refl).
Defined.

(** C5, as stated, fails for a negative minimum count: all four pulses
    stay, four is at least -1, and the observation is not stored, because
    the count is compared after its conversion to [size_t]. *)
Lemma C5_counterexample_negative_count :
  let survivors :=
    filter (fun p => negb (rejected negative_count_cfg p)) (pulses example_light) in
  is_int (thresh_count_ negative_count_cfg) /\
  recording_ example_recording = true /\
  known_and_ready example_light example_recording = true /\
  length survivors = 4%nat /\
  (thresh_count_ negative_count_cfg <= Z.of_nat (length survivors))%Z /\
  measurements_ (LightCallback negative_count_cfg 7%N example_light example_recording)
  = [].
Proof.
  assert (Hlen : length (filter (fun p => negb (rejected negative_count_cfg p))
                           (pulses example_light)) = 4%nat).
  { cbn [pulses example_light filter].
    rewrite !example_pulse_kept by reflexivity; reflexivity. }
  cbv zeta; rewrite Hlen.
  repeat split; try (cbn; lia).
  rewrite (@LightCallback_recording N N_Key negative_count_cfg 7%N example_light
             example_recording eq_refl eq_refl).
  rewrite Hlen; reflexivity.
Qed.

End CalibrationFacts.

(** ** The light-data entry point *)

Module DataLightFacts.
Import DataLight.

Section LightcapFacts.
Variable MAX_NUM_SENSORS : Z.
Variable MAX_NUM_LIGHTHOUSES : nat.

(** X2: every index below [MAX_NUM_SENSORS] is read and written within the
    arrays, which have that many elements. *)
Lemma handle_sweep_in_bounds lcd timecode sensor length :
  (0 <= sensor < MAX_NUM_SENSORS)%Z ->
  List.length (sweep_len (sweep lcd)) = Z.to_nat MAX_NUM_SENSORS ->
  exists lcd', handle_sweep MAX_NUM_LIGHTHOUSES lcd timecode sensor length = Done lcd'.
Proof.
  intros Hs Hlen; unfold handle_sweep.
  destruct (_ <? 0)%Z; [eauto|].
  destruct (nth_error _ _) eqn:E.
  - destruct (_ <? _)%Z; eauto.
  - apply nth_error_None in E; lia.
Qed.

(** The guard lets [sensor = MAX_NUM_SENSORS] through. *)
Lemma guard_accepts_bound length :
  (length <= 6750)%Z -> accepted MAX_NUM_SENSORS MAX_NUM_SENSORS length = true.
Proof.
  intro Hl; unfold accepted.
  destruct (Z.gtb_spec MAX_NUM_SENSORS MAX_NUM_SENSORS); [lia|].
  destruct (Z.gtb_spec length 6750); [lia|reflexivity].
Qed.

End LightcapFacts.

Lemma handle_sweep_in_bounds_witness :
  exists lcd', handle_sweep 2 idle_lcd 5000 31 100 = Done lcd'.
Proof.
  apply (@handle_sweep_in_bounds 32 2 idle_lcd 5000 31 100); [lia|reflexivity].
Defined.

(** C10: whatever [MAX_NUM_SENSORS] is, the entry guard of
    [deepdive_data_light] lets [sensor = MAX_NUM_SENSORS] through. With 32
    sensors and a lighthouse sweeping, [handle_sweep] then indexes
    [sweep_len] at 32, one element past its end; index 31 is stored in
    bounds. *)
Theorem C10_guard_admits_sensor_at_bound :
  (forall MAX_NUM_SENSORS : Z, accepted MAX_NUM_SENSORS MAX_NUM_SENSORS 100 = true) /\
  (forall sync, deepdive_data_light 32 2 sync idle_lcd 5000 32 100 = OutOfBounds 32) /\
  (forall sync, exists lcd',
      deepdive_data_light 32 2 sync idle_lcd 5000 31 100 = Done lcd' /\
      nth_error (sweep_len (sweep lcd')) 31 = Some 100%Z).
Proof.
  split; [|split].
  - intro M; apply guard_accepts_bound; lia.
  - intro sync; reflexivity.
  - intro sync; eexists; split; reflexivity.
Qed.

End DataLightFacts.
(** ** The OOTX decoder *)

Module OotxFacts.
Import Machine Ootx.
Local Open Scope Z_scope.

(** *** Checking a property on every value of a fixed-width integer *)

Lemma all_from_spec (p : Z -> bool) (n : nat) (x0 : Z) :
  all_from p n x0 = true ->
  forall x, x0 <= x < x0 + Z.of_nat n -> p x = true.
Proof.
  revert x0; induction n as [|n IH]; intros x0 H x Hx; [lia|].
  simpl in H; apply andb_prop in H; destruct H as [H0 H1].
  destruct (Z.eq_dec x x0) as [->|Hne]; [exact H0|].
  apply (IH (x0 + 1) H1); lia.
Qed.

Lemma all_below (p : Z -> bool) (n : Z) :
  all_from p (Z.to_nat n) 0 = true -> forall x, 0 <= x < n -> p x = true.
Proof. intros H x Hx; apply (@all_from_spec p (Z.to_nat n) 0 H); lia. Qed.

(** *** Bits of integers *)

Lemma testbit_b2z (b : bool) (i : Z) :
  Z.testbit (Z.b2z b) i = b && (i =? 0).
Proof.
  destruct (Z.eqb_spec i 0) as [->|Hi].
  - rewrite Z.b2z_bit0; destruct b; reflexivity.
  - rewrite andb_false_r.
    destruct (Z.lt_trichotomy i 0) as [Hn|[?|Hp]]; [|lia|].
    + apply Z.testbit_neg_r; exact Hn.
    + destruct b; [|apply Z.bits_0].
      apply Z.bits_above_log2; simpl; lia.
Qed.

(** A value below [2^n] under the multiples of [2^n]: [|] is [+]. *)
Lemma lor_shiftl_add (hi lo n : Z) :
  0 <= n -> 0 <= lo < 2 ^ n -> Z.lor (hi * 2 ^ n) lo = hi * 2 ^ n + lo.
Proof.
  intros Hn Hlo.
  assert (Hd : Z.land (hi * 2 ^ n) lo = 0).
  { rewrite <- (Z.mod_small lo (2 ^ n)) by lia.
    rewrite <- Z.land_ones by lia.
    rewrite Z.land_assoc, (Z.land_comm (hi * 2 ^ n)), <- Z.land_assoc.
    rewrite (Z.land_ones (hi * 2 ^ n)) by lia.
    rewrite Z.mod_mul by lia. apply Z.land_0_r. }
  rewrite <- Z.lxor_lor by exact Hd.
  symmetry; apply Z.add_nocarry_lxor; exact Hd.
Qed.

(** The mask of [k] ones at bit [n] takes the [k] bits from bit [n]. *)
Lemma land_mask (a n k : Z) :
  0 <= n -> 0 <= k ->
  Z.land a ((2 ^ k - 1) * 2 ^ n) = ((a / 2 ^ n) mod 2 ^ k) * 2 ^ n.
Proof.
  intros Hn Hk.
  rewrite <- Z.land_ones, <- Z.shiftr_div_pow2, <- !Z.shiftl_mul_pow2 by lia.
  replace (2 ^ k - 1) with (Z.ones k) by (rewrite Z.ones_equiv; lia).
  apply Z.bits_inj'; intros i Hi.
  rewrite Z.land_spec, !Z.shiftl_spec, Z.land_spec by lia.
  destruct (Z.lt_ge_cases i n) as [Hlt|Hge].
  - rewrite !(Z.testbit_neg_r _ (i - n)) by lia.
    rewrite andb_false_r; reflexivity.
  - rewrite Z.shiftr_spec by lia.
    replace (i - n + n) with i by lia; reflexivity.
Qed.

Lemma byte_range (i x : Z) : 0 <= byte i x < 2 ^ 8.
Proof. unfold byte; apply Z.mod_pos_bound; lia. Qed.

(** *** [swaps] and [swapl] *)

Lemma swaps_bytes (val : Z) : swaps val = byte 0 val * 2 ^ 8 + byte 1 val.
Proof.
  unfold swaps.
  change 0xff00 with ((2 ^ 8 - 1) * 2 ^ 8).
  change 0x00ff with ((2 ^ 8 - 1) * 2 ^ 0).
  rewrite !land_mask by lia.
  rewrite Z.shiftl_mul_pow2, Z.shiftr_div_pow2 by lia.
  rewrite Z.div_mul by lia.
  rewrite Z.pow_0_r, Z.mul_1_r, Z.div_1_r.
  rewrite lor_shiftl_add by (try lia; apply Z.mod_pos_bound; lia).
  unfold byte; simpl (8 * _); rewrite Z.pow_0_r, Z.div_1_r; reflexivity.
Qed.

(** The digits of a number written in base 256. *)
Lemma byte_0_digits (c0 c : Z) : 0 <= c0 < 2 ^ 8 -> byte 0 (c0 + 2 ^ 8 * c) = c0.
Proof.
  intro H0; unfold byte; simpl (8 * 0); rewrite Z.pow_0_r, Z.div_1_r.
  rewrite Z.mul_comm, Z.mod_add by lia. apply Z.mod_small; lia.
Qed.

Lemma byte_S_digits (i c0 c : Z) :
  0 <= i -> 0 <= c0 < 2 ^ 8 -> byte (i + 1) (c0 + 2 ^ 8 * c) = byte i c.
Proof.
  intros Hi H0; unfold byte.
  assert (Hp : 0 < 2 ^ (8 * i)) by (apply Z.pow_pos_nonneg; lia).
  replace (8 * (i + 1)) with (8 + 8 * i) by lia.
  rewrite Z.pow_add_r by lia. rewrite <- Z.div_div by lia.
  rewrite (Z.mul_comm (2 ^ 8)), Z.div_add by lia.
  rewrite (Z.div_small c0) by lia. reflexivity.
Qed.

Lemma digits16 (x : Z) :
  0 <= x < 2 ^ 16 -> x = byte 0 x + 2 ^ 8 * byte 1 x.
Proof.
  intro Hx; unfold byte; simpl (8 * _). rewrite Z.pow_0_r, Z.div_1_r.
  rewrite (Z.mod_small (x / 2 ^ 8)).
  - rewrite Z.add_comm; apply Z.div_mod; lia.
  - split; [apply Z.div_pos; lia|apply Z.div_lt_upper_bound; lia].
Qed.

Lemma digits32 (x : Z) :
  0 <= x < 2 ^ 32 ->
  x = byte 0 x + 2 ^ 8 * (byte 1 x + 2 ^ 8 * (byte 2 x + 2 ^ 8 * byte 3 x)).
Proof.
  intro Hx; unfold byte; simpl (8 * _). rewrite Z.pow_0_r, Z.div_1_r.
  change (2 ^ 16) with (2 ^ 8 * 2 ^ 8). change (2 ^ 24) with (2 ^ 8 * 2 ^ 8 * 2 ^ 8).
  rewrite <- !Z.div_div by lia.
  set (q1 := x / 2 ^ 8). set (q2 := q1 / 2 ^ 8). set (q3 := q2 / 2 ^ 8).
  assert (H1 : x = 2 ^ 8 * q1 + x mod 2 ^ 8) by (apply Z.div_mod; lia).
  assert (H2 : q1 = 2 ^ 8 * q2 + q1 mod 2 ^ 8) by (apply Z.div_mod; lia).
  assert (H3 : q2 = 2 ^ 8 * q3 + q2 mod 2 ^ 8) by (apply Z.div_mod; lia).
  assert (B1 := Z.mod_pos_bound x (2 ^ 8) ltac:(lia)).
  assert (B2 := Z.mod_pos_bound q1 (2 ^ 8) ltac:(lia)).
  assert (B3 := Z.mod_pos_bound q2 (2 ^ 8) ltac:(lia)).
  rewrite (Z.mod_small q3); lia.
Qed.

Lemma byte_0_small (c : Z) : 0 <= c < 2 ^ 8 -> byte 0 c = c.
Proof.
  intro H; unfold byte; simpl (8 * 0); rewrite Z.pow_0_r, Z.div_1_r.
  apply Z.mod_small; lia.
Qed.

Lemma byte_digits2 (c0 c1 : Z) :
  0 <= c0 < 2 ^ 8 -> 0 <= c1 < 2 ^ 8 ->
  byte 0 (c0 + 2 ^ 8 * c1) = c0 /\ byte 1 (c0 + 2 ^ 8 * c1) = c1.
Proof.
  intros H0 H1; split; [apply byte_0_digits; exact H0|].
  change 1 with (0 + 1).
  rewrite byte_S_digits by lia. apply byte_0_small; exact H1.
Qed.

Lemma byte_digits4 (c0 c1 c2 c3 : Z) :
  0 <= c0 < 2 ^ 8 -> 0 <= c1 < 2 ^ 8 -> 0 <= c2 < 2 ^ 8 -> 0 <= c3 < 2 ^ 8 ->
  let x := c0 + 2 ^ 8 * (c1 + 2 ^ 8 * (c2 + 2 ^ 8 * c3)) in
  byte 0 x = c0 /\ byte 1 x = c1 /\ byte 2 x = c2 /\ byte 3 x = c3.
Proof.
  intros H0 H1 H2 H3 x; unfold x.
  split; [apply byte_0_digits; exact H0|].
  split; [change 1 with (0 + 1); rewrite byte_S_digits by lia;
          apply byte_0_digits; exact H1|].
  split.
  - change 2 with (0 + 1 + 1); rewrite !byte_S_digits by lia.
    apply byte_0_digits; exact H2.
  - change 3 with (0 + 1 + 1 + 1); rewrite !byte_S_digits by lia.
    apply byte_0_small; exact H3.
Qed.

(** X4: [swaps] exchanges the two bytes of a 16-bit value, so applying it
    twice gives the value back. *)
Theorem swaps_exchanges_bytes (val : Z) :
  0 <= val < 2 ^ 16 ->
  swaps val = 2 ^ 8 * byte 0 val + byte 1 val /\
  0 <= swaps val < 2 ^ 16 /\
  swaps (swaps val) = val.
Proof.
  intro Hv.
  assert (B0 := byte_range 0 val). assert (B1 := byte_range 1 val).
  assert (E : swaps val = byte 1 val + 2 ^ 8 * byte 0 val)
    by (rewrite swaps_bytes; lia).
  split; [lia|]. split; [lia|].
  rewrite swaps_bytes.
  rewrite E.
  destruct (byte_digits2 B1 B0) as [-> ->].
  rewrite (digits16 Hv) at 3; lia.
Qed.

Lemma swaps_exchanges_bytes_witness :
  swaps 0x1234 = 2 ^ 8 * byte 0 0x1234 + byte 1 0x1234 /\
  0 <= swaps 0x1234 < 2 ^ 16 /\
  swaps (swaps 0x1234) = 0x1234.
Proof. apply swaps_exchanges_bytes; lia. Defined.

Lemma lor_4 (a b c d : Z) :
  Z.lor (Z.lor (Z.lor a b) c) d = Z.lor d (Z.lor b (Z.lor c a)).
Proof.
  apply Z.bits_inj'; intros n _; rewrite !Z.lor_spec.
  destruct (Z.testbit a n), (Z.testbit b n), (Z.testbit c n), (Z.testbit d n);
    reflexivity.
Qed.

Lemma swapl_bytes (val : Z) :
  0 <= val < 2 ^ 32 ->
  swapl val = byte 3 val + 2 ^ 8 * (byte 2 val + 2 ^ 8 * (byte 1 val + 2 ^ 8 * byte 0 val)).
Proof.
  intro Hv; unfold swapl.
  change 0x000000ff with ((2 ^ 8 - 1) * 2 ^ 0).
  change 0x00ff0000 with ((2 ^ 8 - 1) * 2 ^ 16).
  change 0x0000ff00 with ((2 ^ 8 - 1) * 2 ^ 8).
  change 0xff000000 with ((2 ^ 8 - 1) * 2 ^ 24).
  rewrite !land_mask by lia.
  rewrite !Z.shiftl_mul_pow2, !Z.shiftr_div_pow2 by lia.
  assert (E3 : (val / 2 ^ 24 / 2 ^ 0) mod 2 ^ 8 * 2 ^ 0 = byte 3 val)
    by (rewrite Z.pow_0_r, Z.div_1_r, Z.mul_1_r; reflexivity).
  assert (E1 : (val * 2 ^ 8 / 2 ^ 16) mod 2 ^ 8 = byte 1 val).
  { unfold byte; f_equal.
    change (2 ^ 16) with (2 ^ 8 * 2 ^ 8).
    rewrite Z.div_mul_cancel_r by lia; reflexivity. }
  assert (E2 : (val / 2 ^ 8 / 2 ^ 8) mod 2 ^ 8 = byte 2 val)
    by (rewrite Z.div_div by lia; reflexivity).
  assert (E0 : (val * 2 ^ 24 / 2 ^ 24) mod 2 ^ 8 = byte 0 val).
  { rewrite Z.div_mul by lia. unfold byte.
    simpl (8 * 0); rewrite Z.pow_0_r, Z.div_1_r; reflexivity. }
  rewrite E3, E2, E1, E0, lor_4.
  assert (B0 := byte_range 0 val). assert (B1 := byte_range 1 val).
  assert (B2 := byte_range 2 val). assert (B3 := byte_range 3 val).
  rewrite (lor_shiftl_add (byte 2 val) (n := 8)) by lia.
  rewrite (lor_shiftl_add (byte 1 val) (n := 16)) by lia.
  rewrite (lor_shiftl_add (byte 0 val) (n := 24)) by lia.
  lia.
Qed.

(** X5: [swapl] reverses the four bytes of a 32-bit value, so applying it
    twice gives the value back. *)
Theorem swapl_reverses_bytes (val : Z) :
  0 <= val < 2 ^ 32 ->
  map (fun i => byte i (swapl val)) [0; 1; 2; 3]
    = map (fun i => byte i val) [3; 2; 1; 0] /\
  0 <= swapl val < 2 ^ 32 /\
  swapl (swapl val) = val.
Proof.
  intro Hv.
  assert (B0 := byte_range 0 val). assert (B1 := byte_range 1 val).
  assert (B2 := byte_range 2 val). assert (B3 := byte_range 3 val).
  assert (E := swapl_bytes Hv).
  destruct (byte_digits4 B3 B2 B1 B0) as (D0 & D1 & D2 & D3).
  rewrite <- E in D0, D1, D2, D3.
  assert (R : 0 <= swapl val < 2 ^ 32) by lia.
  split; [simpl; rewrite D0, D1, D2, D3; reflexivity|].
  split; [exact R|].
  rewrite (swapl_bytes R), D0, D1, D2, D3.
  rewrite (digits32 Hv) at 5; reflexivity.
Qed.

Lemma swapl_reverses_bytes_witness :
  map (fun i => byte i (swapl 0x12345678)) [0; 1; 2; 3]
    = map (fun i => byte i 0x12345678) [3; 2; 1; 0] /\
  0 <= swapl 0x12345678 < 2 ^ 32 /\
  swapl (swapl 0x12345678) = 0x12345678.
Proof. apply swapl_reverses_bytes; lia. Defined.

(** *** [convert_float] *)

Lemma same_datum_b_true (a b : ieee) : same_datum_b a b = true -> same_datum a b.
Proof.
  destruct a as [s q|s|], b as [s' q'|s'|]; simpl; try discriminate; try tauto.
  - intro H; apply andb_prop in H; destruct H as [Hs Hq]; split.
    + apply Bool.eqb_prop; exact Hs.
    + apply Qeq_bool_iff; exact Hq.
  - apply Bool.eqb_prop.
Qed.

Lemma converted_all : all_from converted (Z.to_nat (2 ^ 16)) 0 = true.
Proof. vm_compute; reflexivity. Qed.

Lemma converted_datum (x : Z) :
  0 <= x < 2 ^ 16 ->
  exists bits,
    convert_float (bytes16 x) = Returns bits /\
    0 <= bits < 2 ^ 32 /\
    same_datum (binary16 x) (binary32 bits).
Proof.
  intro Hx.
  assert (H := @all_below converted (2 ^ 16) converted_all x Hx).
  unfold converted in H.
  destruct (convert_float (bytes16 x)) as [bits| |]; try discriminate.
  apply andb_prop in H; destruct H as [H Hd].
  apply andb_prop in H; destruct H as [H0 H1].
  exists bits; split; [reflexivity|]; split; [lia|].
  apply same_datum_b_true; exact Hd.
Qed.

(** [convert_float] reads two bytes. *)
Lemma convert_float_two_bytes (data : list Z) :
  0 <= uint8_at data 0 < 2 ^ 8 -> 0 <= uint8_at data 1 < 2 ^ 8 ->
  convert_float data = convert_float (bytes16 (uint16_at data 0)).
Proof.
  intros H0 H1.
  assert (E : uint16_at (bytes16 (uint16_at data 0)) 0 = uint16_at data 0).
  { unfold uint16_at at 1. unfold bytes16, uint8_at at 1 2. simpl nth.
    symmetry; apply digits16. unfold uint16_at. simpl (0 + 1)%nat. lia. }
  unfold convert_float. rewrite E. reflexivity.
Qed.

(** X6: [convert_float] returns on each of the 65536 half-precision data,
    with the bits of the single-precision datum of the same value: the same
    sign and magnitude for zeros, denormalised and normalised numbers, the
    infinity of the same sign, and a NaN for a NaN. Whatever follows the two
    bytes is not read. *)
Theorem convert_float_keeps_datum (x : Z) (rest : list Z) :
  0 <= x < 2 ^ 16 ->
  exists bits,
    convert_float (bytes16 x ++ rest) = Returns bits /\
    0 <= bits < 2 ^ 32 /\
    same_datum (binary16 x) (binary32 bits).
Proof.
  intro Hx.
  change (convert_float (bytes16 x ++ rest)) with (convert_float (bytes16 x)).
  apply converted_datum; exact Hx.
Qed.

Lemma convert_float_keeps_datum_witness :
  exists bits,
    convert_float (bytes16 0x3c00 ++ [0x12]) = Returns bits /\
    0 <= bits < 2 ^ 32 /\
    same_datum (binary16 0x3c00) (binary32 bits).
Proof. apply convert_float_keeps_datum; lia. Defined.

(** *** The decoder *)

Lemma upd_length {A : Type} (i : nat) (x : A) (l : list A) :
  List.length (upd i x l) = List.length l.
Proof.
  revert i; induction l as [|y l IH]; intros [|i]; simpl; try reflexivity.
  rewrite IH; reflexivity.
Qed.

Lemma upd_app {A : Type} (l1 l2 : list A) (x y : A) :
  upd (List.length l1) x (l1 ++ y :: l2) = l1 ++ x :: l2.
Proof. induction l1 as [|z l1 IH]; simpl; [reflexivity|rewrite IH; reflexivity]. Qed.

Lemma nth_error_middle {A : Type} (l1 l2 : list A) (y : A) :
  nth_error (l1 ++ y :: l2) (List.length l1) = Some y.
Proof. induction l1 as [|z l1 IH]; simpl; [reflexivity|exact IH]. Qed.

Lemma load_middle {A : Type} (array : Array) (l1 l2 : list A) (y : A) :
  load array (l1 ++ y :: l2) (Z.of_nat (List.length l1)) = Returns y.
Proof.
  unfold load. destruct (Z.ltb_spec (Z.of_nat (List.length l1)) 0); [lia|].
  rewrite Nat2Z.id, nth_error_middle; reflexivity.
Qed.

Lemma store_middle {A : Type} (array : Array) (l1 l2 : list A) (x y : A) :
  store array (l1 ++ y :: l2) (Z.of_nat (List.length l1)) x = Returns (l1 ++ x :: l2).
Proof.
  unfold store. destruct (Z.ltb_spec (Z.of_nat (List.length l1)) 0); [lia|].
  rewrite Nat2Z.id, upd_app.
  destruct (Nat.ltb_spec (List.length l1) (List.length (l1 ++ y :: l2))) as [_|Hl];
    [reflexivity|].
  rewrite length_app in Hl; simpl in Hl; lia.
Qed.

Lemma zeros_range (bits : list bool) (p : Z) :
  0 <= p -> 0 <= zeros p bits <= p + Z.of_nat (List.length bits).
Proof.
  revert p; induction bits as [|b bits IH]; intros p Hp; simpl zeros.
  - simpl; lia.
  - change (List.length (b :: bits)) with (S (List.length bits)).
    destruct b; [specialize (IH 0)|specialize (IH (p + 1))]; lia.
Qed.

Lemma zeros_app (bits1 bits2 : list bool) (p : Z) :
  zeros p (bits1 ++ bits2) = zeros (zeros p bits1) bits2.
Proof. revert p; induction bits1 as [|b bits1 IH]; intro p; simpl; [reflexivity|apply IH]. Qed.

Lemma shift_in_app (bits1 bits2 : list bool) (w top : Z) :
  shift_in w top (bits1 ++ bits2)
  = shift_in (shift_in w top bits1) (top - Z.of_nat (List.length bits1)) bits2.
Proof.
  revert w top; induction bits1 as [|b bits1 IH]; intros w top.
  - simpl; rewrite Z.sub_0_r; reflexivity.
  - change (List.length (b :: bits1)) with (S (List.length bits1)).
    simpl; rewrite IH; f_equal; lia.
Qed.

(** Eight bits shifted in above nothing are the byte, moved. *)
Lemma shift_in_byte_0 (b : Z) :
  0 <= b < 2 ^ 8 -> shift_in 0 7 (bits8 b) = b.
Proof.
  intro H; apply Z.eqb_eq.
  apply (@all_below (fun b => shift_in 0 7 (bits8 b) =? b) (2 ^ 8));
    [vm_compute; reflexivity|exact H].
Qed.

Lemma shift_in_lor (bits : list bool) (w top : Z) :
  shift_in w top bits = Z.lor w (shift_in 0 top bits).
Proof.
  revert w top; induction bits as [|b bits IH]; intros w top; simpl.
  - rewrite Z.lor_0_r; reflexivity.
  - rewrite IH, (IH (Z.shiftl (Z.b2z b) top)), Z.lor_assoc; reflexivity.
Qed.

Lemma shift_in_shiftl (bits : list bool) (top k : Z) :
  Z.of_nat (List.length bits) - 1 <= top -> 0 <= k ->
  shift_in 0 (top + k) bits = Z.shiftl (shift_in 0 top bits) k.
Proof.
  revert top; induction bits as [|b bits IH]; intros top Ht Hk.
  - simpl; rewrite Z.shiftl_0_l; reflexivity.
  - change (List.length (b :: bits)) with (S (List.length bits)) in Ht.
    simpl. rewrite shift_in_lor, (shift_in_lor bits (Z.shiftl _ top)).
    rewrite Z.shiftl_lor, Z.shiftl_shiftl by lia.
    replace (top + k - 1) with (top - 1 + k) by lia.
    rewrite IH by lia; reflexivity.
Qed.

Lemma shift_in_bits8 (b w top : Z) :
  shift_in (Z.lor w (Z.shiftl (Z.b2z (Z.testbit b 7)) top)) (top - 1)
           (map (Z.testbit b) [6; 5; 4; 3; 2; 1; 0])
  = shift_in w top (bits8 b).
Proof. reflexivity. Qed.

(** A byte shifted in below what is there. *)
Lemma shift_in_byte (b w top : Z) :
  0 <= b < 2 ^ 8 -> 7 <= top ->
  shift_in w top (bits8 b) = Z.lor w (b * 2 ^ (top - 7)).
Proof.
  intros Hb Ht.
  rewrite shift_in_lor. replace top with (7 + (top - 7)) at 1 by lia.
  rewrite shift_in_shiftl by (simpl; lia).
  rewrite shift_in_byte_0 by exact Hb.
  rewrite Z.shiftl_mul_pow2 by lia; reflexivity.
Qed.

Section DecoderFacts.
Variable PREAMBLE_LENGTH : Z.
Variable MAX_PACKET_LEN : nat.
Variable crc32 : list Z -> Z.

Local Abbreviation feed := (Ootx.feed PREAMBLE_LENGTH MAX_PACKET_LEN crc32).
Local Abbreviation feed_all := (Ootx.feed_all PREAMBLE_LENGTH MAX_PACKET_LEN crc32).

Lemma feed_all_app (bits1 bits2 : list bool) (ctx : OOTX) :
  feed_all ctx (bits1 ++ bits2)
  = (r <- feed_all ctx bits1 ;;
     r' <- feed_all (fst r) bits2 ;;
     Returns (fst r', snd r ++ snd r'))%M.
Proof.
  revert ctx; induction bits1 as [|b bits1 IH]; intro ctx.
  - simpl. destruct (feed_all ctx bits2) as [[c ps]| |]; reflexivity.
  - simpl. destruct (feed ctx b) as [[c p]| |]; simpl; try reflexivity.
    rewrite IH. destruct (feed_all c bits1) as [[c1 ps1]| |]; simpl; try reflexivity.
    destruct (feed_all c1 bits2) as [[c2 ps2]| |]; simpl; try reflexivity.
    destruct p; reflexivity.
Qed.

Lemma feed_all_cons (b : bool) (bits : list bool) (ctx : OOTX) :
  feed_all ctx (b :: bits)
  = (r <- feed ctx b ;;
     r' <- feed_all (fst r) bits ;;
     Returns (fst r', match snd r with
                      | Some packet => packet :: snd r'
                      | None => snd r'
                      end))%M.
Proof. reflexivity. Qed.

(** Two streams in a row, each returning. *)
Lemma feed_all_then (bits1 bits2 : list bool) (ctx c1 c2 : OOTX)
      (ps1 ps2 : list (list Z)) :
  feed_all ctx bits1 = Returns (c1, ps1) ->
  feed_all c1 bits2 = Returns (c2, ps2) ->
  feed_all ctx (bits1 ++ bits2) = Returns (c2, ps1 ++ ps2).
Proof. intros H1 H2; rewrite feed_all_app, H1; simpl; rewrite H2; reflexivity. Qed.

(** **** Waiting for the preamble *)

Lemma feed_all_zeros (n : nat) (ctx : OOTX) :
  state ctx = PREAMBLE ->
  feed_all ctx (repeat false n)
  = Returns (set_preamble (preamble ctx + Z.of_nat n) ctx, []).
Proof.
  revert ctx; induction n as [|n IH]; intros ctx Hs.
  - simpl. destruct ctx; unfold set_preamble; simpl. rewrite Z.add_0_r; reflexivity.
  - change (repeat false (S n)) with (false :: repeat false n).
    simpl Ootx.feed_all. unfold Ootx.feed at 1.
    simpl (false && _). cbv iota. cbv zeta.
    replace (state (set_preamble (preamble ctx + 1) ctx)) with PREAMBLE
      by (symmetry; exact Hs).
    simpl. rewrite IH by exact Hs. simpl.
    destruct ctx; unfold set_preamble; simpl. do 3 f_equal. lia.
Qed.

Lemma feed_mark (ctx : OOTX) :
  PREAMBLE_LENGTH <= preamble ctx ->
  feed ctx true
  = Returns ({| state := LENGTH; data := data ctx; length := 0; pad := pad ctx;
                pos := 0; syn := 0; crc := crc ctx; preamble := 0;
                lighthouse := lighthouse ctx |}, None).
Proof.
  intro Hp; unfold Ootx.feed.
  destruct (Z.leb_spec PREAMBLE_LENGTH (preamble ctx)); [reflexivity|lia].
Qed.

(** **** The length *)

Lemma feed_length_bit (d : list Z) (w pd ps s c p : Z) (lh : option nat) (b : bool) :
  p < PREAMBLE_LENGTH -> s <> 16 ->
  feed {| state := LENGTH; data := d; length := w; pad := pd; pos := ps;
          syn := s; crc := c; preamble := p; lighthouse := lh |} b
  = Returns ({| state := LENGTH; data := d;
                length := Z.lor w (Z.shiftl (Z.b2z b) (15 - s)); pad := pd;
                pos := ps; syn := s + 1; crc := c;
                preamble := (if b then 0 else p + 1); lighthouse := lh |}, None).
Proof.
  intros Hp Hs; unfold Ootx.feed; cbn [preamble state syn length set_preamble].
  destruct (Z.leb_spec PREAMBLE_LENGTH p); [lia|]. rewrite andb_false_r.
  destruct (Z.eqb_spec s 16); [lia|]. reflexivity.
Qed.

Lemma feed_all_length_bits (bits : list bool) (d : list Z) (w pd ps s c p : Z)
      (lh : option nat) :
  0 <= p -> p + Z.of_nat (List.length bits) <= PREAMBLE_LENGTH ->
  s + Z.of_nat (List.length bits) <= 16 ->
  feed_all {| state := LENGTH; data := d; length := w; pad := pd; pos := ps;
              syn := s; crc := c; preamble := p; lighthouse := lh |} bits
  = Returns ({| state := LENGTH; data := d; length := shift_in w (15 - s) bits;
                pad := pd; pos := ps; syn := s + Z.of_nat (List.length bits);
                crc := c; preamble := zeros p bits; lighthouse := lh |}, []).
Proof.
  revert w s p; induction bits as [|b bits IH]; intros w s p Hp0 Hp Hs.
  - simpl. rewrite Z.add_0_r; reflexivity.
  - change (List.length (b :: bits)) with (S (List.length bits)) in *.
    rewrite feed_all_cons, feed_length_bit by lia. cbn [bind fst snd].
    rewrite IH by (destruct b; lia). cbn [bind fst snd shift_in zeros].
    replace (15 - (s + 1)) with (15 - s - 1) by lia.
    replace (s + 1 + Z.of_nat (List.length bits))
      with (s + Z.of_nat (S (List.length bits))) by lia.
    reflexivity.
Qed.

Lemma feed_length_sync (d : list Z) (w pd ps c p : Z) (lh : option nat) :
  p < PREAMBLE_LENGTH ->
  feed {| state := LENGTH; data := d; length := w; pad := pd; pos := ps;
          syn := 16; crc := c; preamble := p; lighthouse := lh |} true
  = Returns (if swaps w + Z.rem (swaps w) 2 <=? Z.of_nat MAX_PACKET_LEN then
               {| state := PAYLOAD; data := memset d; length := swaps w;
                  pad := Z.rem (swaps w) 2; pos := 0; syn := 0; crc := c;
                  preamble := 0; lighthouse := lh |}
             else
               {| state := PREAMBLE; data := d; length := swaps w;
                  pad := Z.rem (swaps w) 2; pos := ps; syn := 16; crc := c;
                  preamble := 0; lighthouse := lh |}, None).
Proof.
  intro Hp; unfold Ootx.feed; cbn.
  destruct (Z.leb_spec PREAMBLE_LENGTH p); [lia|].
  destruct (_ <=? Z.of_nat MAX_PACKET_LEN); reflexivity.
Qed.

(** **** The payload *)

Lemma rem_8 (base s : Z) :
  base = 0 \/ base = 8 -> base <= s < base + 8 -> Z.rem s 8 = s - base.
Proof.
  intros Hb Hs.
  destruct Hb as [->| ->]; rewrite Z.rem_mod_nonneg by lia; symmetry.
  - apply (Z.mod_unique s 8 0); lia.
  - apply (Z.mod_unique s 8 1); lia.
Qed.

Lemma feed_payload_bit (l1 l2 : list Z) (y len pd s c p : Z) (lh : option nat)
      (b : bool) :
  p < PREAMBLE_LENGTH -> s <> 8 -> s <> 16 ->
  feed {| state := PAYLOAD; data := l1 ++ y :: l2; length := len; pad := pd;
          pos := Z.of_nat (List.length l1); syn := s; crc := c; preamble := p;
          lighthouse := lh |} b
  = Returns ({| state := PAYLOAD;
                data := l1 ++ Z.lor y (Z.shiftl (Z.b2z b) (7 - Z.rem s 8)) :: l2;
                length := len; pad := pd; pos := Z.of_nat (List.length l1);
                syn := s + 1; crc := c; preamble := (if b then 0 else p + 1);
                lighthouse := lh |}, None).
Proof.
  intros Hp H8 H16; unfold Ootx.feed.
  cbn [preamble state syn length pos pad data set_preamble set_pos set_data set_syn].
  destruct (Z.leb_spec PREAMBLE_LENGTH p); [lia|]. rewrite andb_false_r.
  apply Z.eqb_neq in H8, H16. rewrite H8, H16.
  cbn [orb andb preamble state syn length pos pad data crc lighthouse
       set_preamble set_pos set_data set_syn].
  rewrite H16, load_middle. cbn [bind]. rewrite store_middle. reflexivity.
Qed.

Lemma feed_all_payload_bits (base : Z) (bits : list bool) (l1 l2 : list Z)
      (y len pd s c p : Z) (lh : option nat) :
  base = 0 \/ base = 8 ->
  0 <= p -> p + Z.of_nat (List.length bits) <= PREAMBLE_LENGTH ->
  base <= s -> s + Z.of_nat (List.length bits) <= base + 8 ->
  s <> 8 \/ bits = [] ->
  feed_all {| state := PAYLOAD; data := l1 ++ y :: l2; length := len; pad := pd;
              pos := Z.of_nat (List.length l1); syn := s; crc := c; preamble := p;
              lighthouse := lh |} bits
  = Returns ({| state := PAYLOAD;
                data := l1 ++ shift_in y (7 - (s - base)) bits :: l2;
                length := len; pad := pd; pos := Z.of_nat (List.length l1);
                syn := s + Z.of_nat (List.length bits); crc := c;
                preamble := zeros p bits; lighthouse := lh |}, []).
Proof.
  intro Hb; revert y s p; induction bits as [|b bits IH]; intros y s p Hp0 Hp Hlo Hhi H8.
  - simpl. rewrite Z.add_0_r; reflexivity.
  - change (List.length (b :: bits)) with (S (List.length bits)) in *.
    assert (s <> 8) by (destruct H8 as [?|?]; [assumption|discriminate]).
    rewrite feed_all_cons, feed_payload_bit by lia. cbn [bind fst snd].
    rewrite IH; try lia.
    + cbn [bind fst snd shift_in zeros].
      rewrite (@rem_8 base s Hb) by lia.
      replace (7 - (s + 1 - base)) with (7 - (s - base) - 1) by lia.
      replace (s + 1 + Z.of_nat (List.length bits))
        with (s + Z.of_nat (S (List.length bits))) by lia.
      reflexivity.
    + destruct b; lia.
    + destruct b; lia.
    + destruct bits; [right; reflexivity|left].
      change (List.length (_ :: bits)) with (S (List.length bits)) in *. lia.
Qed.

Lemma feed_payload_8 (l1 l2 : list Z) (y len pd ps c p : Z) (lh : option nat)
      (b : bool) :
  p < PREAMBLE_LENGTH -> ps + 1 = Z.of_nat (List.length l1) -> ps + 1 <> len + pd ->
  feed {| state := PAYLOAD; data := l1 ++ y :: l2; length := len; pad := pd;
          pos := ps; syn := 8; crc := c; preamble := p; lighthouse := lh |} b
  = Returns ({| state := PAYLOAD;
                data := l1 ++ Z.lor y (Z.shiftl (Z.b2z b) 7) :: l2;
                length := len; pad := pd; pos := ps + 1;
                syn := 9; crc := c; preamble := (if b then 0 else p + 1);
                lighthouse := lh |}, None).
Proof.
  intros Hp Hps Hend; unfold Ootx.feed.
  cbn [preamble state syn length pos pad data set_preamble set_pos set_data set_syn].
  destruct (Z.leb_spec PREAMBLE_LENGTH p); [lia|]. rewrite andb_false_r.
  change (8 =? 8) with true. change (8 =? 16) with false.
  cbn [orb andb preamble state syn length pos pad data crc lighthouse
       set_preamble set_pos set_data set_syn].
  destruct (Z.eqb_spec (ps + 1) (len + pd)); [lia|].
  rewrite Hps, load_middle. cbn [bind]. rewrite store_middle. reflexivity.
Qed.

Lemma feed_payload_sync (d : list Z) (len pd ps c p : Z) (lh : option nat) :
  p < PREAMBLE_LENGTH ->
  feed {| state := PAYLOAD; data := d; length := len; pad := pd;
          pos := ps; syn := 16; crc := c; preamble := p; lighthouse := lh |} true
  = Returns (if ps + 1 =? len + pd then
               {| state := CHECKSUM; data := d; length := len; pad := pd; pos := 0;
                  syn := 0; crc := 0; preamble := 0; lighthouse := lh |}
             else
               {| state := PAYLOAD; data := d; length := len; pad := pd;
                  pos := ps + 1; syn := 0; crc := c; preamble := 0;
                  lighthouse := lh |}, None).
Proof.
  intro Hp; unfold Ootx.feed.
  cbn [preamble state syn length pos pad data set_preamble set_pos set_data set_syn].
  destruct (Z.leb_spec PREAMBLE_LENGTH p); [lia|]. rewrite andb_false_r.
  change (16 =? 8) with false. change (16 =? 16) with true.
  cbn [orb andb preamble state syn length pos pad data crc lighthouse
       set_preamble set_pos set_data set_syn set_state set_crc].
  destruct (ps + 1 =? len + pd); reflexivity.
Qed.

Lemma bits8_length (b : Z) : List.length (bits8 b) = 8%nat.
Proof. reflexivity. Qed.

Lemma zeros_bits8 (b p : Z) : 0 <= p -> 0 <= zeros p (bits8 b) <= p + 8.
Proof. intro Hp; apply (zeros_range (bits8 b)) in Hp; rewrite bits8_length in Hp; lia. Qed.

(** Two bytes and their sync bit. *)
Lemma feed_all_payload_word (l1 l2 : list Z) (a b len pd c : Z) (lh : option nat) :
  16 < PREAMBLE_LENGTH ->
  0 <= a < 2 ^ 8 -> 0 <= b < 2 ^ 8 ->
  Z.of_nat (List.length l1) + 1 <> len + pd ->
  feed_all {| state := PAYLOAD; data := l1 ++ 0 :: 0 :: l2; length := len; pad := pd;
              pos := Z.of_nat (List.length l1); syn := 0; crc := c; preamble := 0;
              lighthouse := lh |} (bits8 a ++ bits8 b ++ [true])
  = Returns (if Z.of_nat (List.length l1) + 2 =? len + pd then
               {| state := CHECKSUM; data := l1 ++ a :: b :: l2; length := len;
                  pad := pd; pos := 0; syn := 0; crc := 0; preamble := 0;
                  lighthouse := lh |}
             else
               {| state := PAYLOAD; data := l1 ++ a :: b :: l2; length := len;
                  pad := pd; pos := Z.of_nat (List.length l1) + 2; syn := 0;
                  crc := c; preamble := 0; lighthouse := lh |}, []).
Proof.
  intros HP Ha Hb Hend.
  assert (Z1 := @zeros_bits8 a 0 (Z.le_refl 0)).
  rewrite feed_all_app.
  rewrite (@feed_all_payload_bits 0) by (rewrite ?bits8_length; lia).
  cbn [bind fst snd].
  change (bits8 b) with (Z.testbit b 7 :: map (Z.testbit b) [6; 5; 4; 3; 2; 1; 0]).
  rewrite <- app_comm_cons, feed_all_cons.
  rewrite bits8_length. change (0 + Z.of_nat 8) with 8.
  change (7 - (0 - 0)) with 7.
  rewrite shift_in_byte_0 by exact Ha.
  replace (l1 ++ a :: 0 :: l2) with ((l1 ++ [a]) ++ 0 :: l2)
    by (rewrite <- app_assoc; reflexivity).
  rewrite feed_payload_8; try lia.
  2: { rewrite length_app; simpl; lia. }
  cbn [bind fst snd].
  replace (Z.of_nat (List.length l1) + 1) with (Z.of_nat (List.length (l1 ++ [a])))
    by (rewrite length_app; simpl; lia).
  set (p1 := if Z.testbit b 7 then 0 else zeros 0 (bits8 a) + 1).
  assert (0 <= p1 <= 9) by (unfold p1; destruct (Z.testbit b 7); lia).
  rewrite feed_all_app.
  rewrite (@feed_all_payload_bits 8) by (simpl List.length; lia).
  cbn [bind fst snd].
  simpl List.length. change (9 + Z.of_nat 7) with 16.
  rewrite feed_all_cons.
  set (p2 := zeros p1 _).
  assert (0 <= p2 <= 16).
  { unfold p2. match goal with |- _ <= zeros _ ?l <= _ =>
      pose proof (@zeros_range l p1 ltac:(lia)) as Hz; simpl List.length in Hz end. lia. }
  rewrite feed_payload_sync by lia. cbn [bind fst snd Ootx.feed_all app].
  change (7 - (9 - 8)) with 6.
  change (shift_in (Z.lor 0 (Z.shiftl (Z.b2z (Z.testbit b 7)) 7)) 6
            (map (Z.testbit b) [6; 5; 4; 3; 2; 1; 0]))
    with (shift_in 0 7 (bits8 b)).
  rewrite shift_in_byte_0 by exact Hb.
  rewrite length_app; simpl List.length.
  replace (Z.of_nat (List.length l1 + 1) + 1) with (Z.of_nat (List.length l1) + 2) by lia.
  rewrite <- app_assoc. simpl app.
  destruct (_ =? _); reflexivity.
Qed.

Lemma words_cons (a b : Z) (rest : list Z) :
  words (a :: b :: rest) = (bits8 a ++ bits8 b ++ [true]) ++ words rest.
Proof. simpl words. rewrite <- !app_assoc. reflexivity. Qed.

(** The whole payload, two bytes at a time, into a buffer of zeros. *)
Lemma feed_all_payload_words (k : nat) :
  forall (bytes done : list Z) (r : nat) (len pd c : Z) (lh : option nat),
  16 < PREAMBLE_LENGTH ->
  List.length bytes = (2 * S k)%nat ->
  Forall (fun b => 0 <= b < 2 ^ 8) bytes ->
  Z.of_nat (List.length done) + Z.of_nat (List.length bytes) = len + pd ->
  (List.length bytes <= r)%nat ->
  feed_all {| state := PAYLOAD; data := done ++ repeat 0 r; length := len;
              pad := pd; pos := Z.of_nat (List.length done); syn := 0; crc := c;
              preamble := 0; lighthouse := lh |} (words bytes)
  = Returns ({| state := CHECKSUM;
                data := done ++ bytes ++ repeat 0 (r - List.length bytes);
                length := len; pad := pd; pos := 0; syn := 0; crc := 0;
                preamble := 0; lighthouse := lh |}, []).
Proof.
  induction k as [|k IH]; intros bytes done r len pd c lh HP Hlen Hbytes Hend Hr.
  - destruct bytes as [|a [|b [|? ?]]]; try discriminate.
    destruct r as [|[|r]]; simpl in Hr; try lia.
    inversion Hbytes as [|? ? Ha Hb']; subst. inversion Hb' as [|? ? Hb _]; subst.
    rewrite words_cons, feed_all_app. simpl repeat.
    simpl List.length in Hend.
    rewrite feed_all_payload_word by (try assumption; lia).
    cbn [bind fst snd].
    destruct (Z.eqb_spec (Z.of_nat (List.length done) + 2) (len + pd)); [|lia].
    simpl. rewrite Nat.sub_0_r. reflexivity.
  - destruct bytes as [|a [|b rest]]; try discriminate.
    destruct r as [|[|r]]; simpl in Hr; try lia.
    inversion Hbytes as [|? ? Ha Hb']; subst. inversion Hb' as [|? ? Hb Hrest]; subst.
    rewrite words_cons, feed_all_app. simpl repeat.
    change (List.length (a :: b :: rest)) with (S (S (List.length rest))) in *.
    rewrite feed_all_payload_word by (try assumption; lia).
    cbn [bind fst snd].
    destruct (Z.eqb_spec (Z.of_nat (List.length done) + 2) (len + pd)); [lia|].
    replace (done ++ a :: b :: repeat 0 r) with ((done ++ [a; b]) ++ repeat 0 r)
      by (rewrite <- app_assoc; reflexivity).
    replace (Z.of_nat (List.length done) + 2)
      with (Z.of_nat (List.length (done ++ [a; b])))
      by (rewrite length_app; simpl; lia).
    rewrite IH; try assumption; try lia.
    + cbn [bind fst snd app]. rewrite <- app_assoc. reflexivity.
    + rewrite length_app; simpl List.length; lia.
Qed.

(** **** The checksum *)

Lemma feed_checksum_bit (d : list Z) (len pd ps s c p : Z) (lh : option nat)
      (b : bool) :
  p < PREAMBLE_LENGTH -> s <> 8 -> s <> 16 ->
  feed {| state := CHECKSUM; data := d; length := len; pad := pd;
          pos := ps; syn := s; crc := c; preamble := p; lighthouse := lh |} b
  = Returns ({| state := CHECKSUM; data := d; length := len; pad := pd; pos := ps;
                syn := s + 1;
                crc := Z.lor c (Z.shiftl (Z.b2z b) (31 - (ps * 8 + Z.rem s 8)));
                preamble := (if b then 0 else p + 1); lighthouse := lh |}, None).
Proof.
  intros Hp H8 H16; unfold Ootx.feed.
  cbn [preamble state syn length pos pad data set_preamble set_pos set_data set_syn].
  destruct (Z.leb_spec PREAMBLE_LENGTH p); [lia|]. rewrite andb_false_r.
  apply Z.eqb_neq in H8, H16. rewrite H8, H16.
  cbn [orb andb preamble state syn length pos pad data crc lighthouse
       set_preamble set_pos set_data set_syn set_crc].
  rewrite H16. reflexivity.
Qed.

Lemma feed_all_checksum_bits (base : Z) (bits : list bool) (d : list Z)
      (len pd ps s c p : Z) (lh : option nat) :
  base = 0 \/ base = 8 ->
  0 <= p -> p + Z.of_nat (List.length bits) <= PREAMBLE_LENGTH ->
  base <= s -> s + Z.of_nat (List.length bits) <= base + 8 ->
  s <> 8 \/ bits = [] ->
  feed_all {| state := CHECKSUM; data := d; length := len; pad := pd;
              pos := ps; syn := s; crc := c; preamble := p; lighthouse := lh |} bits
  = Returns ({| state := CHECKSUM; data := d; length := len; pad := pd; pos := ps;
                syn := s + Z.of_nat (List.length bits);
                crc := shift_in c (31 - (ps * 8 + (s - base))) bits;
                preamble := zeros p bits; lighthouse := lh |}, []).
Proof.
  intro Hb; revert c s p; induction bits as [|b bits IH]; intros c s p Hp0 Hp Hlo Hhi H8.
  - simpl. rewrite Z.add_0_r; reflexivity.
  - change (List.length (b :: bits)) with (S (List.length bits)) in *.
    assert (s <> 8) by (destruct H8 as [?|?]; [assumption|discriminate]).
    rewrite feed_all_cons, feed_checksum_bit by lia. cbn [bind fst snd].
    rewrite IH; try lia.
    + cbn [bind fst snd shift_in zeros].
      rewrite (@rem_8 base s Hb) by lia.
      replace (31 - (ps * 8 + (s + 1 - base))) with (31 - (ps * 8 + (s - base)) - 1) by lia.
      replace (s + 1 + Z.of_nat (List.length bits))
        with (s + Z.of_nat (S (List.length bits))) by lia.
      reflexivity.
    + destruct b; lia.
    + destruct b; lia.
    + destruct bits; [right; reflexivity|left].
      change (List.length (_ :: bits)) with (S (List.length bits)) in *. lia.
Qed.

Lemma feed_checksum_8 (d : list Z) (len pd ps c p : Z) (lh : option nat) (b : bool) :
  p < PREAMBLE_LENGTH -> ps + 1 <> 4 ->
  feed {| state := CHECKSUM; data := d; length := len; pad := pd;
          pos := ps; syn := 8; crc := c; preamble := p; lighthouse := lh |} b
  = Returns ({| state := CHECKSUM; data := d; length := len; pad := pd;
                pos := ps + 1; syn := 9;
                crc := Z.lor c (Z.shiftl (Z.b2z b) (31 - ((ps + 1) * 8 + 0)));
                preamble := (if b then 0 else p + 1); lighthouse := lh |}, None).
Proof.
  intros Hp Hend; unfold Ootx.feed.
  cbn [preamble state syn length pos pad data set_preamble set_pos set_data set_syn].
  destruct (Z.leb_spec PREAMBLE_LENGTH p); [lia|]. rewrite andb_false_r.
  change (8 =? 8) with true. change (8 =? 16) with false.
  cbn [orb andb preamble state syn length pos pad data crc lighthouse
       set_preamble set_pos set_data set_syn set_crc].
  destruct (Z.eqb_spec (ps + 1) 4); [lia|]. reflexivity.
Qed.

Lemma feed_checksum_sync (d : list Z) (len pd ps c p : Z) (lh : option nat) :
  p < PREAMBLE_LENGTH ->
  feed {| state := CHECKSUM; data := d; length := len; pad := pd;
          pos := ps; syn := 16; crc := c; preamble := p; lighthouse := lh |} true
  = Returns (if ps + 1 =? 4 then
               ({| state := PREAMBLE; data := d; length := 0; pad := pd; pos := 0;
                   syn := 0; crc := c; preamble := 0; lighthouse := lh |},
                if crc32 (firstn (Z.to_nat len) d) =? swapl c then Some d else None)
             else
               ({| state := CHECKSUM; data := d; length := len; pad := pd;
                   pos := ps + 1; syn := 0; crc := c; preamble := 0;
                   lighthouse := lh |}, None)).
Proof.
  intro Hp; unfold Ootx.feed.
  cbn [preamble state syn length pos pad data set_preamble set_pos set_data set_syn].
  destruct (Z.leb_spec PREAMBLE_LENGTH p); [lia|]. rewrite andb_false_r.
  change (16 =? 8) with false. change (16 =? 16) with true.
  cbn [orb andb preamble state syn length pos pad data crc lighthouse
       set_preamble set_pos set_data set_syn set_state set_crc set_length].
  destruct (ps + 1 =? 4); reflexivity.
Qed.

(** Two bytes of the checksum, up to their sync bit. *)
Lemma feed_all_checksum_bytes (d : list Z) (a b len pd ps c : Z) (lh : option nat) :
  16 < PREAMBLE_LENGTH ->
  0 <= a < 2 ^ 8 -> 0 <= b < 2 ^ 8 ->
  ps = 0 \/ ps = 2 ->
  exists p,
    0 <= p <= 16 /\
    feed_all {| state := CHECKSUM; data := d; length := len; pad := pd;
                pos := ps; syn := 0; crc := c; preamble := 0; lighthouse := lh |}
             (bits8 a ++ bits8 b)
    = Returns
        ({| state := CHECKSUM; data := d; length := len; pad := pd;
            pos := ps + 1; syn := 16;
            crc := Z.lor (Z.lor c (a * 2 ^ (24 - ps * 8))) (b * 2 ^ (16 - ps * 8));
            preamble := p; lighthouse := lh |}, []).
Proof.
  intros HP Ha Hb Hps.
  assert (Z1 := @zeros_bits8 a 0 (Z.le_refl 0)).
  rewrite feed_all_app.
  rewrite (@feed_all_checksum_bits 0) by (rewrite ?bits8_length; lia).
  cbn [bind fst snd].
  change (bits8 b) with (Z.testbit b 7 :: map (Z.testbit b) [6; 5; 4; 3; 2; 1; 0]).
  rewrite feed_all_cons.
  rewrite bits8_length. change (0 + Z.of_nat 8) with 8.
  rewrite feed_checksum_8 by lia.
  cbn [bind fst snd].
  set (p1 := if Z.testbit b 7 then 0 else zeros 0 (bits8 a) + 1).
  assert (0 <= p1 <= 9) by (unfold p1; destruct (Z.testbit b 7); lia).
  rewrite (@feed_all_checksum_bits 8) by (simpl List.length; lia).
  cbn [bind fst snd app].
  simpl List.length. change (9 + Z.of_nat 7) with 16.
  set (p2 := zeros p1 _).
  assert (0 <= p2 <= 16).
  { unfold p2. match goal with |- _ <= zeros _ ?l <= _ =>
      pose proof (@zeros_range l p1 ltac:(lia)) as Hz; simpl List.length in Hz end. lia. }
  exists p2; split; [assumption|].
  replace (31 - ((ps + 1) * 8 + (9 - 8))) with (31 - ((ps + 1) * 8 + 0) - 1) by lia.
  rewrite shift_in_bits8.
  rewrite !shift_in_byte by (try assumption; lia).
  replace (31 - (ps * 8 + (0 - 0)) - 7) with (24 - ps * 8) by lia.
  replace (31 - ((ps + 1) * 8 + 0) - 7) with (16 - ps * 8) by lia.
  reflexivity.
Qed.

(** Two bytes of the checksum and their sync bit. *)
Lemma feed_all_checksum_word (d : list Z) (a b len pd ps c : Z) (lh : option nat) :
  16 < PREAMBLE_LENGTH ->
  0 <= a < 2 ^ 8 -> 0 <= b < 2 ^ 8 ->
  ps = 0 \/ ps = 2 ->
  feed_all {| state := CHECKSUM; data := d; length := len; pad := pd;
              pos := ps; syn := 0; crc := c; preamble := 0; lighthouse := lh |}
           (bits8 a ++ bits8 b ++ [true])
  = Returns
      (let c' := Z.lor (Z.lor c (a * 2 ^ (24 - ps * 8))) (b * 2 ^ (16 - ps * 8)) in
       if ps + 2 =? 4 then
         ({| state := PREAMBLE; data := d; length := 0; pad := pd; pos := 0;
             syn := 0; crc := c'; preamble := 0; lighthouse := lh |},
          if crc32 (firstn (Z.to_nat len) d) =? swapl c' then [d] else [])
       else
         ({| state := CHECKSUM; data := d; length := len; pad := pd;
             pos := ps + 2; syn := 0; crc := c'; preamble := 0;
             lighthouse := lh |}, [])).
Proof.
  intros HP Ha Hb Hps.
  assert (Z1 := @zeros_bits8 a 0 (Z.le_refl 0)).
  rewrite feed_all_app.
  rewrite (@feed_all_checksum_bits 0) by (rewrite ?bits8_length; lia).
  cbn [bind fst snd].
  change (bits8 b) with (Z.testbit b 7 :: map (Z.testbit b) [6; 5; 4; 3; 2; 1; 0]).
  rewrite <- app_comm_cons, feed_all_cons.
  rewrite bits8_length. change (0 + Z.of_nat 8) with 8.
  rewrite feed_checksum_8 by lia.
  cbn [bind fst snd].
  set (p1 := if Z.testbit b 7 then 0 else zeros 0 (bits8 a) + 1).
  assert (0 <= p1 <= 9) by (unfold p1; destruct (Z.testbit b 7); lia).
  rewrite feed_all_app.
  rewrite (@feed_all_checksum_bits 8) by (simpl List.length; lia).
  cbn [bind fst snd].
  simpl List.length. change (9 + Z.of_nat 7) with 16.
  rewrite feed_all_cons.
  set (p2 := zeros p1 _).
  assert (0 <= p2 <= 16).
  { unfold p2. match goal with |- _ <= zeros _ ?l <= _ =>
      pose proof (@zeros_range l p1 ltac:(lia)) as Hz; simpl List.length in Hz end. lia. }
  rewrite feed_checksum_sync by lia. cbn [bind fst snd Ootx.feed_all app].
  replace (31 - ((ps + 1) * 8 + (9 - 8))) with (31 - ((ps + 1) * 8 + 0) - 1) by lia.
  rewrite shift_in_bits8.
  rewrite !shift_in_byte by (try assumption; lia).
  replace (31 - (ps * 8 + (0 - 0)) - 7) with (24 - ps * 8) by lia.
  replace (31 - ((ps + 1) * 8 + 0) - 7) with (16 - ps * 8) by lia.
  replace (ps + 1 + 1) with (ps + 2) by lia.
  cbv zeta.
  destruct (ps + 2 =? 4); cbn [fst snd]; [|reflexivity].
  destruct (_ =? swapl _); reflexivity.
Qed.

(** **** A frame *)

Lemma words_app (k : nat) :
  forall l1 l2 : list Z,
  List.length l1 = (2 * k)%nat -> words (l1 ++ l2) = words l1 ++ words l2.
Proof.
  induction k as [|k IH]; intros l1 l2 Hl.
  - destruct l1; [reflexivity|discriminate].
  - destruct l1 as [|a [|b l1]]; try discriminate.
    + simpl in Hl; lia.
    + rewrite <- !app_comm_cons, !words_cons, IH, app_assoc; [reflexivity|].
      simpl in Hl; lia.
Qed.

Lemma padded_length (payload : list Z) (padding : Z) :
  payload <> [] ->
  exists k, List.length (padded payload padding) = (2 * S k)%nat /\
            Z.of_nat (List.length (padded payload padding))
            = Z.of_nat (List.length payload) + Z.rem (Z.of_nat (List.length payload)) 2.
Proof.
  intro Hne; unfold padded.
  assert (Hpos : (0 < List.length payload)%nat)
    by (destruct payload; [congruence|simpl; lia]).
  rewrite Z.rem_mod_nonneg by lia.
  destruct (Nat.even (List.length payload)) eqn:E.
  - apply Nat.even_spec in E; destruct E as [m Hm].
    exists (m - 1)%nat; split; [lia|].
    rewrite Hm, Nat2Z.inj_mul, Z.mul_comm, Z.mod_mul by lia. simpl; lia.
  - assert (O : Nat.odd (List.length payload) = true)
      by (rewrite <- Nat.negb_even, E; reflexivity).
    apply Nat.odd_spec in O; destruct O as [m Hm].
    exists m; rewrite length_app; simpl List.length; split; [lia|].
    rewrite Hm. replace (Z.of_nat (2 * m + 1)) with (1 + Z.of_nat m * 2) by lia.
    rewrite Z.mod_add by lia. change (1 mod 2) with 1. lia.
Qed.

Lemma memset_repeat (l : list Z) : memset l = repeat 0 (List.length l).
Proof. unfold memset; induction l as [|x l IH]; simpl; [reflexivity|rewrite IH; reflexivity]. Qed.

Lemma firstn_padded (payload rest : list Z) (padding : Z) :
  firstn (List.length payload) (padded payload padding ++ rest) = payload.
Proof.
  unfold padded; destruct (Nat.even _).
  - rewrite firstn_app, Nat.sub_diag, firstn_all; simpl; apply app_nil_r.
  - rewrite <- app_assoc, firstn_app, Nat.sub_diag, firstn_all; simpl; apply app_nil_r.
Qed.

(** The length register after its sixteen bits, and what [swaps] makes of
    it. *)
Lemma length_word (len : Z) :
  0 <= len < 2 ^ 16 ->
  swaps (shift_in 0 15 (bits8 (byte 0 len) ++ bits8 (byte 1 len))) = len.
Proof.
  intro Hl.
  assert (B0 := byte_range 0 len). assert (B1 := byte_range 1 len).
  rewrite shift_in_app, bits8_length, !shift_in_byte by lia.
  change (15 - Z.of_nat 8 - 7) with 0. change (15 - 7) with 8.
  rewrite Z.lor_0_l, Z.pow_0_r, Z.mul_1_r, lor_shiftl_add by lia.
  rewrite swaps_bytes.
  replace (byte 0 len * 2 ^ 8 + byte 1 len) with (byte 1 len + 2 ^ 8 * byte 0 len) by lia.
  destruct (byte_digits2 B1 B0) as [-> ->].
  rewrite (digits16 Hl) at 3; lia.
Qed.

(** The checksum register after its thirty-two bits, and what [swapl]
    makes of it. *)
Lemma checksum_words (checksum : Z) :
  0 <= checksum < 2 ^ 32 ->
  swapl (Z.lor (Z.lor (Z.lor (Z.lor 0 (byte 0 checksum * 2 ^ 24))
                             (byte 1 checksum * 2 ^ 16))
                      (byte 2 checksum * 2 ^ 8))
               (byte 3 checksum * 2 ^ 0))
  = checksum.
Proof.
  intro Hc.
  assert (B0 := byte_range 0 checksum). assert (B1 := byte_range 1 checksum).
  assert (B2 := byte_range 2 checksum). assert (B3 := byte_range 3 checksum).
  rewrite Z.lor_0_l.
  rewrite (lor_shiftl_add (byte 0 checksum) (n := 24)) by lia.
  replace (byte 0 checksum * 2 ^ 24 + byte 1 checksum * 2 ^ 16)
    with ((byte 0 checksum * 2 ^ 8 + byte 1 checksum) * 2 ^ 16) by lia.
  rewrite (lor_shiftl_add _ (n := 16)) by lia.
  replace ((byte 0 checksum * 2 ^ 8 + byte 1 checksum) * 2 ^ 16 + byte 2 checksum * 2 ^ 8)
    with (((byte 0 checksum * 2 ^ 8 + byte 1 checksum) * 2 ^ 8 + byte 2 checksum) * 2 ^ 8)
    by lia.
  rewrite Z.pow_0_r, Z.mul_1_r, (lor_shiftl_add _ (n := 8)) by lia.
  set (v := _ + byte 3 checksum).
  assert (Hv : v = byte 3 checksum
               + 2 ^ 8 * (byte 2 checksum + 2 ^ 8 * (byte 1 checksum + 2 ^ 8 * byte 0 checksum)))
    by (unfold v; lia).
  rewrite swapl_bytes by lia.
  destruct (byte_digits4 B3 B2 B1 B0) as (D0 & D1 & D2 & D3).
  rewrite <- Hv in D0, D1, D2, D3. rewrite D0, D1, D2, D3.
  rewrite (digits32 Hc) at 5; lia.
Qed.

(** A frame, up to its last bit, and that bit: the sync bit after the
    checksum, at which [decode_packet] is called or not. *)
Lemma feed_all_frame (ctx : OOTX) (n : nat) (payload : list Z)
      (padding checksum : Z) :
  16 < PREAMBLE_LENGTH ->
  state ctx = PREAMBLE ->
  0 <= preamble ctx ->
  PREAMBLE_LENGTH <= preamble ctx + Z.of_nat n < 2 ^ 8 ->
  List.length (data ctx) = MAX_PACKET_LEN ->
  payload <> [] ->
  (List.length (padded payload padding) <= MAX_PACKET_LEN)%nat ->
  Z.of_nat (List.length payload) < 2 ^ 16 ->
  Forall (fun b => 0 <= b < 2 ^ 8) (padded payload padding) ->
  0 <= checksum < 2 ^ 32 ->
  exists body ctx1 ctx',
    frame payload padding checksum = body ++ [true] /\
    feed_all ctx (repeat false n ++ [true] ++ body) = Returns (ctx1, []) /\
    feed ctx1 true
    = Returns (ctx', if crc32 payload =? checksum
                     then Some (stored MAX_PACKET_LEN payload padding) else None) /\
    state ctx' = PREAMBLE /\ preamble ctx' = 0 /\ length ctx' = 0 /\
    pos ctx' = 0 /\ syn ctx' = 0 /\
    data ctx' = stored MAX_PACKET_LEN payload padding /\
    lighthouse ctx' = lighthouse ctx.
Proof.
  intros HP Hst Hp0 Hn Hd Hne Hmax H16 Hbytes Hc.
  set (buffer := stored MAX_PACKET_LEN payload padding).
  set (len := Z.of_nat (List.length payload)) in *.
  assert (Hlen : 0 <= len < 2 ^ 16) by (unfold len; lia).
  destruct (padded_length padding Hne) as (k & Hk & Hpad). fold len in Hpad.
  assert (B0 := byte_range 0 len). assert (B1 := byte_range 1 len).
  assert (C0 := byte_range 0 checksum). assert (C1 := byte_range 1 checksum).
  assert (C2 := byte_range 2 checksum). assert (C3 := byte_range 3 checksum).
  exists (((bits8 (byte 0 len) ++ bits8 (byte 1 len)) ++ [true])
          ++ words (padded payload padding)
          ++ (bits8 (byte 0 checksum) ++ bits8 (byte 1 checksum) ++ [true])
          ++ (bits8 (byte 2 checksum) ++ bits8 (byte 3 checksum))).
  assert (Hframe :
    frame payload padding checksum
    = (((bits8 (byte 0 len) ++ bits8 (byte 1 len)) ++ [true])
       ++ words (padded payload padding)
       ++ (bits8 (byte 0 checksum) ++ bits8 (byte 1 checksum) ++ [true])
       ++ (bits8 (byte 2 checksum) ++ bits8 (byte 3 checksum))) ++ [true]).
  { unfold frame. fold len.
    rewrite (@words_app 1 (bytes16 len)) by reflexivity.
    rewrite (@words_app (S k) (padded payload padding)) by exact Hk.
    change (words (bytes16 len))
      with ((bits8 (byte 0 len) ++ bits8 (byte 1 len)) ++ [true]).
    change (words (bytes32 checksum))
      with ((bits8 (byte 0 checksum) ++ bits8 (byte 1 checksum) ++ [true])
            ++ (bits8 (byte 2 checksum) ++ bits8 (byte 3 checksum) ++ [true])).
    rewrite <- !app_assoc. reflexivity. }
  (* the preamble *)
  rewrite feed_all_app, feed_all_zeros by exact Hst. cbn [bind fst snd].
  rewrite feed_all_app. change (Ootx.feed_all _ _ _ ?c [true])
    with (r <- feed c true ;; Returns (fst r, match snd r with
                                              | Some p => [p] | None => [] end))%M.
  rewrite feed_mark by (simpl; lia). cbn [bind fst snd].
  cbn [data pad crc lighthouse set_preamble].
  (* the length *)
  rewrite feed_all_app, feed_all_app.
  rewrite feed_all_length_bits by (rewrite ?length_app, ?bits8_length; simpl; lia).
  cbn [bind fst snd].
  rewrite length_app, !bits8_length. change (0 + Z.of_nat (8 + 8)) with 16.
  set (p := zeros 0 _).
  assert (Hp : 0 <= p <= 16).
  { unfold p. match goal with |- _ <= zeros _ ?l <= _ =>
      pose proof (@zeros_range l 0 ltac:(lia)) as Hz end.
    rewrite length_app, !bits8_length in Hz. exact Hz. }
  change (Ootx.feed_all _ _ _ ?c [true])
    with (r <- feed c true ;; Returns (fst r, match snd r with
                                              | Some p => [p] | None => [] end))%M.
  rewrite feed_length_sync by lia. change (15 - 0) with 15.
  rewrite length_word by exact Hlen.
  destruct (Z.leb_spec (len + Z.rem len 2) (Z.of_nat MAX_PACKET_LEN)); [|lia].
  cbn [bind fst snd].
  (* the payload *)
  rewrite feed_all_app, memset_repeat, Hd.
  assert (Hw := @feed_all_payload_words k (padded payload padding) [] MAX_PACKET_LEN
                  len (Z.rem len 2) (crc ctx) (lighthouse ctx) HP Hk Hbytes
                  ltac:(simpl List.length; lia) Hmax).
  cbn [app List.length Z.of_nat] in Hw. rewrite Hw; clear Hw.
  cbn [bind fst snd app]. fold (stored MAX_PACKET_LEN payload padding). fold buffer.
  (* the checksum *)
  rewrite feed_all_app.
  rewrite feed_all_checksum_word by (try assumption; lia).
  cbv zeta. change (0 + 2 =? 4) with false. cbn [bind fst snd].
  change (0 + 2) with 2.
  destruct (@feed_all_checksum_bytes buffer (byte 2 checksum) (byte 3 checksum) len
              (Z.rem len 2) 2
              (Z.lor (Z.lor 0 (byte 0 checksum * 2 ^ (24 - 0 * 8)))
                     (byte 1 checksum * 2 ^ (16 - 0 * 8)))
              (lighthouse ctx) HP C2 C3 (or_intror eq_refl)) as (p2 & Hp2 & E).
  rewrite E; clear E. cbn [bind fst snd app].
  do 2 eexists. split; [exact Hframe|]. split; [reflexivity|].
  rewrite feed_checksum_sync by lia.
  change (2 + 1 + 1 =? 4) with true.
  change (24 - 0 * 8) with 24. change (16 - 0 * 8) with 16.
  change (24 - 2 * 8) with 8. change (16 - 2 * 8) with 0.
  rewrite checksum_words by exact Hc.
  replace (firstn (Z.to_nat len) buffer) with payload.
  2: { unfold buffer, stored, len. rewrite Nat2Z.id, firstn_padded; reflexivity. }
  split; [reflexivity|]. cbn [state preamble length pos syn data lighthouse].
  repeat split; reflexivity.
Qed.

(** **** Any stream *)

Lemma swaps_range (val : Z) : 0 <= swaps val < 2 ^ 16.
Proof.
  rewrite swaps_bytes.
  assert (B0 := byte_range 0 val). assert (B1 := byte_range 1 val). lia.
Qed.

Lemma even_padded (len : Z) : 0 <= len -> Z.even (len + Z.rem len 2) = true.
Proof.
  intro Hl. rewrite Z.rem_mod_nonneg by lia.
  apply Z.even_spec. exists (len / 2 + len mod 2).
  assert (H := Z.div_mod len 2 ltac:(lia)). lia.
Qed.

Lemma load_in {A : Type} (array : Array) (l : list A) (i : Z) :
  0 <= i < Z.of_nat (List.length l) -> exists x, load array l i = Returns x.
Proof.
  intro Hi; unfold load. destruct (Z.ltb_spec i 0); [lia|].
  destruct (nth_error l (Z.to_nat i)) eqn:E; [eauto|].
  apply nth_error_None in E; lia.
Qed.

Lemma store_in {A : Type} (array : Array) (l : list A) (i : Z) (x : A) :
  0 <= i < Z.of_nat (List.length l) ->
  store array l i x = Returns (upd (Z.to_nat i) x l).
Proof.
  intro Hi; unfold store. destruct (Z.ltb_spec i 0); [lia|].
  destruct (Nat.ltb_spec (Z.to_nat i) (List.length l)); [reflexivity|lia].
Qed.

Ltac leb_lia :=
  repeat match goal with
         | H : context [if ?a <=? ?b then _ else _] |- _ => destruct (Z.leb_spec a b)
         | |- context [if ?a <=? ?b then _ else _] => destruct (Z.leb_spec a b)
         end;
  lia.

Ltac sel :=
  cbn [state data length pad pos syn crc preamble lighthouse
       set_state set_data set_length set_pad set_pos set_syn set_crc set_preamble
       set_lighthouse].

(** X8: between frames that declare a payload of one byte or more, the
    state machine of [ootx_feed] stays within the buffer of the context:
    on a context [in_frame] any bit is taken without a byte read or
    written outside [data], and the context is [in_frame] again, unless
    the bit ends a length word that reads zero. The reads that
    [decode_packet] makes of the buffer when a checksum matches are not
    among the accesses of [feed]. *)
Theorem feed_stays_in_buffer (ctx : OOTX) (bit : bool) :
  in_frame MAX_PACKET_LEN ctx ->
  exists ctx' packet,
    feed ctx bit = Returns (ctx', packet) /\
    (in_frame MAX_PACKET_LEN ctx' \/
     state ctx = LENGTH /\ state ctx' = PAYLOAD /\ length ctx' = 0).
Proof.
  intros [Hd Hs]. unfold Ootx.feed.
  destruct (bit && (PREAMBLE_LENGTH <=? preamble ctx)).
  { do 2 eexists; split; [reflexivity|left]. split; [exact Hd|sel; lia]. }
  cbn [state set_preamble].
  destruct (state ctx) eqn:Est.
  - (* PREAMBLE *)
    do 2 eexists; split; [reflexivity|left]. split; [exact Hd|].
    cbn [state set_preamble]. rewrite Est. exact I.
  - (* LENGTH *)
    cbn [syn length pad data set_preamble set_length set_pad set_state].
    destruct (Z.eqb_spec (syn ctx) 16) as [E16|N16].
    + assert (R := swaps_range (length ctx)).
      destruct (Z.leb_spec (swaps (length ctx) + Z.rem (swaps (length ctx)) 2)
                           (Z.of_nat MAX_PACKET_LEN)) as [Hfit|Hbig].
      * do 2 eexists; split; [reflexivity|].
        destruct (Z.eq_dec (swaps (length ctx)) 0) as [E0|N0].
        { right. sel. auto. }
        left. split; [sel; unfold memset; rewrite length_map; exact Hd|].
        sel. split; [lia|]. split; [lia|].
        split; [rewrite Z.rem_mod_nonneg by lia; apply Z.mod_pos_bound; lia|].
        split; [apply even_padded; lia|].
        exists 0. rewrite Z.rem_mod_nonneg in * by lia.
        assert (H2 := Z.mod_pos_bound (swaps (length ctx)) 2 ltac:(lia)).
        assert (H3 := Z.div_mod (swaps (length ctx)) 2 ltac:(lia)). leb_lia.
      * do 2 eexists; split; [reflexivity|left]. split; [exact Hd|exact I].
    + do 2 eexists; split; [reflexivity|left]. split; [exact Hd|].
      sel. rewrite Est. lia.
  - (* PAYLOAD *)
    destruct Hs as (Hsyn & Hl0 & Hp0 & Heven & word & Hw & Hpos & Hfit).
    apply Z.even_spec in Heven; destruct Heven as [half Hhalf].
    cbn [syn pos length pad data set_preamble set_pos].
    destruct (Z.eqb_spec (syn ctx) 8) as [E8|N8];
      [|destruct (Z.eqb_spec (syn ctx) 16) as [E16|N16]];
      cbn [orb andb syn pos length pad data set_preamble set_pos].
    + (* the second byte of the word begins *)
      rewrite E8 in Hpos.
      destruct (Z.eqb_spec (pos ctx + 1) (length ctx + pad ctx)); [leb_lia|].
      rewrite E8. change (8 =? 16) with false. cbv iota.
      destruct (@load_in Z data_array (data ctx) (pos ctx + 1) ltac:(leb_lia)) as [y Hy].
      rewrite Hy. cbn [bind]. rewrite store_in by leb_lia. cbn [bind].
      do 2 eexists; split; [reflexivity|left].
      split; [sel; rewrite upd_length; exact Hd|].
      sel. rewrite Est. split; [lia|]. split; [lia|]. split; [lia|]. split; [apply Z.even_spec; exists half; exact Hhalf|].
      exists word. leb_lia.
    + (* the sync bit *)
      rewrite E16 in Hpos.
      destruct (Z.eqb_spec (pos ctx + 1) (length ctx + pad ctx)) as [Eend|Nend].
      * do 2 eexists; split; [reflexivity|left]. split; [exact Hd|].
        sel. split; [lia|]. split; [leb_lia|]. exists 0. leb_lia.
      * rewrite E16. change (16 =? 16) with true. cbv iota.
        do 2 eexists; split; [reflexivity|left]. split; [exact Hd|].
        sel. rewrite Est. split; [lia|].
        split; [lia|]. split; [lia|]. split; [apply Z.even_spec; exists half; exact Hhalf|].
        exists (word + 1). leb_lia.
    + (* a bit of a byte *)
      apply Z.eqb_neq in N16. rewrite N16. apply Z.eqb_neq in N16.
      assert (Hin : 0 <= pos ctx < Z.of_nat (List.length (data ctx)))
        by leb_lia.
      destruct (@load_in Z data_array (data ctx) (pos ctx) Hin) as [y Hy].
      rewrite Hy. cbn [bind]. rewrite store_in by exact Hin. cbn [bind].
      do 2 eexists; split; [reflexivity|left].
      split; [sel; rewrite upd_length; exact Hd|].
      sel. rewrite Est. split; [lia|]. split; [lia|]. split; [lia|]. split; [apply Z.even_spec; exists half; exact Hhalf|].
      exists word. split; [lia|]. split; [|lia].
      leb_lia.
  - (* CHECKSUM *)
    destruct Hs as (Hsyn & Hlen & word & Hw & Hpos).
    cbn [syn pos length pad data set_preamble set_pos].
    destruct (Z.eqb_spec (syn ctx) 8) as [E8|N8];
      [|destruct (Z.eqb_spec (syn ctx) 16) as [E16|N16]];
      cbn [orb andb syn pos length pad data set_preamble set_pos].
    + rewrite E8 in Hpos.
      destruct (Z.eqb_spec (pos ctx + 1) 4); [leb_lia|].
      rewrite E8. change (8 =? 16) with false. cbv iota.
      do 2 eexists; split; [reflexivity|left]. split; [exact Hd|].
      sel. rewrite Est. split; [lia|]. split; [lia|]. exists word. leb_lia.
    + rewrite E16 in Hpos.
      destruct (Z.eqb_spec (pos ctx + 1) 4) as [Eend|Nend].
      * do 2 eexists; split; [reflexivity|left]. split; [exact Hd|exact I].
      * rewrite E16. change (16 =? 16) with true. cbv iota.
        do 2 eexists; split; [reflexivity|left]. split; [exact Hd|].
        sel. rewrite Est. split; [lia|]. split; [lia|]. exists 1. leb_lia.
    + apply Z.eqb_neq in N16. rewrite N16. apply Z.eqb_neq in N16.
      do 2 eexists; split; [reflexivity|left]. split; [exact Hd|].
      sel. rewrite Est. split; [lia|]. split; [lia|]. exists word. split; [lia|].
      leb_lia.
Qed.

(** **** A frame that declares no payload *)

Lemma feed_all_outside (bits1 bits2 : list bool) (ctx : OOTX) (array : Array) (i : Z) :
  feed_all ctx bits1 = Outside array i ->
  feed_all ctx (bits1 ++ bits2) = Outside array i.
Proof. intro H; rewrite feed_all_app, H; reflexivity. Qed.

(** After a length of zero, words are stored one after the other. *)
Lemma feed_all_words_of_nothing (k : nat) :
  forall (bytes done : list Z) (r : nat) (c : Z) (lh : option nat),
  16 < PREAMBLE_LENGTH ->
  List.length bytes = (2 * k)%nat ->
  Forall (fun b => 0 <= b < 2 ^ 8) bytes ->
  (List.length bytes <= r)%nat ->
  feed_all {| state := PAYLOAD; data := done ++ repeat 0 r; length := 0;
              pad := 0; pos := Z.of_nat (List.length done); syn := 0; crc := c;
              preamble := 0; lighthouse := lh |} (words bytes)
  = Returns ({| state := PAYLOAD;
                data := (done ++ bytes) ++ repeat 0 (r - List.length bytes);
                length := 0; pad := 0;
                pos := Z.of_nat (List.length (done ++ bytes)); syn := 0; crc := c;
                preamble := 0; lighthouse := lh |}, []).
Proof.
  induction k as [|k IH]; intros bytes done r c lh HP Hlen Hbytes Hr.
  - destruct bytes; [|discriminate]. simpl. rewrite app_nil_r, Nat.sub_0_r. reflexivity.
  - destruct bytes as [|a [|b rest]]; try discriminate; [simpl in Hlen; lia|].
    destruct r as [|[|r]]; simpl in Hr; try lia.
    inversion Hbytes as [|? ? Ha Hb']; subst. inversion Hb' as [|? ? Hb Hrest]; subst.
    rewrite words_cons, feed_all_app. simpl repeat.
    rewrite feed_all_payload_word by (try assumption; lia).
    cbn [bind fst snd].
    destruct (Z.eqb_spec (Z.of_nat (List.length done) + 2) (0 + 0)); [lia|].
    replace (done ++ a :: b :: repeat 0 r) with ((done ++ [a; b]) ++ repeat 0 r)
      by (rewrite <- app_assoc; reflexivity).
    replace (Z.of_nat (List.length done) + 2)
      with (Z.of_nat (List.length (done ++ [a; b])))
      by (rewrite length_app; simpl; lia).
    rewrite IH; try assumption; try (simpl in Hlen; lia).
    cbn [bind fst snd app].
    replace ((done ++ [a; b]) ++ rest) with (done ++ a :: b :: rest)
      by (rewrite <- app_assoc; reflexivity).
    reflexivity.
Qed.

(** The first word that does not fit. *)
Lemma feed_all_word_outside (full : list Z) (r : nat) (a b c : Z) (lh : option nat) :
  16 < PREAMBLE_LENGTH ->
  (r <= 1)%nat ->
  feed_all {| state := PAYLOAD; data := full ++ repeat 0 r; length := 0;
              pad := 0; pos := Z.of_nat (List.length full); syn := 0; crc := c;
              preamble := 0; lighthouse := lh |} (bits8 a ++ bits8 b ++ [true])
  = Outside data_array (Z.of_nat (List.length (full ++ repeat 0 r))).
Proof.
  intros HP Hr. destruct r as [|[|r]]; [| |lia].
  - (* the buffer is full *)
    simpl repeat. rewrite app_nil_r.
    change (bits8 a) with (Z.testbit a 7 :: map (Z.testbit a) [6; 5; 4; 3; 2; 1; 0]).
    rewrite <- app_comm_cons, feed_all_cons.
    unfold Ootx.feed. sel.
    destruct (Z.leb_spec PREAMBLE_LENGTH 0); [lia|]. rewrite andb_false_r.
    change (0 =? 8) with false. change (0 =? 16) with false.
    cbn [orb andb]. sel. change (0 =? 16) with false. cbv iota.
    unfold load. destruct (Z.ltb_spec (Z.of_nat (List.length full)) 0); [lia|].
    rewrite Nat2Z.id.
    rewrite (proj2 (nth_error_None full (List.length full)) (Nat.le_refl _)).
    reflexivity.
  - (* one byte is left *)
    assert (Z1 := @zeros_bits8 a 0 (Z.le_refl 0)).
    simpl repeat. rewrite feed_all_app.
    rewrite (@feed_all_payload_bits 0) by (rewrite ?bits8_length; lia).
    cbn [bind fst snd]. rewrite bits8_length. change (0 + Z.of_nat 8) with 8.
    change (bits8 b) with (Z.testbit b 7 :: map (Z.testbit b) [6; 5; 4; 3; 2; 1; 0]).
    rewrite <- app_comm_cons, feed_all_cons.
    unfold Ootx.feed. sel.
    destruct (Z.leb_spec PREAMBLE_LENGTH (zeros 0 (bits8 a))); [lia|].
    rewrite andb_false_r.
    change (8 =? 8) with true. change (8 =? 16) with false.
    cbn [orb andb]. sel.
    destruct (Z.eqb_spec (Z.of_nat (List.length full) + 1) (0 + 0)); [lia|].
    change (8 =? 16) with false. cbv iota.
    set (d := full ++ _ :: []).
    assert (Hd : List.length d = S (List.length full))
      by (unfold d; rewrite length_app; simpl; lia).
    replace (List.length (full ++ [0])) with (List.length d)
      by (rewrite Hd, length_app; simpl; lia).
    unfold load.
    destruct (Z.ltb_spec (Z.of_nat (List.length full) + 1) 0); [lia|].
    replace (Z.to_nat (Z.of_nat (List.length full) + 1)) with (List.length d) by lia.
    rewrite (proj2 (nth_error_None d (List.length d)) (Nat.le_refl _)).
    cbn [bind]. f_equal. lia.
Qed.

(** X9: a frame that declares a payload of length zero is never ended.
    After a preamble and a length word of sixteen zeros the bytes that
    follow are stored as payload, whatever their number: once they are more
    than [MAX_PACKET_LEN], [ootx_feed] reads and writes
    [data[MAX_PACKET_LEN]], the first byte after the buffer. *)
Theorem empty_frame_runs_past_buffer (ctx : OOTX) (n : nat) (bytes : list Z) :
  16 < PREAMBLE_LENGTH ->
  state ctx = PREAMBLE ->
  0 <= preamble ctx ->
  PREAMBLE_LENGTH <= preamble ctx + Z.of_nat n < 2 ^ 8 ->
  List.length (data ctx) = MAX_PACKET_LEN ->
  Z.of_nat MAX_PACKET_LEN < 2 ^ 8 ->
  Forall (fun b => 0 <= b < 2 ^ 8) bytes ->
  (MAX_PACKET_LEN + 2 <= List.length bytes)%nat ->
  feed_all ctx (repeat false n ++ [true] ++ words (bytes16 0 ++ bytes))
  = Outside data_array (Z.of_nat MAX_PACKET_LEN).
Proof.
  intros HP Hst Hp0 Hn Hd Hmax Hbytes Hlong.
  set (m := Nat.div2 MAX_PACKET_LEN).
  assert (Hm : (MAX_PACKET_LEN = 2 * m + (if Nat.odd MAX_PACKET_LEN then 1 else 0))%nat).
  { unfold m. rewrite (Nat.div2_odd MAX_PACKET_LEN) at 1.
    destruct (Nat.odd MAX_PACKET_LEN); simpl; lia. }
  assert (Hsplit : bytes = firstn (2 * m) bytes ++ skipn (2 * m) bytes)
    by (symmetry; apply firstn_skipn).
  assert (Hf : List.length (firstn (2 * m) bytes) = (2 * m)%nat).
  { rewrite length_firstn. destruct (Nat.odd MAX_PACKET_LEN); lia. }
  assert (Hs : (2 <= List.length (skipn (2 * m) bytes))%nat).
  { rewrite length_skipn. destruct (Nat.odd MAX_PACKET_LEN); lia. }
  destruct (skipn (2 * m) bytes) as [|a [|b rest]] eqn:Es; simpl in Hs; try lia.
  rewrite Hsplit in Hbytes. apply Forall_app in Hbytes. destruct Hbytes as [Hb1 Hb2].
  rewrite Hsplit.
  rewrite (@words_app 1 (bytes16 0)) by reflexivity.
  rewrite (@words_app m (firstn (2 * m) bytes)) by exact Hf.
  rewrite words_cons.
  change (words (bytes16 0)) with (repeat false 16 ++ [true]).
  (* the preamble *)
  rewrite feed_all_app, feed_all_zeros by exact Hst. cbn [bind fst snd].
  rewrite feed_all_app. change (Ootx.feed_all _ _ _ ?c [true])
    with (r <- feed c true ;; Returns (fst r, match snd r with
                                              | Some p => [p] | None => [] end))%M.
  rewrite feed_mark by (simpl; lia). cbn [bind fst snd]. sel.
  (* the length *)
  rewrite feed_all_app, feed_all_app.
  rewrite feed_all_length_bits by (simpl List.length; lia).
  cbn [bind fst snd].
  change (Ootx.feed_all _ _ _ ?c [true])
    with (r <- feed c true ;; Returns (fst r, match snd r with
                                              | Some p => [p] | None => [] end))%M.
  change (zeros 0 (repeat false 16)) with 16.
  change (shift_in 0 (15 - 0) (repeat false 16)) with 0.
  simpl List.length. change (0 + Z.of_nat 16) with 16.
  rewrite feed_length_sync by lia.
  change (swaps 0) with 0. change (Z.rem 0 2) with 0.
  destruct (Z.leb_spec (0 + 0) (Z.of_nat MAX_PACKET_LEN)); [|lia].
  cbn [bind fst snd].
  (* the words that fit *)
  rewrite memset_repeat, Hd.
  rewrite feed_all_app.
  assert (Hw := @feed_all_words_of_nothing m (firstn (2 * m) bytes) [] MAX_PACKET_LEN
                  (crc ctx) (lighthouse ctx) HP Hf Hb1 ltac:(lia)).
  cbn [app List.length Z.of_nat] in Hw. rewrite Hw; clear Hw.
  cbn [bind fst snd].
  (* the word that does not *)
  rewrite feed_all_app.
  rewrite feed_all_word_outside
    by (try assumption; rewrite ?Hf; destruct (Nat.odd MAX_PACKET_LEN); lia).
  cbn [bind]. rewrite length_app, repeat_length, Hf. f_equal.
  destruct (Nat.odd MAX_PACKET_LEN); lia.
Qed.

End DecoderFacts.

Lemma feed_stays_in_buffer_witness :
  exists ctx' packet,
    feed 17 4 sum32 mid_payload true = Returns (ctx', packet) /\
    data ctx' = [0x12; 0x30; 0; 0] /\
    (in_frame 4 ctx' \/
     state mid_payload = LENGTH /\ state ctx' = PAYLOAD /\ length ctx' = 0).
Proof.
  destruct (@feed_stays_in_buffer 17 4 sum32 mid_payload true) as (ctx' & packet & Hf & H).
  - split; [reflexivity|]. cbn [state mid_payload syn length pad pos].
    repeat (split; [first [reflexivity|lia]|]).
    exists 0. repeat split; try reflexivity; simpl; lia.
  - exists ctx', packet. split; [exact Hf|]. split; [|exact H].
    vm_compute in Hf. injection Hf as <- _. reflexivity.
Defined.

Lemma empty_frame_runs_past_buffer_witness :
  feed_all 17 4 sum32 waiting
           (repeat false 17 ++ [true] ++ words (bytes16 0 ++ [1; 2; 3; 4; 5; 6]))
  = Outside data_array (Z.of_nat 4).
Proof.
  apply (@empty_frame_runs_past_buffer 17 4 sum32 waiting 17 [1; 2; 3; 4; 5; 6]);
    try reflexivity; try (simpl; lia).
  repeat constructor; lia.
Defined.

End OotxFacts.

(** ** The tracker *)

Module TrackingFacts.
Import Machine Ootx DataLight Tracking.
Local Open Scope Z_scope.

(** *** [decode_packet] *)

Lemma uint8_at_range (data : list Z) (off : nat) :
  Forall (fun b => 0 <= b < 2 ^ 8) data -> 0 <= uint8_at data off < 2 ^ 8.
Proof.
  intro H; unfold uint8_at.
  destruct (nth_in_or_default off data 0) as [Hin| ->]; [|lia].
  rewrite Forall_forall in H; apply H; exact Hin.
Qed.

Lemma uint16_at_range (data : list Z) (off : nat) :
  Forall (fun b => 0 <= b < 2 ^ 8) data -> 0 <= uint16_at data off < 2 ^ 16.
Proof.
  intro H; unfold uint16_at.
  assert (H0 := uint8_at_range off H). assert (H1 := uint8_at_range (off + 1) H). lia.
Qed.

Lemma skipn_range (data : list Z) (n : nat) :
  Forall (fun b => 0 <= b < 2 ^ 8) data ->
  Forall (fun b => 0 <= b < 2 ^ 8) (skipn n data).
Proof.
  intro H; rewrite Forall_forall in *; intros x Hx; apply H.
  rewrite <- (firstn_skipn n data); apply in_or_app; right; exact Hx.
Qed.

Lemma convert_float_returns (data : list Z) :
  Forall (fun b => 0 <= b < 2 ^ 8) data ->
  exists bits, convert_float data = Returns bits.
Proof.
  intro H.
  rewrite OotxFacts.convert_float_two_bytes by (apply uint8_at_range; exact H).
  destruct (@OotxFacts.converted_datum (uint16_at data 0)) as (bits & Hb & _).
  - apply uint16_at_range; exact H.
  - exists bits; exact Hb.
Qed.

Lemma first_index_Some {A : Type} (p : A -> bool) (l : list A) (i : nat) :
  first_index p l = Some i ->
  (i < List.length l)%nat /\
  (exists x, nth_error l i = Some x /\ p x = true) /\
  (forall j y, (j < i)%nat -> nth_error l j = Some y -> p y = false).
Proof.
  revert i; induction l as [|x l IH]; intros i H; [discriminate|].
  simpl in H. destruct (p x) eqn:Ex.
  - injection H as <-. simpl. split; [lia|]. split; [eauto|]. intros; lia.
  - destruct (first_index p l) as [k|] eqn:Ek; [|discriminate].
    injection H as <-. destruct (IH k eq_refl) as (Hlt & Hx & Hbefore).
    simpl. split; [lia|]. split; [exact Hx|].
    intros [|j] y Hj Hy; simpl in Hy; [congruence|].
    apply (Hbefore j); [lia|exact Hy].
Qed.

Lemma first_index_None {A : Type} (p : A -> bool) (l : list A) :
  first_index p l = None -> forall j y, nth_error l j = Some y -> p y = false.
Proof.
  induction l as [|x l IH]; intros H j y Hy; [destruct j; discriminate|].
  simpl in H. destruct (p x) eqn:Ex; [discriminate|].
  destruct (first_index p l) eqn:Ek; [discriminate|].
  destruct j as [|j]; simpl in Hy; [congruence|]. apply (IH eq_refl j); exact Hy.
Qed.

Lemma first_index_upd {A : Type} (p : A -> bool) (l : list A) (i : nat) (x : A) :
  (i < List.length l)%nat -> p x = true ->
  (forall j y, (j < i)%nat -> nth_error l j = Some y -> p y = false) ->
  first_index p (upd i x l) = Some i.
Proof.
  revert i; induction l as [|y l IH]; intros i Hi Hx Hbefore; [simpl in Hi; lia|].
  destruct i as [|i]; simpl.
  - rewrite Hx; reflexivity.
  - rewrite (Hbefore O y) by (try lia; reflexivity).
    rewrite IH; [reflexivity|simpl in Hi; lia|exact Hx|].
    intros j z Hj Hz. apply (Hbefore (S j)); [lia|exact Hz].
Qed.

Section TrackerFacts.
Variable MAX_NUM_SENSORS : Z.
Variable MAX_NUM_LIGHTHOUSES : nat.
Variable PREAMBLE_LENGTH : Z.
Variable MAX_PACKET_LEN : nat.
Variable crc32 : list Z -> Z.

Local Abbreviation search := (Tracking.search MAX_NUM_LIGHTHOUSES).
Local Abbreviation decode_packet := (Tracking.decode_packet MAX_NUM_LIGHTHOUSES).

(** The loop stops at the first element that bears the serial number. *)
Lemma search_found (s : string) (ls : list Lighthouse) (i : nat) :
  forall idx available,
  first_index (fun l => String.eqb (serial l) s) ls = Some i ->
  fst (search s ls idx available) = (idx + i)%nat.
Proof.
  revert i; induction ls as [|l ls IH]; intros i idx available H; [discriminate|].
  simpl in H. simpl. destruct (String.eqb (serial l) s).
  - injection H as <-. simpl; lia.
  - destruct (first_index _ ls) as [k|] eqn:Ek; [|discriminate].
    injection H as <-. rewrite (IH k) by reflexivity. lia.
Qed.

(** Without one it runs to the end, with the first element that has no
    timestamp in [available]. *)
Lemma search_not_found (s : string) (ls : list Lighthouse) :
  forall idx available,
  (idx + List.length ls <= MAX_NUM_LIGHTHOUSES)%nat ->
  first_index (fun l => String.eqb (serial l) s) ls = None ->
  search s ls idx available
  = ((idx + List.length ls)%nat,
     if (available =? MAX_NUM_LIGHTHOUSES)%nat then
       match first_index (fun l => timestamp l =? 0) ls with
       | Some j => (idx + j)%nat
       | None => MAX_NUM_LIGHTHOUSES
       end
     else available).
Proof.
  induction ls as [|l ls IH]; intros idx available Hfit H.
  - simpl. rewrite Nat.add_0_r. destruct (Nat.eqb_spec available MAX_NUM_LIGHTHOUSES);
      [subst|]; reflexivity.
  - simpl in H. simpl in Hfit. simpl.
    destruct (String.eqb (serial l) s); [discriminate|].
    destruct (first_index (fun l => String.eqb (serial l) s) ls) eqn:Ek; [discriminate|].
    rewrite IH by (try lia; reflexivity).
    replace (S idx + List.length ls)%nat with (idx + S (List.length ls))%nat by lia.
    f_equal.
    destruct (Nat.eqb_spec available MAX_NUM_LIGHTHOUSES) as [->|Hne];
      destruct (timestamp l =? 0); simpl.
    + destruct (Nat.eqb_spec idx MAX_NUM_LIGHTHOUSES); [lia|]. lia.
    + rewrite Nat.eqb_refl.
      destruct (first_index (fun l => timestamp l =? 0) ls); simpl; lia.
    + destruct (Nat.eqb_spec available MAX_NUM_LIGHTHOUSES); [contradiction|reflexivity].
    + destruct (Nat.eqb_spec available MAX_NUM_LIGHTHOUSES); [contradiction|reflexivity].
Qed.

Ltac float_at data H :=
  match goal with
  | |- context [convert_float (skipn ?n data)] =>
      let bits := fresh "bits" in
      let E := fresh "E" in
      destruct (convert_float_returns (skipn_range n H)) as [bits E];
      rewrite E; cbn [bind]
  end.

Lemma decode_packet_slot_for (t : Tracker) (id : Z) (data : list Z) (tc : Z) :
  List.length (lighthouses (driver t)) = MAX_NUM_LIGHTHOUSES ->
  0 <= id < Z.of_nat (List.length (ootx t)) ->
  Forall (fun b => 0 <= b < 2 ^ 8) data ->
  match slot_for (sprintf_u (uint32_at data 2)) (lighthouses (driver t)) with
  | None =>
      exists line1 line2,
        decode_packet t id data tc
        = Returns (call (printf line2) (call (printf line1) t))
  | Some i =>
      exists lh ctx,
        (i < MAX_NUM_LIGHTHOUSES)%nat /\
        nth_error (ootx t) (Z.to_nat id) = Some ctx /\
        serial lh = sprintf_u (uint32_at data 2) /\
        timestamp lh = tc /\
        decode_packet t id data tc
        = Returns
            (let t' := set_ootx (upd (Z.to_nat id) (set_lighthouse (Some i) ctx) (ootx t))
                         (set_lighthouses (upd i lh (lighthouses (driver t))) t) in
             if has_lighthouse_fn (driver t) then call (lighthouse_fn i) t' else t')
  end.
Proof.
  intros Hls Hid Hdata.
  set (s := sprintf_u (uint32_at data 2)).
  assert (Hchosen : forall i,
    (i < MAX_NUM_LIGHTHOUSES)%nat ->
    (let (idx, available) := search s (lighthouses (driver t)) 0 MAX_NUM_LIGHTHOUSES in
     ((MAX_NUM_LIGHTHOUSES <=? idx)%nat && (available =? MAX_NUM_LIGHTHOUSES)%nat = false) /\
     (if (MAX_NUM_LIGHTHOUSES <=? idx)%nat then available else idx) = i) ->
    exists lh ctx,
      (i < MAX_NUM_LIGHTHOUSES)%nat /\
      nth_error (ootx t) (Z.to_nat id) = Some ctx /\
      serial lh = s /\ timestamp lh = tc /\
      decode_packet t id data tc
      = Returns
          (let t' := set_ootx (upd (Z.to_nat id) (set_lighthouse (Some i) ctx) (ootx t))
                       (set_lighthouses (upd i lh (lighthouses (driver t))) t) in
           if has_lighthouse_fn (driver t) then call (lighthouse_fn i) t' else t')).
  { intros i Hi Hsearch. unfold Tracking.decode_packet. fold s.
    destruct (search s (lighthouses (driver t)) 0 MAX_NUM_LIGHTHOUSES) as [idx available].
    destruct Hsearch as [Hfull Hidx]. rewrite Hfull, Hidx.
    do 10 float_at data Hdata.
    rewrite OotxFacts.store_in by lia. cbn [bind].
    cbn [ootx set_lighthouses].
    destruct (@OotxFacts.load_in OOTX ootx_array (ootx t) id Hid) as [ctx Hctx].
    rewrite Hctx. cbn [bind]. rewrite OotxFacts.store_in by exact Hid. cbn [bind].
    eexists; exists ctx. split; [exact Hi|]. split.
    { unfold load in Hctx. destruct (id <? 0); [discriminate|].
      destruct (nth_error (ootx t) (Z.to_nat id)); [congruence|discriminate]. }
    cbn [driver set_ootx set_lighthouses has_lighthouse_fn]. rewrite Nat2Z.id.
    refine (conj _ (conj _ _)).
    3: destruct (has_lighthouse_fn (driver t)); reflexivity.
    all: reflexivity. }
  unfold slot_for. fold s.
  destruct (first_index (fun l => String.eqb (serial l) s) (lighthouses (driver t)))
    as [i|] eqn:Ematch.
  - destruct (first_index_Some _ _ Ematch) as (Hi & _ & _).
    apply Hchosen; [lia|].
    assert (Hf := @search_found s (lighthouses (driver t)) i 0 MAX_NUM_LIGHTHOUSES Ematch).
    destruct (search s (lighthouses (driver t)) 0 MAX_NUM_LIGHTHOUSES) as [idx available].
    simpl in Hf; subst idx.
    destruct (Nat.leb_spec MAX_NUM_LIGHTHOUSES i); [lia|]. split; reflexivity.
  - assert (Hn := @search_not_found s (lighthouses (driver t)) 0 MAX_NUM_LIGHTHOUSES
                    ltac:(lia) Ematch).
    rewrite Nat.eqb_refl, Hls in Hn. simpl in Hn.
    destruct (first_index (fun l => timestamp l =? 0) (lighthouses (driver t)))
      as [j|] eqn:Efree.
    + destruct (first_index_Some _ _ Efree) as (Hj & _ & _).
      apply Hchosen; [lia|]. rewrite Hn.
      rewrite Nat.leb_refl. destruct (Nat.eqb_spec j MAX_NUM_LIGHTHOUSES); [lia|].
      split; reflexivity.
    + unfold Tracking.decode_packet. fold s. rewrite Hn.
      rewrite Nat.leb_refl, Nat.eqb_refl. cbn [andb].
      do 2 eexists; reflexivity.
Qed.

Lemma nth_error_upd_same {A : Type} (l : list A) (i : nat) (x : A) :
  (i < List.length l)%nat -> nth_error (upd i x l) i = Some x.
Proof.
  revert i; induction l as [|y l IH]; intros [|i] Hi; simpl in *; try lia.
  - reflexivity.
  - apply IH; lia.
Qed.

Lemma nth_error_upd_other {A : Type} (l : list A) (i j : nat) (x : A) :
  i <> j -> nth_error (upd i x l) j = nth_error l j.
Proof.
  revert i j; induction l as [|y l IH]; intros [|i] [|j] Hij; simpl; try reflexivity.
  - congruence.
  - apply IH; congruence.
Qed.

(** X10: [decode_packet] keeps one element of [driver->lighthouses] per
    serial number. The packet goes to the first element that bears its
    serial number, or else to the first element without a timestamp: that
    element gets the serial number and the timestamp [tc], every other
    element is left as it was, and [ootx[id]] points at it. When neither
    exists, nothing is stored and two lines are printed. The counters
    [idx] and [available] are [uint8_t], so the constant is below 256. *)
Theorem decode_packet_stores_by_serial (t : Tracker) (id : Z) (data : list Z) (tc : Z) :
  Z.of_nat MAX_NUM_LIGHTHOUSES < 2 ^ 8 ->
  List.length (lighthouses (driver t)) = MAX_NUM_LIGHTHOUSES ->
  0 <= id < Z.of_nat (List.length (ootx t)) ->
  Forall (fun b => 0 <= b < 2 ^ 8) data ->
  exists t',
    decode_packet t id data tc = Returns t' /\
    lcd t' = lcd t /\
    match slot_for (sprintf_u (uint32_at data 2)) (lighthouses (driver t)) with
    | None =>
        lighthouses (driver t') = lighthouses (driver t) /\
        ootx t' = ootx t /\
        exists line1 line2, calls t' = printf line2 :: printf line1 :: calls t
    | Some i =>
        (exists lh,
           nth_error (lighthouses (driver t')) i = Some lh /\
           serial lh = sprintf_u (uint32_at data 2) /\
           timestamp lh = tc) /\
        (forall j, j <> i ->
           nth_error (lighthouses (driver t')) j
           = nth_error (lighthouses (driver t)) j) /\
        (exists ctx,
           nth_error (ootx t') (Z.to_nat id) = Some ctx /\
           lighthouse ctx = Some i) /\
        (forall j, j <> Z.to_nat id -> nth_error (ootx t') j = nth_error (ootx t) j) /\
        calls t' = (if has_lighthouse_fn (driver t) then [lighthouse_fn i] else [])
                   ++ calls t
    end.
Proof.
  intros _ Hls Hid Hdata.
  assert (H := decode_packet_slot_for t tc Hls Hid Hdata).
  destruct (slot_for _ _) as [i|].
  - destruct H as (lh & ctx & Hi & Hctx & Hs & Htc & ->).
    eexists; split; [reflexivity|]. cbv zeta.
    split; [destruct (has_lighthouse_fn (driver t)); reflexivity|].
    split; [|split; [|split; [|split]]].
    + exists lh. split; [|split; assumption].
      destruct (has_lighthouse_fn (driver t)); cbn; apply nth_error_upd_same; lia.
    + intros j Hj.
      destruct (has_lighthouse_fn (driver t)); cbn; apply nth_error_upd_other; congruence.
    + exists (set_lighthouse (Some i) ctx). split; [|reflexivity].
      destruct (has_lighthouse_fn (driver t)); cbn; apply nth_error_upd_same; lia.
    + intros j Hj.
      destruct (has_lighthouse_fn (driver t)); cbn; apply nth_error_upd_other; congruence.
    + destruct (has_lighthouse_fn (driver t)); reflexivity.
  - destruct H as (line1 & line2 & ->).
    eexists; split; [reflexivity|]. split; [reflexivity|].
    split; [reflexivity|]. split; [reflexivity|]. exists line1, line2; reflexivity.
Qed.

(** X11: a lighthouse keeps its element. Whatever [decode_packet] stores,
    a later packet with the same serial number is directed to the element
    this one was directed to. *)
Theorem decode_packet_serial_keeps_slot (t : Tracker) (id : Z) (data : list Z)
        (tc : Z) :
  Z.of_nat MAX_NUM_LIGHTHOUSES < 2 ^ 8 ->
  List.length (lighthouses (driver t)) = MAX_NUM_LIGHTHOUSES ->
  0 <= id < Z.of_nat (List.length (ootx t)) ->
  Forall (fun b => 0 <= b < 2 ^ 8) data ->
  exists t',
    decode_packet t id data tc = Returns t' /\
    slot_for (sprintf_u (uint32_at data 2)) (lighthouses (driver t'))
    = slot_for (sprintf_u (uint32_at data 2)) (lighthouses (driver t)).
Proof.
  intros _ Hls Hid Hdata.
  assert (H := decode_packet_slot_for t tc Hls Hid Hdata).
  set (s := sprintf_u (uint32_at data 2)) in *.
  destruct (slot_for s (lighthouses (driver t))) as [i|] eqn:Eslot.
  - destruct H as (lh & ctx & Hi & Hctx & Hs & Htc & ->).
    eexists; split; [reflexivity|]. cbv zeta.
    assert (Hl : lighthouses (driver
                   (if has_lighthouse_fn (driver t)
                    then call (lighthouse_fn i)
                           (set_ootx (upd (Z.to_nat id) (set_lighthouse (Some i) ctx) (ootx t))
                              (set_lighthouses (upd i lh (lighthouses (driver t))) t))
                    else set_ootx (upd (Z.to_nat id) (set_lighthouse (Some i) ctx) (ootx t))
                           (set_lighthouses (upd i lh (lighthouses (driver t))) t)))
                 = upd i lh (lighthouses (driver t)))
      by (destruct (has_lighthouse_fn (driver t)); reflexivity).
    rewrite Hl. unfold slot_for in *.
    rewrite (@first_index_upd _ (fun l => String.eqb (serial l) s)); [reflexivity|lia| |].
    + rewrite Hs; apply String.eqb_refl.
    + intros j y Hj Hy.
      destruct (first_index (fun l => String.eqb (serial l) s) (lighthouses (driver t)))
        as [k|] eqn:Ek.
      * injection Eslot as ->.
        destruct (first_index_Some _ _ Ek) as (_ & _ & Hbefore). apply (Hbefore j); assumption.
      * apply (first_index_None _ _ Ek j); exact Hy.
  - destruct H as (line1 & line2 & ->).
    eexists; split; [reflexivity|]. cbn. exact Eslot.
Qed.

(** *** [handle_acode] *)

(** X12: on the lengths [deepdive_data_light] takes for a sync pulse,
    2751 to 6750, [handle_acode] returns the number of whole 500 ticks
    above 2750, which is 0 to 7 and 8 at 6750 alone; an [acode_offset]
    within 250 of zero stays there; nothing else of the tracker changes. *)
Theorem handle_acode_of_sync_length (t : Tracker) (length : Z) :
  2750 < length <= 6750 ->
  snd (handle_acode t length) = (length - 2750) / 500 /\
  0 <= snd (handle_acode t length) <= 8 /\
  (snd (handle_acode t length) = 8 <-> length = 6750) /\
  ((-250 <= acode_offset t <= 250)%R ->
   (-250 <= acode_offset (fst (handle_acode t length)) <= 250)%R) /\
  lcd (fst (handle_acode t length)) = lcd t /\
  ootx (fst (handle_acode t length)) = ootx t /\
  driver (fst (handle_acode t length)) = driver t /\
  calls (fst (handle_acode t length)) = calls t.
Proof.
  intros Hl. unfold handle_acode. cbn [fst snd].
  assert (Hq : Z.quot (length - 2750) 500 = (length - 2750) / 500)
    by (apply Z.quot_div_nonneg; lia).
  assert (Hd : 0 <= (length - 2750) / 500 <= 8).
  { split; [apply Z.div_pos; lia|]. apply Z.div_le_upper_bound; lia. }
  rewrite Hq. unfold uint8_t. rewrite Z.mod_small by lia.
  split; [reflexivity|]. split; [exact Hd|]. split.
  { split; intro H.
    - assert (8 * 500 <= length - 2750); [|lia].
      rewrite <- H. rewrite Z.mul_comm. apply Z.mul_div_le; lia.
    - subst length. reflexivity. }
  split; [|repeat split].
  intros Ho. cbn [acode_offset set_acode_offset].
  rewrite Z.rem_mod_nonneg by lia.
  assert (Hm := Z.mod_pos_bound (length + 250) 500 ltac:(lia)).
  set (new := (length + 250) mod 500 - 250) in *.
  assert (Hlo : (IZR (-250) <= IZR new)%R) by (apply IZR_le; unfold new; lia).
  assert (Hhi : (IZR new <= IZR 250)%R) by (apply IZR_le; unfold new; lia).
  lra.
Qed.

(** *** [handle_measurements] *)

Lemma seq_sorted (n a : nat) : StronglySorted lt (seq a n).
Proof.
  revert a; induction n as [|n IH]; intro a; simpl; constructor; [apply IH|].
  apply Forall_forall; intros x Hx; apply in_seq in Hx; lia.
Qed.

Lemma filter_sorted {A : Type} (R : A -> A -> Prop) (p : A -> bool) (l : list A) :
  StronglySorted R l -> StronglySorted R (filter p l).
Proof.
  induction 1 as [|x l Hl IH Hx]; simpl; [constructor|].
  destruct (p x); [|exact IH]. constructor; [exact IH|].
  apply Forall_forall; intros y Hy. apply filter_In in Hy.
  rewrite Forall_forall in Hx; apply Hx; tauto.
Qed.

Lemma map_sorted {A B : Type} (R : A -> A -> Prop) (S : B -> B -> Prop) (f : A -> B)
      (l : list A) :
  (forall x y, In x l -> In y l -> R x y -> S (f x) (f y)) ->
  StronglySorted R l -> StronglySorted S (map f l).
Proof.
  intros Hf H; induction H as [|x l Hl IH Hx]; simpl; constructor.
  - apply IH; intros; apply Hf; simpl; auto.
  - apply Forall_forall; intros y Hy. apply in_map_iff in Hy.
    destruct Hy as (z & <- & Hz). rewrite Forall_forall in Hx.
    apply Hf; simpl; auto.
Qed.

Lemma memset_zero (l : list Z) :
  List.length (memset l) = List.length l /\ Forall (fun x => x = 0) (memset l).
Proof.
  unfold memset; split; [apply length_map|].
  apply Forall_forall; intros x Hx; apply in_map_iff in Hx.
  destruct Hx as (? & <- & _); reflexivity.
Qed.

Local Abbreviation hit := (Tracking.hit MAX_NUM_SENSORS).
Local Abbreviation handle_measurements := (Tracking.handle_measurements MAX_NUM_SENSORS).

Lemma axis_of_acode (acode : Z) :
  (uint8_t (Z.land acode 1) =? 0) = Z.even acode.
Proof.
  change 1 with (Z.ones 1) at 1. rewrite Z.land_ones by lia.
  change (2 ^ 1) with 2. unfold uint8_t.
  rewrite Zmod_even. destruct (Z.even acode); reflexivity.
Qed.

(** X13: [handle_measurements] reports the sensors hit since the last sync
    pulse, and clears them. When [ootx[lh]] is an element of the array
    whenever a sensor was hit, the call returns. With [sensors] the
    indices below [MAX_NUM_SENSORS] whose [sweep_len] is not zero, in
    increasing order, [lig_fn] is called, once, exactly when [sensors] is
    not empty, the OOTX of the active lighthouse was decoded and the
    callback is set: for that lighthouse, the axis that is the parity of
    the active acode, the start of the sweep, and for each of the sensors
    its index, the time of its hit, that time less the start of the sweep
    plus half the length of the hit, and the length of the hit. Afterwards
    both sweep arrays are zero; nothing else changes. [num_sensors] is a
    [uint16_t], so the constant is below 65536. *)
Theorem handle_measurements_reports_hits (t : Tracker) :
  MAX_NUM_SENSORS < 2 ^ 16 ->
  (hit (lcd t) <> [] ->
   uint8_t (activeLighthouse (per_sweep (lcd t))) < Z.of_nat (List.length (ootx t))) ->
  exists t' sensors,
    handle_measurements t = Returns t' /\
    sensors = map Z.of_nat (hit (lcd t)) /\
    StronglySorted Z.lt sensors /\
    (forall i, In i sensors <->
               0 <= i < MAX_NUM_SENSORS /\
               nth (Z.to_nat i) (sweep_len (sweep (lcd t))) 0 <> 0) /\
    calls t'
    = match sensors,
            nth_error (ootx t)
                      (Z.to_nat (uint8_t (activeLighthouse (per_sweep (lcd t))))) with
      | _ :: _, Some ctx =>
          match lighthouse ctx with
          | Some lh =>
              if has_lig_fn (driver t) then
                lig_fn lh
                  (if Z.even (activeAcode (per_sweep (lcd t)))
                   then MOTOR_AXIS0 else MOTOR_AXIS1)
                  (uint32_t (activeSweepStartTime (per_sweep (lcd t))))
                  (Z.of_nat (List.length sensors))
                  sensors
                  (map (fun i => uint32_t (nth (Z.to_nat i) (sweep_time (sweep (lcd t))) 0))
                       sensors)
                  (map (fun i =>
                          uint32_t (nth (Z.to_nat i) (sweep_time (sweep (lcd t))) 0
                                    - activeSweepStartTime (per_sweep (lcd t))
                                    + Z.quot (nth (Z.to_nat i)
                                                  (sweep_len (sweep (lcd t))) 0) 2))
                       sensors)
                  (map (fun i => uint16_t (nth (Z.to_nat i) (sweep_len (sweep (lcd t))) 0))
                       sensors)
                :: calls t
              else calls t
          | None => calls t
          end
      | _, _ => calls t
      end /\
    per_sweep (lcd t') = per_sweep (lcd t) /\
    List.length (sweep_len (sweep (lcd t'))) = List.length (sweep_len (sweep (lcd t))) /\
    List.length (sweep_time (sweep (lcd t'))) = List.length (sweep_time (sweep (lcd t))) /\
    Forall (fun x => x = 0) (sweep_len (sweep (lcd t'))) /\
    Forall (fun x => x = 0) (sweep_time (sweep (lcd t'))) /\
    ootx t' = ootx t /\ driver t' = driver t.
Proof.
  intros Hmax Hlh. unfold Tracking.handle_measurements.
  set (hits := hit (lcd t)) in *.
  assert (Hhits : forall i, In i hits <->
                            (i < Z.to_nat MAX_NUM_SENSORS)%nat /\
                            nth i (sweep_len (sweep (lcd t))) 0 <> 0).
  { intro i. unfold hits, Tracking.hit. rewrite filter_In, in_seq.
    destruct (Z.eqb_spec (nth i (sweep_len (sweep (lcd t))) 0) 0); simpl;
      intuition (try lia; try congruence). }
  destruct (memset_zero (sweep_len (sweep (lcd t)))) as [Hl1 Hz1].
  destruct (memset_zero (sweep_time (sweep (lcd t)))) as [Hl2 Hz2].
  assert (Hsmall : forall i, In i hits -> uint16_t (Z.of_nat i) = Z.of_nat i).
  { intros i Hi. apply Hhits in Hi. unfold uint16_t. apply Z.mod_small. lia. }
  assert (Es : map (fun i => uint16_t (Z.of_nat i)) hits = map Z.of_nat hits)
    by (apply map_ext_in; exact Hsmall).
  assert (Em : forall f : nat -> Z,
             map f hits = map (fun i => f (Z.to_nat i)) (map Z.of_nat hits)).
  { intro f. rewrite map_map. apply map_ext. intro i. rewrite Nat2Z.id. reflexivity. }
  assert (Hsorted : StronglySorted Z.lt (map Z.of_nat hits)).
  { apply (@map_sorted nat Z lt Z.lt).
    - intros x y _ _ Hxy. lia.
    - unfold hits, Tracking.hit. apply filter_sorted, seq_sorted. }
  assert (Hin : forall i, In i (map Z.of_nat hits) <->
                          0 <= i < MAX_NUM_SENSORS /\
                          nth (Z.to_nat i) (sweep_len (sweep (lcd t))) 0 <> 0).
  { intro i. rewrite in_map_iff. split.
    - intros (k & <- & Hk). apply Hhits in Hk. rewrite Nat2Z.id. lia.
    - intros [Hi Hnz]. exists (Z.to_nat i). split; [lia|].
      apply Hhits. split; [lia|exact Hnz]. }
  rewrite Es, axis_of_acode.
  rewrite (Em (fun i => uint32_t (nth i (sweep_time (sweep (lcd t))) 0))).
  rewrite (Em (fun i => uint32_t (nth i (sweep_time (sweep (lcd t))) 0
                                  - activeSweepStartTime (per_sweep (lcd t))
                                  + Z.quot (nth i (sweep_len (sweep (lcd t))) 0) 2))).
  rewrite (Em (fun i => uint16_t (nth i (sweep_len (sweep (lcd t))) 0))).
  replace (List.length hits) with (List.length (map Z.of_nat hits)) by apply length_map.
  destruct (Z.ltb_spec 0 (Z.of_nat (List.length (map Z.of_nat hits)))) as [Hsome|Hnone].
  - assert (Hne : hits <> []) by (destruct hits; [simpl in Hsome; lia|discriminate]).
    specialize (Hlh Hne).
    assert (Hu : 0 <= uint8_t (activeLighthouse (per_sweep (lcd t))))
      by (unfold uint8_t; apply Z.mod_pos_bound; lia).
    destruct (@OotxFacts.load_in OOTX ootx_array (ootx t) _ (conj Hu Hlh)) as [ctx Hctx].
    rewrite Hctx. cbn [bind].
    assert (Hnth : nth_error (ootx t)
                     (Z.to_nat (uint8_t (activeLighthouse (per_sweep (lcd t))))) = Some ctx).
    { unfold load in Hctx. destruct (_ <? 0); [discriminate|].
      destruct (nth_error (ootx t) _); [congruence|discriminate]. }
    rewrite Hnth.
    destruct (map Z.of_nat hits) as [|z zs] eqn:Ez;
      [destruct hits; [congruence|discriminate]|].
    destruct (lighthouse ctx) as [p|];
      [destruct (has_lig_fn (driver t))|];
      (do 2 eexists; split; [reflexivity|]; cbn;
       repeat (split; [first [reflexivity|assumption]|]); reflexivity).
  - assert (Hnil : map Z.of_nat hits = [])
      by (destruct (map Z.of_nat hits); [reflexivity|simpl in Hnone; lia]).
    cbn [bind]. do 2 eexists; split; [reflexivity|]. cbn.
    split; [reflexivity|]. split; [assumption|]. split; [assumption|].
    split; [rewrite Hnil; reflexivity|].
    repeat (split; [first [reflexivity|assumption]|]). reflexivity.
Qed.

(** *** A stream of reports *)

Lemma fold_select_fields (l : list nat) (ps : per_sweep_data) :
  recent_sync_time (fold_left select_active l ps) = recent_sync_time ps /\
  lh_start_time (fold_left select_active l ps) = lh_start_time ps /\
  lh_max_pulse_length (fold_left select_active l ps) = lh_max_pulse_length ps /\
  lh_acode (fold_left select_active l ps) = lh_acode ps /\
  current_lh (fold_left select_active l ps) = current_lh ps.
Proof.
  revert ps; induction l as [|i l IH]; intro ps; simpl; [repeat split|].
  destruct (IH (select_active ps i)) as (H1 & H2 & H3 & H4 & H5).
  rewrite H1, H2, H3, H4, H5. unfold select_active.
  destruct (_ && _); repeat split.
Qed.

Lemma fold_select_active (l : list nat) (ps : per_sweep_data) :
  activeLighthouse (fold_left select_active l ps) = activeLighthouse ps \/
  exists i, In i l /\ activeLighthouse (fold_left select_active l ps) = Z.of_nat i.
Proof.
  revert ps; induction l as [|i l IH]; intro ps; simpl; [left; reflexivity|].
  destruct (IH (select_active ps i)) as [H|(k & Hk & H)].
  - rewrite H. unfold select_active. destruct (_ && _); [|left; reflexivity].
    right; exists i; split; [left; reflexivity|reflexivity].
  - right; exists k; split; [right; exact Hk|exact H].
Qed.

Lemma selected_range (ps : per_sweep_data) :
  -1 <= selected MAX_NUM_LIGHTHOUSES ps < Z.of_nat MAX_NUM_LIGHTHOUSES.
Proof.
  unfold selected.
  destruct (fold_select_active (seq 0 MAX_NUM_LIGHTHOUSES) (reset_active ps))
    as [H|(i & Hi & H)]; rewrite H.
  - simpl. lia.
  - apply in_seq in Hi. lia.
Qed.

(** The selection reads [lh_acode] alone. *)
Lemma fold_select_acode (l : list nat) (ps ps' : per_sweep_data) :
  lh_acode ps = lh_acode ps' -> activeLighthouse ps = activeLighthouse ps' ->
  activeLighthouse (fold_left select_active l ps)
  = activeLighthouse (fold_left select_active l ps').
Proof.
  revert ps ps'; induction l as [|i l IH]; intros ps ps' Ha Hl; simpl; [exact Hl|].
  apply IH; unfold select_active; rewrite Ha; destruct (_ && _); simpl; congruence.
Qed.

Lemma selected_acode (ps ps' : per_sweep_data) :
  lh_acode ps = lh_acode ps' ->
  selected MAX_NUM_LIGHTHOUSES ps = selected MAX_NUM_LIGHTHOUSES ps'.
Proof. intro H; unfold selected; apply fold_select_acode; [exact H|reflexivity]. Qed.

Local Abbreviation consistent := (Tracking.consistent MAX_NUM_SENSORS MAX_NUM_LIGHTHOUSES).

Lemma hit_sweep (l l' : lightcap_data) : sweep l = sweep l' -> hit l = hit l'.
Proof. intro H; unfold Tracking.hit; rewrite H; reflexivity. Qed.

Lemma hit_memset (ps : per_sweep_data) (lens times : list Z) :
  hit {| per_sweep := ps;
         sweep := {| sweep_len := memset lens; sweep_time := times |} |} = [].
Proof.
  unfold Tracking.hit. cbn [sweep sweep_len].
  induction (seq 0 (Z.to_nat MAX_NUM_SENSORS)) as [|i l IH]; [reflexivity|].
  simpl. replace (nth i (memset lens) 0) with 0; [exact IH|].
  destruct (nth_in_or_default i (memset lens) 0) as [Hin|E]; [|congruence].
  destruct (memset_zero lens) as [_ Hz]. rewrite Forall_forall in Hz.
  symmetry; apply Hz; exact Hin.
Qed.

Lemma handle_sweep_consistent (t : Tracker) (timecode sensor length : Z) :
  consistent t -> 0 <= sensor < MAX_NUM_SENSORS ->
  exists l,
    handle_sweep MAX_NUM_LIGHTHOUSES (lcd t) timecode sensor length = Done l /\
    consistent (set_lcd l t).
Proof.
  intros (L1 & L2 & L3 & L4 & L5 & Hc & Hact & L6 & L7 & Hb) Hs.
  unfold handle_sweep.
  set (ps := fold_left select_active (seq 0 MAX_NUM_LIGHTHOUSES)
                       (reset_active (per_sweep (lcd t)))).
  assert (Hsel : activeLighthouse ps = selected MAX_NUM_LIGHTHOUSES (per_sweep (lcd t)))
    by reflexivity.
  destruct (fold_select_fields (seq 0 MAX_NUM_LIGHTHOUSES)
                               (reset_active (per_sweep (lcd t))))
    as (_ & F2 & F3 & F4 & F5).
  fold ps in F2, F3, F4, F5. cbn [reset_active lh_start_time lh_max_pulse_length
                              lh_acode current_lh] in F2, F3, F4, F5.
  assert (Hsame : selected MAX_NUM_LIGHTHOUSES ps
                  = selected MAX_NUM_LIGHTHOUSES (per_sweep (lcd t)))
    by (apply selected_acode; exact F4).
  destruct (Z.ltb_spec (activeLighthouse ps) 0) as [Hneg|Hpos].
  - eexists; split; [reflexivity|].
    unfold Tracking.consistent. cbn [lcd set_lcd per_sweep sweep ootx driver].
    rewrite F2, F3, F4, F5.
    repeat (split; [assumption|]). split; [|repeat split; assumption].
    intro Hh. rewrite (@hit_sweep _ (lcd t)) in Hh by reflexivity.
    destruct (Hact Hh) as [_ Hge]. lia.
  - destruct (nth_error (sweep_len (sweep (lcd t))) (Z.to_nat sensor)) as [len0|] eqn:E.
    2: { apply nth_error_None in E. lia. }
    destruct (len0 <? length).
    + eexists; split; [reflexivity|].
      unfold Tracking.consistent. cbn [lcd set_lcd per_sweep sweep ootx driver
                                       sweep_len sweep_time].
      rewrite F2, F3, F4, F5, !OotxFacts.upd_length.
      repeat (split; [assumption|]). split; [|repeat split; assumption].
      intros _. rewrite Hsame. split; [exact Hsel|lia].
    + eexists; split; [reflexivity|].
      unfold Tracking.consistent. cbn [lcd set_lcd per_sweep sweep ootx driver].
      rewrite F2, F3, F4, F5.
      repeat (split; [assumption|]). split; [|repeat split; assumption].
      intros _. rewrite Hsame. split; [exact Hsel|lia].
Qed.

Lemma lor_range (y z n : Z) :
  0 <= n -> 0 <= y < 2 ^ n -> 0 <= z < 2 ^ n -> 0 <= Z.lor y z < 2 ^ n.
Proof.
  intros Hn Hy Hz.
  assert (E : Z.lor y z = Z.lor y z mod 2 ^ n).
  { rewrite <- Z.land_ones, Z.land_lor_distr_l, !Z.land_ones by lia.
    rewrite !Z.mod_small by lia. reflexivity. }
  rewrite E. apply Z.mod_pos_bound. apply Z.pow_pos_nonneg; lia.
Qed.

Lemma bit_range (b : bool) (k : Z) :
  0 <= k <= 7 -> 0 <= Z.shiftl (Z.b2z b) k < 2 ^ 8.
Proof.
  intro Hk. rewrite Z.shiftl_mul_pow2 by lia.
  assert (0 < 2 ^ k) by (apply Z.pow_pos_nonneg; lia).
  assert (2 ^ k <= 2 ^ 7) by (apply Z.pow_le_mono_r; lia).
  destruct b; simpl Z.b2z; lia.
Qed.

Lemma Forall_upd {A : Type} (P : A -> Prop) (l : list A) (i : nat) (x : A) :
  Forall P l -> P x -> Forall P (upd i x l).
Proof.
  intros Hl Hx; revert i; induction Hl as [|y l Hy Hl IH]; intros [|i]; simpl;
    constructor; auto.
Qed.

Lemma load_cases {A : Type} (array : Array) (l : list A) (i : Z) :
  (exists x, load array l i = Returns x /\ In x l /\ 0 <= i < Z.of_nat (List.length l)) \/
  load array l i = Outside array i.
Proof.
  unfold load. destruct (Z.ltb_spec i 0); [right; reflexivity|].
  destruct (nth_error l (Z.to_nat i)) as [x|] eqn:E; [left|right; reflexivity].
  exists x. split; [reflexivity|]. split; [apply (nth_error_In _ _ E)|].
  assert (nth_error l (Z.to_nat i) <> None) by congruence.
  apply nth_error_Some in H0. lia.
Qed.

Ltac red_sel :=
  cbv beta iota;
  cbn [state data length pad pos syn crc preamble lighthouse
       set_state set_data set_length set_pad set_pos set_syn set_crc set_preamble
       set_lighthouse].

Lemma feed_holds_bytes (ctx : OOTX) (bit : bool) :
  holds_bytes ctx ->
  match feed PREAMBLE_LENGTH MAX_PACKET_LEN crc32 ctx bit with
  | Returns (ctx', packet) =>
      holds_bytes ctx' /\
      lighthouse ctx' = lighthouse ctx /\
      (forall d, packet = Some d -> Forall (fun b => 0 <= b < 2 ^ 8) d)
  | Outside array _ => array = data_array
  | Loops => False
  end.
Proof.
  intros [Hd Hs]. unfold feed, holds_bytes.
  destruct (bit && (PREAMBLE_LENGTH <=? preamble ctx)).
  { red_sel. split; [split; [exact Hd|lia]|]. split; [reflexivity|discriminate]. }
  cbn [state set_preamble]. destruct (state ctx).
  - red_sel. split; [split; assumption|]. split; [reflexivity|discriminate].
  - cbn [syn length pad data set_preamble set_length set_pad set_state].
    destruct (syn ctx =? 16).
    + destruct (_ <=? Z.of_nat MAX_PACKET_LEN).
      * red_sel. split; [split; [|lia]|split; [reflexivity|discriminate]].
        destruct (memset_zero (data ctx)) as [_ Hz].
        eapply Forall_impl; [|exact Hz]. intros a ->; lia.
      * red_sel. split; [split; assumption|]. split; [reflexivity|discriminate].
    + red_sel. split; [split; [assumption|lia]|]. split; [reflexivity|discriminate].
  - cbn [syn pos length pad data set_preamble set_pos].
    set (at_byte := (syn ctx =? 8) || (syn ctx =? 16)).
    destruct at_byte.
    + cbn [andb syn pos length pad data set_preamble set_pos].
      destruct (pos ctx + 1 =? length ctx + pad ctx).
      { red_sel. split; [split; [assumption|lia]|]. split; [reflexivity|discriminate]. }
      destruct (syn ctx =? 16).
      { red_sel. split; [split; [assumption|lia]|]. split; [reflexivity|discriminate]. }
      destruct (@load_cases Z data_array (data ctx) (pos ctx + 1))
        as [(y & Hy & Hin & Hi)| ->]; [|reflexivity].
      rewrite Hy. cbn [bind]. rewrite OotxFacts.store_in by exact Hi. cbn [bind]. red_sel.
      split; [split; [|lia]|split; [reflexivity|discriminate]].
      apply Forall_upd; [exact Hd|]. rewrite Forall_forall in Hd.
      apply lor_range; [lia|apply Hd; exact Hin|].
      apply bit_range. assert (Hr := Z.rem_bound_pos (syn ctx) 8 Hs ltac:(lia)). lia.
    + cbn [andb syn pos length pad data set_preamble set_pos].
      destruct (syn ctx =? 16).
      { red_sel. split; [split; [assumption|lia]|]. split; [reflexivity|discriminate]. }
      destruct (@load_cases Z data_array (data ctx) (pos ctx))
        as [(y & Hy & Hin & Hi)| ->]; [|reflexivity].
      rewrite Hy. cbn [bind]. rewrite OotxFacts.store_in by exact Hi. cbn [bind]. red_sel.
      split; [split; [|lia]|split; [reflexivity|discriminate]].
      apply Forall_upd; [exact Hd|]. rewrite Forall_forall in Hd.
      apply lor_range; [lia|apply Hd; exact Hin|].
      apply bit_range. assert (Hr := Z.rem_bound_pos (syn ctx) 8 Hs ltac:(lia)). lia.
  - cbn [syn pos length pad data set_preamble set_pos].
    set (at_byte := (syn ctx =? 8) || (syn ctx =? 16)).
    destruct at_byte.
    + cbn [andb syn pos length pad data set_preamble set_pos].
      destruct (pos ctx + 1 =? 4).
      { red_sel. split; [split; [assumption|lia]|]. split; [reflexivity|].
        intros d Hp. destruct (_ =? swapl _); [|discriminate].
        injection Hp as <-. exact Hd. }
      destruct (syn ctx =? 16).
      { red_sel. split; [split; [assumption|lia]|]. split; [reflexivity|discriminate]. }
      red_sel. split; [split; [assumption|lia]|]. split; [reflexivity|discriminate].
    + cbn [andb syn pos length pad data set_preamble set_pos].
      destruct (syn ctx =? 16).
      { red_sel. split; [split; [assumption|lia]|]. split; [reflexivity|discriminate]. }
      red_sel. split; [split; [assumption|lia]|]. split; [reflexivity|discriminate].
Qed.

Lemma consistent_same_lcd (t t' : Tracker) :
  consistent t -> lcd t' = lcd t ->
  List.length (ootx t') = MAX_NUM_LIGHTHOUSES ->
  List.length (lighthouses (driver t')) = MAX_NUM_LIGHTHOUSES ->
  Forall holds_bytes (ootx t') ->
  consistent t'.
Proof.
  intros (L1 & L2 & L3 & L4 & L5 & Hc & Hact & _) E Ho Hl Hb.
  unfold Tracking.consistent. rewrite E. repeat (split; [assumption|]). assumption.
Qed.

Local Abbreviation ootx_feed :=
  (Tracking.ootx_feed MAX_NUM_LIGHTHOUSES PREAMBLE_LENGTH MAX_PACKET_LEN crc32).

Lemma ootx_feed_consistent (t : Tracker) (lh : Z) (bit : bool) (tc : Z) :
  consistent t -> 0 <= lh ->
  match ootx_feed t lh bit tc with
  | Returns t' => consistent t'
  | Outside array _ => array = data_array
  | Loops => False
  end.
Proof.
  intros Hc Hlh. assert (Hc' := Hc).
  destruct Hc' as (_ & _ & _ & _ & _ & _ & _ & Lo & Ll & Hb).
  unfold Tracking.ootx_feed.
  destruct (Z.leb_spec (Z.of_nat MAX_NUM_LIGHTHOUSES) lh) as [|Hlt]; [exact Hc|].
  destruct (@load_cases OOTX ootx_array (ootx t) lh) as [(ctx & Hctx & Hin & Hi)|E];
    [|unfold load in E; destruct (Z.ltb_spec lh 0); [lia|];
      destruct (nth_error (ootx t) (Z.to_nat lh)) eqn:En; [discriminate|];
      apply nth_error_None in En; lia].
  rewrite Hctx. cbn [bind].
  assert (Hctx_ok : holds_bytes ctx) by (rewrite Forall_forall in Hb; apply Hb; exact Hin).
  assert (Hf := @feed_holds_bytes ctx bit Hctx_ok).
  destruct (feed PREAMBLE_LENGTH MAX_PACKET_LEN crc32 ctx bit) as [[ctx' packet]|a i|];
    [|exact Hf|exact Hf].
  destruct Hf as (Hok & Hsame & Hpacket).
  cbn [bind fst snd]. rewrite OotxFacts.store_in by exact Hi. cbn [bind].
  set (t1 := set_ootx (upd (Z.to_nat lh) ctx' (ootx t)) t).
  assert (Hb1 : Forall holds_bytes (ootx t1))
    by (unfold t1; cbn; apply Forall_upd; assumption).
  assert (Lo1 : List.length (ootx t1) = MAX_NUM_LIGHTHOUSES)
    by (unfold t1; cbn; rewrite OotxFacts.upd_length; exact Lo).
  assert (Hc1 : consistent t1) by (apply (@consistent_same_lcd t t1 Hc); assumption || reflexivity).
  destruct packet as [d|]; [|exact Hc1].
  assert (Hd : Forall (fun b => 0 <= b < 2 ^ 8) d) by (apply Hpacket; reflexivity).
  assert (Hid : 0 <= lh < Z.of_nat (List.length (ootx t1))) by lia.
  assert (Hs := @decode_packet_slot_for t1 lh d tc Ll Hid Hd).
  destruct (slot_for _ _) as [i|].
  - destruct Hs as (l & c & Hilt & Hc2 & _ & _ & ->). cbv zeta.
    assert (Hcok : holds_bytes (set_lighthouse (Some i) c)).
    { assert (Hin2 : In c (ootx t1)) by (apply (nth_error_In _ _ Hc2)).
      rewrite Forall_forall in Hb1. apply Hb1 in Hin2. exact Hin2. }
    eapply (@consistent_same_lcd t1 _ Hc1);
      destruct (has_lighthouse_fn (driver t1)); cbn;
      rewrite ?OotxFacts.upd_length; try assumption; try reflexivity;
      apply Forall_upd; assumption.
  - destruct Hs as (line1 & line2 & ->).
    eapply (@consistent_same_lcd t1 _ Hc1); try assumption; reflexivity.
Qed.

Lemma handle_measurements_returns (t : Tracker) :
  Z.of_nat MAX_NUM_LIGHTHOUSES <= 2 ^ 8 ->
  consistent t ->
  exists t',
    handle_measurements t = Returns t' /\
    lcd t' = {| per_sweep := per_sweep (lcd t);
                sweep := {| sweep_len := memset (sweep_len (sweep (lcd t)));
                            sweep_time := memset (sweep_time (sweep (lcd t))) |} |} /\
    ootx t' = ootx t /\ driver t' = driver t.
Proof.
  intros Hmax (_ & _ & _ & _ & _ & _ & Hact & Lo & _).
  unfold Tracking.handle_measurements.
  destruct (Z.ltb_spec 0 (Z.of_nat (List.length (hit (lcd t))))) as [Hsome|Hnone].
  - assert (Hne : hit (lcd t) <> [])
      by (destruct (hit (lcd t)); [simpl in Hsome; lia|discriminate]).
    destruct (Hact Hne) as [Ea Hge].
    assert (Hr := selected_range (per_sweep (lcd t))).
    assert (Hu : uint8_t (activeLighthouse (per_sweep (lcd t)))
                 = activeLighthouse (per_sweep (lcd t)))
      by (unfold uint8_t; apply Z.mod_small; lia).
    rewrite Hu.
    destruct (@OotxFacts.load_in OOTX ootx_array (ootx t)
                (activeLighthouse (per_sweep (lcd t))) ltac:(lia)) as [ctx Hctx].
    rewrite Hctx. cbn [bind].
    destruct (lighthouse ctx); [destruct (has_lig_fn (driver t))|];
      eexists; (split; [reflexivity|]); repeat split.
  - cbn [bind]. eexists; split; [reflexivity|]. repeat split.
Qed.

Lemma fill_in (array : Array) (n : nat) :
  forall (l : list Z) (x i : Z),
  0 <= i -> (Z.to_nat i + n <= List.length l)%nat ->
  exists l', fill array l x i n = Returns l' /\ List.length l' = List.length l.
Proof.
  induction n as [|n IH]; intros l x i Hi Hn; simpl.
  - eauto.
  - rewrite OotxFacts.store_in by lia. cbn [bind].
    destruct (IH (upd (Z.to_nat i) x l) x (i + 1)) as (l' & Hl' & Hlen).
    + lia.
    + rewrite OotxFacts.upd_length. lia.
    + exists l'. split; [exact Hl'|]. rewrite Hlen. apply OotxFacts.upd_length.
Qed.

Local Abbreviation handle_sync :=
  (Tracking.handle_sync MAX_NUM_SENSORS MAX_NUM_LIGHTHOUSES PREAMBLE_LENGTH
                        MAX_PACKET_LEN crc32).

Lemma handle_sync_consistent (t : Tracker) (timecode sensor length : Z) :
  (2 <= MAX_NUM_LIGHTHOUSES)%nat -> Z.of_nat MAX_NUM_LIGHTHOUSES <= 2 ^ 8 ->
  consistent t ->
  match handle_sync t timecode sensor length with
  | Returns t' => consistent t'
  | Outside array _ => array = data_array
  | Loops => False
  end.
Proof.
  intros H2 Hmax Hc. unfold Tracking.handle_sync.
  unfold handle_acode.
  set (t1 := set_acode_offset _ t).
  set (acode := uint8_t _).
  assert (Hc1 : consistent t1)
    by (apply (@consistent_same_lcd t t1 Hc); destruct Hc as (_&_&_&_&_&_&_&?&?&?);
        assumption || reflexivity).
  destruct (handle_measurements_returns Hmax Hc1) as (t2 & -> & El & Eo & Ed).
  cbn [bind].
  destruct Hc1 as (S1 & S2 & L3 & L4 & L5 & Hcur & _ & Lo & Ll & Hb).
  rewrite El. cbn [per_sweep].
  set (ps := per_sweep (lcd t1)) in *.
  (* whatever the branch, arrays of the same sizes and a lighthouse 0 or 1 *)
  assert (Hdone : forall ps3 : per_sweep_data,
    List.length (lh_start_time ps3) = MAX_NUM_LIGHTHOUSES ->
    List.length (lh_max_pulse_length ps3) = MAX_NUM_LIGHTHOUSES ->
    List.length (lh_acode ps3) = MAX_NUM_LIGHTHOUSES ->
    0 <= current_lh ps3 <= 1 ->
    match
      (let t3 := set_lcd (set_per_sweep ps3
                   {| per_sweep := ps;
                      sweep := {| sweep_len := memset (sweep_len (sweep (lcd t1)));
                                  sweep_time := memset (sweep_time (sweep (lcd t1))) |} |})
                   t2 in
       if current_lh ps3 <? Z.of_nat MAX_NUM_LIGHTHOUSES
       then ootx_feed t3 (uint8_t (current_lh ps3))
                      (negb (Z.land acode 2 =? 0)) timecode
       else Returns t3)
    with
    | Returns t' => consistent t'
    | Outside array _ => array = data_array
    | Loops => False
    end).
  { intros ps3 A1 A2 A3 A4. cbv zeta.
    set (t3 := set_lcd _ t2).
    assert (Hc3 : consistent t3).
    { unfold Tracking.consistent, t3.
      cbn [lcd set_lcd set_per_sweep per_sweep sweep sweep_len sweep_time ootx driver].
      rewrite Eo, Ed.
      destruct (memset_zero (sweep_len (sweep (lcd t1)))) as [-> _].
      destruct (memset_zero (sweep_time (sweep (lcd t1)))) as [-> _].
      repeat (split; [assumption|]). split; [|repeat split; assumption].
      intro Hh. exfalso; apply Hh. apply hit_memset. }
    destruct (current_lh ps3 <? Z.of_nat MAX_NUM_LIGHTHOUSES); [|exact Hc3].
    apply ootx_feed_consistent; [exact Hc3|].
    unfold uint8_t; apply Z.mod_pos_bound; lia. }
  destruct (int32_t (timecode - recent_sync_time ps) <? 2400).
  - (* a pulse of the same sync *)
    cbn [lh_max_pulse_length lh_start_time lh_acode current_lh recent_sync_time
         activeLighthouse activeSweepStartTime activeAcode].
    destruct (@OotxFacts.load_in Z per_sweep_arrays (lh_max_pulse_length ps)
                (current_lh ps) ltac:(lia)) as [longest ->].
    cbn [bind]. destruct (longest <? length).
    + rewrite !OotxFacts.store_in by lia. cbn [bind].
      apply Hdone; cbn [lh_start_time lh_max_pulse_length lh_acode current_lh]; rewrite ?OotxFacts.upd_length; assumption.
    + cbn [bind]. apply Hdone; cbn [lh_start_time lh_max_pulse_length lh_acode current_lh]; assumption.
  - destruct (int32_t (timecode - recent_sync_time ps) <? 24000).
    + (* the second lighthouse *)
      rewrite !OotxFacts.store_in by lia. cbn [bind].
      apply Hdone; cbn [lh_start_time lh_max_pulse_length lh_acode current_lh]; rewrite ?OotxFacts.upd_length; try assumption; lia.
    + destruct (370000 <? int32_t (timecode - recent_sync_time ps)).
      * (* a new start *)
        destruct (memset_zero (lh_acode ps)) as [M1 _].
        destruct (memset_zero (lh_start_time ps)) as [M2 _].
        destruct (memset_zero (lh_max_pulse_length ps)) as [M3 _].
        destruct (@fill_in per_sweep_arrays MAX_NUM_LIGHTHOUSES (memset (lh_acode ps))
                    (-1) 0 ltac:(lia) ltac:(lia)) as (acodes & -> & Ha).
        cbn [bind].
        rewrite !OotxFacts.store_in by lia. cbn [bind].
        apply Hdone; cbn [lh_start_time lh_max_pulse_length lh_acode current_lh]; rewrite ?OotxFacts.upd_length; lia.
      * cbn [bind]. apply Hdone; assumption.
Qed.

Local Abbreviation deepdive_data_light :=
  (Tracking.deepdive_data_light MAX_NUM_SENSORS MAX_NUM_LIGHTHOUSES PREAMBLE_LENGTH
                                MAX_PACKET_LEN crc32).
Local Abbreviation deepdive_data_lights :=
  (Tracking.deepdive_data_lights MAX_NUM_SENSORS MAX_NUM_LIGHTHOUSES PREAMBLE_LENGTH
                                 MAX_PACKET_LEN crc32).

Lemma deepdive_data_light_consistent (t : Tracker) (timecode sensor length : Z) :
  (2 <= MAX_NUM_LIGHTHOUSES)%nat -> Z.of_nat MAX_NUM_LIGHTHOUSES <= 2 ^ 8 ->
  consistent t ->
  indexes_a_sensor MAX_NUM_SENSORS (timecode, sensor, length) ->
  match deepdive_data_light t timecode sensor length with
  | Returns t' => consistent t'
  | Outside array _ => array = data_array
  | Loops => False
  end.
Proof.
  intros H2 Hmax Hc [Hs0 Hs]. cbn [fst snd] in Hs0, Hs.
  unfold Tracking.deepdive_data_light.
  destruct (Z.gtb_spec sensor MAX_NUM_SENSORS); [exact Hc|].
  destruct (length >? 6750); [exact Hc|].
  destruct (length >? 2750); [apply handle_sync_consistent; assumption|].
  destruct (@handle_sweep_consistent t timecode sensor length Hc ltac:(lia))
    as (l & -> & Hl).
  exact Hl.
Qed.

(** X14: apart from the buffer of an OOTX context, no report makes the
    driver leave an array, and none makes it loop. A tracker that is
    [consistent] takes any stream of reports whose sensor index is not
    [MAX_NUM_SENSORS]: either every call returns, and the tracker is
    [consistent] again, or a call wrote outside [ctx->data]. In particular
    [handle_measurements] reads [ootx[lh]] for the lighthouse [handle_sweep]
    selected, never for [activeLighthouse = -1]. The constants are within
    the [uint8_t] and [uint16_t] counters that run up to them. *)
Theorem reports_stay_in_arrays (reports : list (Z * Z * Z)) (t : Tracker) :
  (2 <= MAX_NUM_LIGHTHOUSES)%nat -> Z.of_nat MAX_NUM_LIGHTHOUSES < 2 ^ 8 ->
  MAX_NUM_SENSORS < 2 ^ 16 ->
  consistent t ->
  Forall (indexes_a_sensor MAX_NUM_SENSORS) reports ->
  match deepdive_data_lights t reports with
  | Returns t' => consistent t'
  | Outside array _ => array = data_array
  | Loops => False
  end.
Proof.
  intros H2 Hlt _ Hc Hr; revert t Hc.
  assert (Hmax : Z.of_nat MAX_NUM_LIGHTHOUSES <= 2 ^ 8) by lia.
  induction Hr as [|[[timecode sensor] length] reports Hr1 Hr IH]; intros t Hc.
  - exact Hc.
  - simpl.
    assert (H := @deepdive_data_light_consistent t timecode sensor length H2 Hmax Hc Hr1).
    destruct (deepdive_data_light t timecode sensor length) as [t'| |];
      [|exact H|exact H].
    cbn [bind]. apply IH; exact H.
Qed.

(** *** [ootx_feed] on a frame *)

Local Abbreviation feed := (Ootx.feed PREAMBLE_LENGTH MAX_PACKET_LEN crc32).
Local Abbreviation feed_all := (Ootx.feed_all PREAMBLE_LENGTH MAX_PACKET_LEN crc32).
Local Abbreviation ootx_feeds :=
  (Tracking.ootx_feeds MAX_NUM_LIGHTHOUSES PREAMBLE_LENGTH MAX_PACKET_LEN crc32).

Lemma set_ootx_same (t : Tracker) : set_ootx (ootx t) t = t.
Proof. destruct t; reflexivity. Qed.

Lemma upd_same {A : Type} (l : list A) (i : nat) (x : A) :
  nth_error l i = Some x -> upd i x l = l.
Proof.
  revert i; induction l as [|y l IH]; intros [|i] H; simpl in *;
    try discriminate; [congruence|].
  rewrite IH by exact H; reflexivity.
Qed.

Lemma upd_upd {A : Type} (l : list A) (i : nat) (x y : A) :
  upd i y (upd i x l) = upd i y l.
Proof.
  revert i; induction l as [|z l IH]; intros [|i]; simpl; try reflexivity.
  rewrite IH; reflexivity.
Qed.

(** One bit, with the context of the lighthouse known. *)
Lemma ootx_feed_step (t : Tracker) (lh : Z) (ctx ctx1 : OOTX) (bit : bool) (tc : Z)
      (packet : option (list Z)) :
  0 <= lh < Z.of_nat MAX_NUM_LIGHTHOUSES ->
  nth_error (ootx t) (Z.to_nat lh) = Some ctx ->
  feed ctx bit = Returns (ctx1, packet) ->
  ootx_feed t lh bit tc
  = match packet with
    | Some data =>
        decode_packet (set_ootx (upd (Z.to_nat lh) ctx1 (ootx t)) t) lh data tc
    | None => Returns (set_ootx (upd (Z.to_nat lh) ctx1 (ootx t)) t)
    end.
Proof.
  intros Hlh Hctx Hf. unfold Tracking.ootx_feed.
  destruct (Z.leb_spec (Z.of_nat MAX_NUM_LIGHTHOUSES) lh); [lia|].
  assert (Hlen : (Z.to_nat lh < List.length (ootx t))%nat)
    by (apply nth_error_Some; congruence).
  unfold load. destruct (Z.ltb_spec lh 0); [lia|]. rewrite Hctx. cbn [bind].
  rewrite Hf. cbn [bind fst snd].
  unfold store. destruct (Z.ltb_spec lh 0); [lia|].
  destruct (Nat.ltb_spec (Z.to_nat lh) (List.length (ootx t))); [|lia].
  cbn [bind]. reflexivity.
Qed.

(** A stream at which [decode_packet] is not called only moves the
    context. *)
Lemma ootx_feeds_quiet (lh : Z) (stream : list (bool * Z)) :
  0 <= lh < Z.of_nat MAX_NUM_LIGHTHOUSES ->
  forall (t : Tracker) (ctx ctx1 : OOTX),
  nth_error (ootx t) (Z.to_nat lh) = Some ctx ->
  feed_all ctx (map fst stream) = Returns (ctx1, []) ->
  ootx_feeds t lh stream
  = Returns (set_ootx (upd (Z.to_nat lh) ctx1 (ootx t)) t).
Proof.
  intro Hlh; induction stream as [|[bit tc] stream IH]; intros t ctx ctx1 Hctx Hf.
  - simpl in Hf. injection Hf as <-. simpl.
    rewrite (upd_same _ _ Hctx), set_ootx_same. reflexivity.
  - cbn [map fst Ootx.feed_all] in Hf.
    destruct (feed ctx bit) as [[c packet]| |] eqn:E; try discriminate.
    cbn [bind fst snd] in Hf.
    destruct (feed_all c (map fst stream)) as [[c' packets]| |] eqn:E'; try discriminate.
    cbn [bind fst snd] in Hf.
    destruct packet as [data|]; [discriminate|].
    injection Hf as <- ->.
    cbn [Tracking.ootx_feeds].
    rewrite (@ootx_feed_step t lh ctx c bit tc None Hlh Hctx E). cbn [bind].
    assert (Hlen : (Z.to_nat lh < List.length (ootx t))%nat)
      by (apply nth_error_Some; congruence).
    rewrite (IH (set_ootx (upd (Z.to_nat lh) c (ootx t)) t) c c').
    + cbn [ootx set_ootx]. rewrite upd_upd. reflexivity.
    + cbn [ootx set_ootx]. apply nth_error_upd_same; exact Hlen.
    + exact E'.
Qed.

Lemma ootx_feeds_app (t : Tracker) (lh : Z) (s1 s2 : list (bool * Z)) :
  ootx_feeds t lh (s1 ++ s2) = (t' <- ootx_feeds t lh s1 ;; ootx_feeds t' lh s2)%M.
Proof.
  revert t; induction s1 as [|[bit tc] s1 IH]; intro t; [reflexivity|].
  cbn [app Tracking.ootx_feeds].
  destruct (ootx_feed t lh bit tc) as [t1| |]; cbn [bind]; [apply IH|reflexivity..].
Qed.

Lemma stored_bytes (payload : list Z) (padding : Z) :
  Forall (fun b => 0 <= b < 2 ^ 8) (padded payload padding) ->
  Forall (fun b => 0 <= b < 2 ^ 8) (stored MAX_PACKET_LEN payload padding).
Proof.
  intro H. unfold stored. apply Forall_app; split; [exact H|].
  apply Forall_forall; intros x Hx; apply repeat_spec in Hx; lia.
Qed.


End TrackerFacts.

Lemma reports_stay_in_arrays_witness :
  match deepdive_data_lights 32 2 17 4 sum32 new_tracker
                             [(5000, 31, 100); (6000, 0, 3000)] with
  | Returns t' => consistent 32 2 t'
  | Outside array _ => array = data_array
  | Loops => False
  end.
Proof.
  apply (@reports_stay_in_arrays 32 2 17 4 sum32 [(5000, 31, 100); (6000, 0, 3000)]
                                 new_tracker); [lia|simpl; lia|lia| |].
  - unfold consistent; cbn [new_tracker lcd idle_lcd sweep per_sweep sweep_len sweep_time
                            lh_start_time lh_max_pulse_length lh_acode current_lh ootx
                            driver lighthouses].
    repeat (split; [first [reflexivity|lia]|]).
    split; [intro H; exfalso; apply H; reflexivity|].
    repeat (split; [reflexivity|]).
    repeat constructor; simpl; lia.
  - repeat constructor; simpl; lia.
Defined.


Lemma decode_packet_stores_by_serial_witness :
  exists t',
    decode_packet 2 new_tracker 0 (repeat 0 33) 7 = Returns t' /\
    lcd t' = lcd new_tracker /\
    match slot_for (sprintf_u (uint32_at (repeat 0 33) 2))
                   (lighthouses (driver new_tracker)) with
    | None =>
        lighthouses (driver t') = lighthouses (driver new_tracker) /\
        ootx t' = ootx new_tracker /\
        exists line1 line2, calls t' = printf line2 :: printf line1 :: calls new_tracker
    | Some i =>
        (exists lh,
           nth_error (lighthouses (driver t')) i = Some lh /\
           serial lh = sprintf_u (uint32_at (repeat 0 33) 2) /\
           timestamp lh = 7) /\
        (forall j, j <> i ->
           nth_error (lighthouses (driver t')) j
           = nth_error (lighthouses (driver new_tracker)) j) /\
        (exists ctx,
           nth_error (ootx t') (Z.to_nat 0) = Some ctx /\
           lighthouse ctx = Some i) /\
        (forall j, j <> Z.to_nat 0 ->
           nth_error (ootx t') j = nth_error (ootx new_tracker) j) /\
        calls t' = (if has_lighthouse_fn (driver new_tracker)
                    then [lighthouse_fn i] else [])
                   ++ calls new_tracker
    end.
Proof.
  apply (@decode_packet_stores_by_serial 2 new_tracker 0 (repeat 0 33) 7);
    [simpl; lia|reflexivity|simpl; lia|].
  apply Forall_forall; intros x Hx; apply repeat_spec in Hx; lia.
Defined.

Lemma decode_packet_serial_keeps_slot_witness :
  exists t',
    decode_packet 2 new_tracker 0 (repeat 0 33) 7 = Returns t' /\
    slot_for (sprintf_u (uint32_at (repeat 0 33) 2)) (lighthouses (driver t'))
    = slot_for (sprintf_u (uint32_at (repeat 0 33) 2))
               (lighthouses (driver new_tracker)).
Proof.
  apply (@decode_packet_serial_keeps_slot 2 new_tracker 0 (repeat 0 33) 7);
    [simpl; lia|reflexivity|simpl; lia|].
  apply Forall_forall; intros x Hx; apply repeat_spec in Hx; lia.
Defined.

Lemma handle_acode_of_sync_length_witness :
  snd (handle_acode new_tracker 3000) = (3000 - 2750) / 500 /\
  0 <= snd (handle_acode new_tracker 3000) <= 8 /\
  (snd (handle_acode new_tracker 3000) = 8 <-> 3000 = 6750) /\
  ((-250 <= acode_offset new_tracker <= 250)%R ->
   (-250 <= acode_offset (fst (handle_acode new_tracker 3000)) <= 250)%R) /\
  lcd (fst (handle_acode new_tracker 3000)) = lcd new_tracker /\
  ootx (fst (handle_acode new_tracker 3000)) = ootx new_tracker /\
  driver (fst (handle_acode new_tracker 3000)) = driver new_tracker /\
  calls (fst (handle_acode new_tracker 3000)) = calls new_tracker.
Proof. apply (@handle_acode_of_sync_length new_tracker 3000); lia. Defined.

Lemma handle_measurements_reports_hits_witness :
  exists t',
    handle_measurements 32 swept_tracker = Returns t' /\
    calls t' = [lig_fn 0 MOTOR_AXIS1 1000 2 [3; 7] [5000; 5200] [4050; 4240] [100; 81]] /\
    Forall (fun x => x = 0) (sweep_len (sweep (lcd t'))).
Proof.
  destruct (@handle_measurements_reports_hits 32 swept_tracker) as
    (t' & sensors & Ht & Hs & _ & _ & Hcalls & _ & _ & _ & Hzero & _).
  - lia.
  - intros _. vm_compute. reflexivity.
  - exists t'. split; [exact Ht|]. split; [|exact Hzero].
    rewrite Hcalls, Hs. vm_compute. reflexivity.
Defined.

End TrackingFacts.

(** ** The calibration node, further *)

Module CalibrationNodeFacts.
Import Ceres Calibration CalibrationFacts.
Open Scope R_scope.

Section Callbacks.
Context {Time : Type} {Time_Key : Key Time}.
Variable ext : External Time.

(** *** [LightCallback] *)

Lemma LightCallback_fields cfg now msg (st : Node Time) :
  trackers_ (LightCallback cfg now msg st) = trackers_ st /\
  lighthouses_ (LightCallback cfg now msg st) = lighthouses_ st /\
  recording_ (LightCallback cfg now msg st) = recording_ st /\
  out_ (LightCallback cfg now msg st) = out_ st ++ [TimerRestart].
Proof.
  unfold LightCallback.
  destruct (negb _ || negb _); [repeat split|].
  destruct (erase_loop cfg _ _ 0) as [v deleted].
  destruct (_ <? _)%Z; repeat split.
Qed.

Lemma LightCallback_guard cfg now msg (st : Node Time) :
  recording_ st = false \/ known_and_ready msg st = false ->
  LightCallback cfg now msg st = emit TimerRestart st.
Proof.
  intro H; unfold LightCallback.
  change (recording_ (emit TimerRestart st)) with (recording_ st).
  change (known_and_ready msg (emit TimerRestart st)) with (known_and_ready msg st).
  destruct H as [-> | ->]; [reflexivity|].
  rewrite orb_true_r; reflexivity.
Qed.


(** X16: [LightCallback] writes the store and restarts the timer, nothing
    else: trackers, lighthouses and the recording flag are as before and the
    only event is the restart of the timer. While the node is not
    recording, or when the tracker or the lighthouse of the observation is
    unknown or not ready, the store is as before too. *)
Theorem LightCallback_touches_the_store_only
    (cfg : Config) (now : Time) (msg : Light) (st : Node Time) :
  trackers_ (LightCallback cfg now msg st) = trackers_ st /\
  lighthouses_ (LightCallback cfg now msg st) = lighthouses_ st /\
  recording_ (LightCallback cfg now msg st) = recording_ st /\
  out_ (LightCallback cfg now msg st) = out_ st ++ [TimerRestart] /\
  (recording_ st = false \/ known_and_ready msg st = false ->
   measurements_ (LightCallback cfg now msg st) = measurements_ st).
Proof.
  destruct (LightCallback_fields cfg now msg st) as (H1 & H2 & H3 & H4).
  repeat (split; [assumption|]).
  intro H; rewrite (LightCallback_guard cfg now msg st H); reflexivity.
Qed.

(** *** The store between recordings *)

Lemma Solve_recording cfg (st : Node Time) :
  recording_ (snd (Solve ext cfg st)) = recording_ st.
Proof.
  destruct (measurements_ st) as [|m ms] eqn:E.
  - rewrite (Solve_empty ext cfg st E); reflexivity.
  - destruct (Solve_nonempty ext cfg st E) as (_ & _ & _ & H & _); exact H.
Qed.

(** X17: the store is empty whenever the node is not recording. The three
    callbacks keep it so: an observation is stored only while recording,
    and the trigger and the timer that stop a recording clear the store
    after [Solve], whatever its result. So [Solve] sees the observations
    of one recording only. *)
Theorem idle_store_stays_empty
    (cfg : Config) (now : Time) (msg : Light) (res : Response) (st : Node Time) :
  (recording_ st = false -> measurements_ st = []) ->
  (recording_ (LightCallback cfg now msg st) = false ->
   measurements_ (LightCallback cfg now msg st) = []) /\
  (recording_ (snd (TriggerCallback ext cfg res st)) = false ->
   measurements_ (snd (TriggerCallback ext cfg res st)) = []) /\
  (recording_ (TimerCallback ext cfg st) = false ->
   measurements_ (TimerCallback ext cfg st) = []).
Proof.
  intro Hidle.
  assert (Htrigger : forall res,
    recording_ (snd (TriggerCallback ext cfg res st)) = false ->
    measurements_ (snd (TriggerCallback ext cfg res st)) = []).
  { intro res'. unfold TriggerCallback.
    destruct (recording_ st) eqn:Hrec; cbn [negb].
    - assert (Hr := Solve_recording cfg st).
      destruct (Solve ext cfg st) as [ok st1]. cbn [snd] in Hr.
      destruct ok; reflexivity.
    - cbn. rewrite Hrec. discriminate. }
  split; [|split; [apply Htrigger|apply Htrigger]].
  destruct (LightCallback_fields cfg now msg st) as (_ & _ & Hr & _).
  rewrite Hr. intro Hrec.
  rewrite (LightCallback_guard cfg now msg st (or_introl Hrec)).
  apply Hidle; exact Hrec.
Qed.

(** *** What [Solve] leaves of the lighthouses and the trackers *)

Lemma for_each_bootstrap_tracker cfg (bundle : BundleMap Time) lt l acc :
  fst (for_each (bootstrap_tracker ext cfg bundle lt) l acc)
  = map (fun tt => (fst tt, clear_vTt (snd tt))) l.
Proof.
  revert acc; induction l as [|tt l IH]; intro acc; [reflexivity|].
  cbn [for_each map].
  change (bootstrap_tracker ext cfg bundle lt tt acc)
    with ((fst tt, clear_vTt (snd tt)),
          fold_left (bootstrap_epoch ext cfg bundle lt (fst tt, clear_vTt (snd tt)))
            (StdMap.keys (StdMap.get [] (fst lt) (StdMap.get [] (fst tt) bundle)))
            acc).
  cbv beta iota.
  specialize (IH (fold_left (bootstrap_epoch ext cfg bundle lt (fst tt, clear_vTt (snd tt)))
            (StdMap.keys (StdMap.get [] (fst lt) (StdMap.get [] (fst tt) bundle)))
            acc)).
  destruct (for_each _ l _) as [l'' s2]. cbn [fst] in *. rewrite IH. reflexivity.
Qed.

Lemma map_clear_clear (l : TrackerMap) :
  map (fun tt => (fst tt, clear_vTt (snd tt)))
      (map (fun tt : string * Tracker => (fst tt, clear_vTt (snd tt))) l)
  = map (fun tt => (fst tt, clear_vTt (snd tt))) l.
Proof. rewrite map_map; reflexivity. Qed.

(** The trackers after the bootstrap: cleared, once a lighthouse is
    visited. *)
Lemma bootstrap_trackers cfg (bundle : BundleMap Time) lighthouses trackers :
  fst (bootstrap ext cfg bundle lighthouses trackers)
  = match lighthouses with
    | [] => trackers
    | _ :: _ => map (fun tt => (fst tt, clear_vTt (snd tt))) trackers
    end.
Proof.
  unfold bootstrap.
  assert (H : forall lhs acc,
    fst (fold_left (bootstrap_lighthouse ext cfg bundle) lhs acc)
    = match lhs with
      | [] => fst acc
      | _ :: _ => map (fun tt => (fst tt, clear_vTt (snd tt))) (fst acc)
      end).
  { induction lhs as [|lt lhs IH]; intro acc; [reflexivity|].
    cbn [fold_left]. rewrite IH. unfold bootstrap_lighthouse.
    rewrite for_each_bootstrap_tracker.
    destruct lhs; [reflexivity|apply map_clear_clear]. }
  rewrite H. reflexivity.
Qed.

Lemma write_back_identities problem solved (lighthouses : LighthouseMap) :
  map (fun l => (fst l, params (snd l), lh_ready (snd l)))
      (write_back problem solved lighthouses)
  = map (fun l => (fst l, params (snd l), lh_ready (snd l))) lighthouses.
Proof.
  unfold write_back. generalize 0%nat.
  induction lighthouses as [|l ls IH]; intro n; [reflexivity|].
  cbn [length seq combine map]. rewrite IH. cbn [fst snd].
  destruct (in_problem problem n); reflexivity.
Qed.

Lemma build_problem_identities (poses : PoseMap Time) trackers lighthouses :
  map (fun l => (fst l, params (snd l), lh_ready (snd l)))
      (fst (build_problem poses trackers lighthouses))
  = map (fun l => (fst l, params (snd l), lh_ready (snd l))) lighthouses.
Proof. destruct lighthouses as [|[lm master] slaves]; reflexivity. Qed.

Lemma Solve_trackers cfg (st : Node Time) m ms :
  measurements_ st = m :: ms ->
  trackers_ (snd (Solve ext cfg st))
  = fst (bootstrap ext cfg (bundle_measurements ext (res_ cfg) (measurements_ st))
           (lighthouses_ st) (trackers_ st)).
Proof.
  intro E; unfold Solve; rewrite E; cbn zeta.
  cbn [measurements_ emit trackers_ lighthouses_ set_trackers set_lighthouses].
  rewrite E.
  destruct (bootstrap ext _ _ _ _) as [trackers [poses count]].
  destruct (build_problem _ _ _) as [lighthouses problem].
  destruct (ceres_Solve ext _ _) as [usable solved].
  match goal with
  | |- context [fold_left ?f ?es ?s] =>
      generalize (fold_emit_fields es s); cbv zeta;
      intros (Ht & Hl & Hm & Hr & Ho)
  end.
  destruct usable, (visualize_ cfg); cbn -[fold_left publish_paths] in *;
    try rewrite Ht; reflexivity.
Qed.

(** X18: [Solve] neither adds nor drops a lighthouse or a tracker, keeps
    their order, and leaves the calibration parameters and the ready flag
    of every lighthouse and the sensor positions, the head transform and
    the ready flag of every tracker as they were; the store and the
    recording flag are as before. What it writes is the transform of a
    lighthouse and, on a store that is not empty and with a lighthouse,
    the trajectory of every tracker, which it clears. *)
Theorem Solve_keeps_identities (cfg : Config) (st : Node Time) :
  let st' := snd (Solve ext cfg st) in
  map (fun l => (fst l, params (snd l), lh_ready (snd l))) (lighthouses_ st')
  = map (fun l => (fst l, params (snd l), lh_ready (snd l))) (lighthouses_ st) /\
  map (fun t => (fst t, sensors (snd t), bTh (snd t), tr_ready (snd t))) (trackers_ st')
  = map (fun t => (fst t, sensors (snd t), bTh (snd t), tr_ready (snd t)))
        (trackers_ st) /\
  measurements_ st' = measurements_ st /\
  recording_ st' = recording_ st /\
  (measurements_ st <> [] -> lighthouses_ st <> [] ->
   Forall (fun t => vTt (snd t) = []) (trackers_ st')).
Proof.
  cbv zeta.
  destruct (measurements_ st) as [|m ms] eqn:E.
  - rewrite (Solve_empty ext cfg st E). cbn. rewrite E.
    repeat (split; [reflexivity|]). congruence.
  - destruct (Solve_nonempty ext cfg st E) as (_ & Hl & Hm & Hr & _).
    rewrite Hl, Hm, Hr, (Solve_trackers cfg st E), bootstrap_trackers, E.
    split; [|split; [|split; [reflexivity|split; [reflexivity|]]]].
    + unfold lighthouses_after_Solve.
      destruct (bootstrap ext _ _ _ _) as [trackers [poses count]].
      destruct (build_problem poses trackers (lighthouses_ st)) as [lighthouses problem] eqn:Eb.
      destruct (ceres_Solve ext _ _) as [usable solved].
      rewrite write_back_identities.
      change lighthouses with (fst (lighthouses, problem)). rewrite <- Eb.
      apply build_problem_identities.
    + destruct (lighthouses_ st); [reflexivity|].
      rewrite map_map. reflexivity.
    + intros _ Hne. destruct (lighthouses_ st); [congruence|].
      apply Forall_forall. intros t Ht. apply in_map_iff in Ht.
      destruct Ht as (t0 & <- & _). reflexivity.
Qed.

(** *** Every epoch that qualifies gets its pose *)

Section Completeness.
Variable cfg : Config.
Variable bundle : BundleMap Time.

Lemma set_pose_keeps ts t ls pose (poses : PoseMap Time) ts' t' ls' :
  pose_at poses ts' t' ls' <> None ->
  pose_at (set_pose ts t ls pose poses) ts' t' ls' <> None.
Proof.
  intro H; rewrite pose_at_set_pose.
  destruct (key_eqb ts' ts && key_eqb t' t && key_eqb ls' ls); [discriminate|exact H].
Qed.

Lemma set_pose_stored ts t ls pose (poses : PoseMap Time) :
  pose_at (set_pose ts t ls pose poses) ts t ls = Some pose.
Proof. rewrite pose_at_set_pose, !key_eqb_refl; reflexivity. Qed.

Lemma bootstrap_epochs_stored lt tt times acc :
  (forall ts t ls, pose_at (fst acc) ts t ls <> None ->
     pose_at (fst (fold_left (bootstrap_epoch ext cfg bundle lt tt) times acc)) ts t ls
     <> None) /\
  (forall t pose, In t times -> epoch_pose ext cfg bundle lt tt t = Some pose ->
     pose_at (fst (fold_left (bootstrap_epoch ext cfg bundle lt tt) times acc))
             (fst tt) t (fst lt) <> None).
Proof.
  revert acc; induction times as [|bt times IH]; intro acc.
  - split; [auto|intros t pose []].
  - cbn [fold_left].
    destruct (IH (bootstrap_epoch ext cfg bundle lt tt acc bt)) as [Hkeep Hnew].
    assert (Hstep : forall ts t ls, pose_at (fst acc) ts t ls <> None ->
              pose_at (fst (bootstrap_epoch ext cfg bundle lt tt acc bt)) ts t ls <> None).
    { intros ts t ls H. unfold bootstrap_epoch.
      destruct (epoch_pose ext cfg bundle lt tt bt); [|exact H].
      apply set_pose_keeps; exact H. }
    split.
    + intros ts t ls H. apply Hkeep, Hstep, H.
    + intros t pose [<-|Hin] He; [|apply (Hnew t pose Hin He)].
      apply Hkeep. unfold bootstrap_epoch. rewrite He. cbn [fst].
      rewrite set_pose_stored. discriminate.
Qed.

Lemma bootstrap_trackers_stored lt l acc :
  (forall ts t ls, pose_at (fst acc) ts t ls <> None ->
     pose_at (fst (snd (for_each (bootstrap_tracker ext cfg bundle lt) l acc))) ts t ls
     <> None) /\
  (forall tt t pose, In tt l ->
     In t (epochs bundle (fst tt) (fst lt)) ->
     epoch_pose ext cfg bundle lt (fst tt, clear_vTt (snd tt)) t = Some pose ->
     pose_at (fst (snd (for_each (bootstrap_tracker ext cfg bundle lt) l acc)))
             (fst tt) t (fst lt) <> None).
Proof.
  revert acc; induction l as [|tt0 l IH]; intro acc.
  - split; [auto|intros tt t pose []].
  - cbn [for_each].
    change (bootstrap_tracker ext cfg bundle lt tt0 acc)
      with ((fst tt0, clear_vTt (snd tt0)),
            fold_left (bootstrap_epoch ext cfg bundle lt (fst tt0, clear_vTt (snd tt0)))
              (epochs bundle (fst tt0) (fst lt)) acc).
    cbv beta iota.
    set (acc1 := fold_left _ _ acc).
    destruct (bootstrap_epochs_stored lt (fst tt0, clear_vTt (snd tt0))
                (epochs bundle (fst tt0) (fst lt)) acc) as [Hkeep1 Hnew1].
    fold acc1 in Hkeep1, Hnew1.
    destruct (IH acc1) as [Hkeep Hnew].
    destruct (for_each _ l acc1) as [l'' s2]. cbn [fst snd] in *.
    split.
    + intros ts t ls H. apply Hkeep, Hkeep1, H.
    + intros tt t pose [<-|Hin] Ht He; [|apply (Hnew tt t pose Hin Ht He)].
      apply Hkeep. apply (Hnew1 t pose Ht He).
Qed.

Lemma bootstrap_lighthouses_stored trackers lhs acc :
  covers trackers (fst acc) ->
  (forall ts t ls, pose_at (fst (snd acc)) ts t ls <> None ->
     pose_at (fst (snd (fold_left (bootstrap_lighthouse ext cfg bundle) lhs acc)))
             ts t ls <> None) /\
  (forall lt ts tr t pose, In lt lhs -> In (ts, tr) trackers ->
     In t (epochs bundle ts (fst lt)) ->
     epoch_pose ext cfg bundle lt (ts, clear_vTt tr) t = Some pose ->
     pose_at (fst (snd (fold_left (bootstrap_lighthouse ext cfg bundle) lhs acc)))
             ts t (fst lt) <> None).
Proof.
  revert acc; induction lhs as [|lt0 lhs IH]; intros acc Hcov.
  - split; [auto|intros lt ts tr t pose []].
  - cbn [fold_left].
    set (acc1 := bootstrap_lighthouse ext cfg bundle acc lt0).
    destruct (bootstrap_trackers_stored lt0 (fst acc) (snd acc)) as [Hkeep1 Hnew1].
    assert (Hcov1 : covers trackers (fst acc1)).
    { unfold acc1, bootstrap_lighthouse. rewrite for_each_bootstrap_tracker.
      intros ts tr Hin. destruct (Hcov ts tr Hin) as (tr' & Hin' & Hc).
      exists (clear_vTt tr'). split; [|exact Hc].
      apply in_map_iff. exists (ts, tr'). split; [reflexivity|exact Hin']. }
    destruct (IH acc1 Hcov1) as [Hkeep Hnew].
    split.
    + intros ts t ls H. apply Hkeep. apply Hkeep1. exact H.
    + intros lt ts tr t pose [<-|Hin] Htr Ht He;
        [|apply (Hnew lt ts tr t pose Hin Htr Ht He)].
      apply Hkeep. destruct (Hcov ts tr Htr) as (tr' & Hin' & Hc).
      apply (Hnew1 (ts, tr') t pose Hin' Ht). cbn [fst snd]. rewrite Hc. exact He.
Qed.

End Completeness.

Lemma unique_entry {V : Type} (l : list (string * V)) (k : string) (a b : V) :
  NoDup (map fst l) -> In (k, a) l -> In (k, b) l -> a = b.
Proof.
  induction l as [|[k0 v0] l IH]; intros Hnd Ha Hb; [destruct Ha|].
  cbn [map fst] in Hnd. inversion Hnd as [|? ? Hnot Hnd']; subst.
  destruct Ha as [Ha|Ha], Hb as [Hb|Hb].
  - congruence.
  - injection Ha as -> ->. exfalso; apply Hnot.
    apply in_map_iff. exists (k, b). split; [reflexivity|exact Hb].
  - injection Hb as -> ->. exfalso; apply Hnot.
    apply in_map_iff. exists (k, a). split; [reflexivity|exact Ha].
  - apply IH; assumption.
Qed.

(** X19: the bootstrap leaves no epoch out. For lighthouses and trackers
    keyed by serial number, as the two maps are, every time bin of a
    tracker and a lighthouse whose correspondences give a pose (four
    sensors or more with a mean on both axes, and [solvePnP] succeeding)
    has exactly that pose stored under the tracker, the time bin and the
    lighthouse. *)
Theorem bootstrap_stores_every_pose
    (cfg : Config) (bundle : BundleMap Time) (lighthouses : LighthouseMap)
    (trackers : TrackerMap) (ls ts : string) (lh : Lighthouse) (tr : Tracker)
    (t : Time) (pose : list R) :
  NoDup (map fst lighthouses) -> NoDup (map fst trackers) ->
  In (ls, lh) lighthouses -> In (ts, tr) trackers ->
  In t (epochs bundle ts ls) ->
  epoch_pose ext cfg bundle (ls, lh) (ts, clear_vTt tr) t = Some pose ->
  pose_at (fst (snd (bootstrap ext cfg bundle lighthouses trackers))) ts t ls
  = Some pose.
Proof.
  intros Hnl Hnt Hlh Htr Ht He.
  destruct (@bootstrap_lighthouses_stored cfg bundle trackers lighthouses
              (trackers, ([], 0%nat))) as [_ Hnew].
  { intros ts' tr' Hin. exists tr'. split; [exact Hin|reflexivity]. }
  specialize (Hnew (ls, lh) ts tr t pose Hlh Htr Ht He). cbn [fst] in Hnew.
  fold (bootstrap ext cfg bundle lighthouses trackers) in Hnew.
  destruct (pose_at (fst (snd (bootstrap ext cfg bundle lighthouses trackers))) ts t ls)
    as [pose'|] eqn:Ep; [|congruence].
  destruct (bootstrap_produced ext cfg bundle lighthouses trackers _ _ _ Ep)
    as (lh' & tr' & Hlh' & Htr' & _ & He').
  rewrite (@unique_entry _ lighthouses ls lh' lh Hnl Hlh' Hlh) in He'.
  rewrite (@unique_entry _ trackers ts tr' tr Hnt Htr' Htr) in He'.
  congruence.
Qed.

End Callbacks.


Lemma idle_store_stays_empty_witness :
  (recording_ (LightCallback example_cfg 7%N example_light example_recording) = false ->
   measurements_ (LightCallback example_cfg 7%N example_light example_recording) = []) /\
  (recording_ (snd (TriggerCallback (example_ext PnP_fails) example_cfg
                      {| success := false; message := EmptyString |}
                      example_recording)) = false ->
   measurements_ (snd (TriggerCallback (example_ext PnP_fails) example_cfg
                         {| success := false; message := EmptyString |}
                         example_recording)) = []) /\
  (recording_ (TimerCallback (example_ext PnP_fails) example_cfg example_recording)
   = false ->
   measurements_ (TimerCallback (example_ext PnP_fails) example_cfg example_recording)
   = []).
Proof.
  apply (@idle_store_stays_empty N N_Key (example_ext PnP_fails) example_cfg 7%N
           example_light {| success := false; message := EmptyString |}
           example_recording).
  intros _; reflexivity.
Defined.

Lemma bootstrap_stores_every_pose_witness :
  pose_at
    (fst (snd (bootstrap (example_ext PnP_succeeds) example_cfg example_bundle
                 (lighthouses_ example_recording) (trackers_ example_recording))))
    "T" 5%N "A"
  = Some [1; 2; 3; 0 * 1; 0 * 0; 0 * 0].
Proof.
  apply (@bootstrap_stores_every_pose N N_Key (example_ext PnP_succeeds) example_cfg
           example_bundle (lighthouses_ example_recording)
           (trackers_ example_recording) "A" "T" example_lighthouse example_tracker
           5%N [1; 2; 3; 0 * 1; 0 * 0; 0 * 0]).
  - repeat constructor; simpl; intuition discriminate.
  - repeat constructor; simpl; intuition discriminate.
  - left; reflexivity.
  - left; reflexivity.
  - left; reflexivity.
  - reflexivity.
Defined.

End CalibrationNodeFacts.
